(** * Arts: the dart / colour-wheel party game

    A shallow embedding of the authoritative game logic of the repository
    (colour model, hit-colour resolvers, [Room] state machine and the
    [GameManager] coordinator) together with the properties the
    specification states about them.

    Conventions of the embedding.
    - A JavaScript [Number] is a real number of [R]: arithmetic is exact and
      the IEEE rounding of doubles is not modelled.  [Math.round],
      [Math.floor], [%], [Math.sqrt] and [Math.atan2] are the mathematical
      functions they approximate.  Integer-valued numbers that only count or
      index ([throwCount], [score], indices) are [nat], and colour channels,
      which the code always produces through [Math.round], are [Z].
    - A JavaScript [Map] is an insertion-ordered association list with
      unique keys (module [JSMap]).
    - [null] / [undefined] are [None]; a thrown exception is an explicit
      [Throw] result.
    - Calls to [Math.random()], [uuidv4()] and [Date.now()] are replaced by an
      explicit argument holding the value drawn. *)

From Stdlib Require Import Reals Lra Lia ZArith List String Ascii Bool.
From Stdlib Require HexString.
Import ListNotations.

Open Scope R_scope.

(** ** JavaScript numeric primitives *)

Module JS.

(** [Math.round]: nearest integer, ties towards +infinity. *)
Definition round (x : R) : Z := Zfloor (x + 1 / 2).

(** [Math.floor]. *)
Definition floor (x : R) : Z := Zfloor x.

(** Truncation towards zero, the quotient underlying [%]. *)
Definition trunc (x : R) : Z :=
  if Rle_dec 0 x then Zfloor x else Zceil x.

(** [x % y] on numbers, for a non-zero divisor [y]. *)
Definition rem (x y : R) : R := x - y * IZR (trunc (x / y)).

(** [Math.max(a, b, c)] and [Math.min(a, b, c)]. *)
Definition max3 (a b c : R) : R := Rmax a (Rmax b c).
Definition min3 (a b c : R) : R := Rmin a (Rmin b c).

(** [Math.atan2(y, x)], the argument of the point [(x, y)], in (-PI, PI]. *)
Definition atan2 (y x : R) : R :=
  if Rlt_dec 0 x then atan (y / x)
  else if Rlt_dec x 0 then
    (if Rle_dec 0 y then atan (y / x) + PI else atan (y / x) - PI)
  else if Rlt_dec 0 y then PI / 2
  else if Rlt_dec y 0 then - (PI / 2)
  else 0.

(** An index-valued number: [currentTurn] is a natural number or, after a
    remainder by an empty turn order, [NaN]. *)
Inductive Index : Type :=
| Num (n : nat)
| NaN.

(** [i + 1] on an index. *)
Definition succ (i : Index) : Index :=
  match i with
  | Num n => Num (S n)
  | NaN => NaN
  end.

(** [i % len] on an index: [NaN] when [len] is zero. *)
Definition imod (i : Index) (len : nat) : Index :=
  match i, len with
  | Num n, S _ => Num (n mod len)
  | _, _ => NaN
  end.

(** [i >= len]: false when [i] is [NaN]. *)
Definition ige (i : Index) (len : nat) : bool :=
  match i with
  | Num n => Nat.leb len n
  | NaN => false
  end.

End JS.

(** ** server/game/colorUtils.js *)

Module ColorUtils.

(** [{r, g, b}]. *)
Record Color : Type := mkColor { r : Z; g : Z; b : Z }.

(** [{h, s, l}] as returned by [rgbToHsl]. *)
Record HSL : Type := mkHSL { h : Z; s : Z; l : Z }.

Definition channel_ok (z : Z) : Prop := (0 <= z <= 255)%Z.

(** A well-formed colour: three integer channels in [0,255]. *)
Definition valid_color (c : Color) : Prop :=
  channel_ok (r c) /\ channel_ok (g c) /\ channel_ok (b c).

Definition mixColors (color1 color2 : Color) (weight : R) : Color :=
  let w1 := 1 - weight in
  let w2 := weight in
  {| r := JS.round (IZR (r color1) * w1 + IZR (r color2) * w2);
     g := JS.round (IZR (g color1) * w1 + IZR (g color2) * w2);
     b := JS.round (IZR (b color1) * w1 + IZR (b color2) * w2) |}.

Definition calculateColorDistance (color1 color2 : Color) : R :=
  let dr := IZR (r color1) - IZR (r color2) in
  let dg := IZR (g color1) - IZR (g color2) in
  let db := IZR (b color1) - IZR (b color2) in
  sqrt (dr * dr + dg * dg + db * db).

(** The [switch (max)] of the source has no default; [max] is always one of
    the three channels, so the last case is written as the final branch. *)
Definition rgbToHsl (r0 g0 b0 : R) : HSL :=
  let r := r0 / 255 in
  let g := g0 / 255 in
  let b := b0 / 255 in
  let max := JS.max3 r g b in
  let min := JS.min3 r g b in
  let l := (max + min) / 2 in
  let hs :=
    if Req_dec_T max min then (0, 0)
    else
      let d := max - min in
      let s := if Rlt_dec (1 / 2) l then d / (2 - max - min)
               else d / (max + min) in
      let h :=
        if Req_dec_T max r then (g - b) / d + (if Rlt_dec g b then 6 else 0)
        else if Req_dec_T max g then (b - r) / d + 2
        else (r - g) / d + 4 in
      (h / 6, s) in
  {| h := JS.round (fst hs * 360);
     s := JS.round (snd hs * 100);
     l := JS.round (l * 100) |}.

(** The local arrow function [hue2rgb] of [hslToRgb]. *)
Definition hue2rgb (p q t0 : R) : R :=
  let t1 := if Rlt_dec t0 0 then t0 + 1 else t0 in
  let t := if Rlt_dec 1 t1 then t1 - 1 else t1 in
  if Rlt_dec t (1 / 6) then p + (q - p) * 6 * t
  else if Rlt_dec t (1 / 2) then q
  else if Rlt_dec t (2 / 3) then p + (q - p) * (2 / 3 - t) * 6
  else p.

(** The three channels of [hslToRgb] before they are scaled and rounded. *)
Definition hslChannels (h0 s0 l0 : R) : R * R * R :=
  let h := h0 / 360 in
  let s := s0 / 100 in
  let l := l0 / 100 in
  if Req_dec_T s 0 then (l, l, l)
  else
    let q := if Rlt_dec l (1 / 2) then l * (1 + s) else l + s - l * s in
    let p := 2 * l - q in
    (hue2rgb p q (h + 1 / 3), hue2rgb p q h, hue2rgb p q (h - 1 / 3)).

Definition hslToRgb (h0 s0 l0 : R) : Color :=
  let '(r, g, b) := hslChannels h0 s0 l0 in
  {| r := JS.round (r * 255);
     g := JS.round (g * 255);
     b := JS.round (b * 255) |}.

(** [generateRandomColor()]; [u1], [u2], [u3] are the three successive
    values of [Math.random()]. *)
Definition generateRandomColor (u1 u2 u3 : R) : Color :=
  let hue := IZR (JS.floor (u1 * 360)) in
  let saturation := 70 + u2 * 30 in
  let lightness := 40 + u3 * 20 in
  hslToRgb hue saturation lightness.


End ColorUtils.

(** ** JavaScript [Map]: insertion-ordered, unique keys, string keys *)

Module JSMap.

Definition t (V : Type) : Type := list (string * V).

Section Operations.
Context {V : Type}.

(** [new Map()]. *)
Definition empty : t V := [].

(** [m.get(k)]; [None] is [undefined]. *)
Fixpoint get (k : string) (m : t V) : option V :=
  match m with
  | [] => None
  | (k', v) :: m' => if String.eqb k k' then Some v else get k m'
  end.

(** [m.set(k, v)]: an existing key keeps its position, a new key goes last. *)
Fixpoint set (k : string) (v : V) (m : t V) : t V :=
  match m with
  | [] => [(k, v)]
  | (k', v') :: m' =>
      if String.eqb k k' then (k', v) :: m' else (k', v') :: set k v m'
  end.

(** [m.delete(k)]. *)
Fixpoint delete (k : string) (m : t V) : t V :=
  match m with
  | [] => []
  | (k', v') :: m' =>
      if String.eqb k k' then delete k m' else (k', v') :: delete k m'
  end.

(** [m.size], [m.keys()], [m.values()] and [m.has(k)]. *)
Definition size (m : t V) : nat := List.length m.
Definition keys (m : t V) : list string := List.map fst m.
Definition values (m : t V) : list V := List.map snd m.
Definition has (k : string) (m : t V) : bool :=
  match get k m with Some _ => true | None => false end.

(** Apply a mutation to every value object, in place. *)
Definition map_values (f : V -> V) (m : t V) : t V :=
  List.map (fun kv => (fst kv, f (snd kv))) m.

(** Apply a mutation to the first value object, [m.values().next().value]. *)
Definition update_first (f : V -> V) (m : t V) : t V :=
  match m with
  | [] => []
  | (k, v) :: m' => (k, f v) :: m'
  end.

End Operations.

End JSMap.

(** ** server/game/Room.js (the variant with miss handling) *)

Module Room.
Import ColorUtils.

Inductive GameState : Type := waiting | playing | finished.

Record Player : Type := mkPlayer {
  id : string;
  name : string;
  isHost : bool;
  isReady : bool;
  throwCount : nat;
  currentColor : Color;
  score : nat
}.

Record GameSettings : Type := mkSettings {
  colorTolerance : R;
  maxThrows : nat;
  dartSpeed : R;
  difficulty : string
}.

(** A landing position [{x, y, z}]. *)
Record Position : Type := mkPosition { x : R; y : R; z : R }.

(** The [hitColor] field of a throw payload: absent ([undefined]), an
    explicit [null] (the client saw a miss), or a colour. *)
Inductive HitColorField : Type :=
| hitColor_undefined
| hitColor_null
| hitColor_value (c : Color).

(** The [throwData] payload of a [dartThrow] message. *)
Record ThrowData : Type := mkThrowData {
  td_hitColor : HitColorField;
  td_hitPosition : Position;
  td_trajectory : list Position
}.

(** An entry of [room.throws]; [None] is [null] or [undefined]. *)
Record ThrowRecord : Type := mkThrowRecord {
  tr_id : string;
  tr_playerId : string;
  tr_timestamp : Z;
  tr_hitPosition : Position;
  tr_hitColor : option Color;
  tr_newColor : option Color;
  tr_trajectory : list Position;
  tr_hitBoard : bool
}.

Record t : Type := mkRoom {
  roomCode : string;
  hostId : string;
  players : JSMap.t Player;
  gameState : GameState;
  targetColor : Color;
  playerColors : JSMap.t Color;
  currentTurn : JS.Index;
  turnOrder : list string;
  throws : list ThrowRecord;
  gameSettings : GameSettings
}.

(** Field assignments [room.f = v] and [player.f = v]. *)
Definition set_hostId (v : string) (o : t) : t :=
  mkRoom (roomCode o) v (players o) (gameState o) (targetColor o)
    (playerColors o) (currentTurn o) (turnOrder o) (throws o) (gameSettings o).
Definition set_players (v : JSMap.t Player) (o : t) : t :=
  mkRoom (roomCode o) (hostId o) v (gameState o) (targetColor o)
    (playerColors o) (currentTurn o) (turnOrder o) (throws o) (gameSettings o).
Definition set_gameState (v : GameState) (o : t) : t :=
  mkRoom (roomCode o) (hostId o) (players o) v (targetColor o)
    (playerColors o) (currentTurn o) (turnOrder o) (throws o) (gameSettings o).
Definition set_targetColor (v : Color) (o : t) : t :=
  mkRoom (roomCode o) (hostId o) (players o) (gameState o) v
    (playerColors o) (currentTurn o) (turnOrder o) (throws o) (gameSettings o).
Definition set_playerColors (v : JSMap.t Color) (o : t) : t :=
  mkRoom (roomCode o) (hostId o) (players o) (gameState o) (targetColor o)
    v (currentTurn o) (turnOrder o) (throws o) (gameSettings o).
Definition set_currentTurn (v : JS.Index) (o : t) : t :=
  mkRoom (roomCode o) (hostId o) (players o) (gameState o) (targetColor o)
    (playerColors o) v (turnOrder o) (throws o) (gameSettings o).
Definition set_turnOrder (v : list string) (o : t) : t :=
  mkRoom (roomCode o) (hostId o) (players o) (gameState o) (targetColor o)
    (playerColors o) (currentTurn o) v (throws o) (gameSettings o).
Definition set_throws (v : list ThrowRecord) (o : t) : t :=
  mkRoom (roomCode o) (hostId o) (players o) (gameState o) (targetColor o)
    (playerColors o) (currentTurn o) (turnOrder o) v (gameSettings o).

Definition set_isHost (v : bool) (p : Player) : Player :=
  mkPlayer (id p) (name p) v (isReady p) (throwCount p) (currentColor p)
    (score p).
Definition set_throwCount (v : nat) (p : Player) : Player :=
  mkPlayer (id p) (name p) (isHost p) (isReady p) v (currentColor p) (score p).
Definition set_currentColor (v : Color) (p : Player) : Player :=
  mkPlayer (id p) (name p) (isHost p) (isReady p) (throwCount p) v (score p).
Definition set_score (v : nat) (p : Player) : Player :=
  mkPlayer (id p) (name p) (isHost p) (isReady p) (throwCount p)
    (currentColor p) v.

(** The colour [{ r: 128, g: 128, b: 128 }] of [startGame]. *)
Definition neutral : Color := mkColor 128 128 128.

Definition addPlayer (playerId playerName : string) (room : t) : t * Player :=
  let player :=
    {| id := playerId;
       name := playerName;
       isHost := String.eqb playerId (hostId room);
       isReady := false;
       throwCount := 0;
       currentColor := mkColor 0 0 0;
       score := 0 |} in
  let room := set_players (JSMap.set playerId player (players room)) room in
  let room :=
    set_playerColors
      (JSMap.set playerId (currentColor player) (playerColors room)) room in
  (room, player).

(** [new Room(roomCode, hostId, hostName)]; [u1 u2 u3] are the draws of
    [generateRandomColor()]. *)
Definition new (roomCode hostId hostName : string) (u1 u2 u3 : R) : t :=
  let room :=
    {| roomCode := roomCode;
       hostId := hostId;
       players := JSMap.empty;
       gameState := waiting;
       targetColor := generateRandomColor u1 u2 u3;
       playerColors := JSMap.empty;
       currentTurn := JS.Num 0;
       turnOrder := [];
       throws := [];
       gameSettings :=
         {| colorTolerance := 30;
            maxThrows := 10;
            dartSpeed := 50;
            difficulty := "medium" |} |} in
  fst (addPlayer hostId hostName room).

Definition removePlayer (playerId : string) (room : t) : t :=
  let room := set_players (JSMap.delete playerId (players room)) room in
  let room :=
    set_playerColors (JSMap.delete playerId (playerColors room)) room in
  let room :=
    match JSMap.values (players room) with
    | newHost :: _ =>
        if String.eqb playerId (hostId room) then
          set_players (JSMap.update_first (set_isHost true) (players room))
            (set_hostId (id newHost) room)
        else room
    | [] => room
    end in
  let room :=
    set_turnOrder
      (List.filter (fun i => negb (String.eqb i playerId)) (turnOrder room))
      room in
  if JS.ige (currentTurn room) (List.length (turnOrder room))
  then set_currentTurn (JS.Num 0) room
  else room.

(** The body of the [for (const player of this.players.values())] loop. *)
Definition resetPlayer (player : Player) : Player :=
  set_score 0 (set_currentColor neutral (set_throwCount 0 player)).

Definition startGame (targetColor : Color) (room : t) : t :=
  let room := set_gameState playing room in
  let room := set_targetColor targetColor room in
  let room := set_turnOrder (JSMap.keys (players room)) room in
  let room := set_currentTurn (JS.Num 0) room in
  let room := set_throws [] room in
  let room :=
    set_playerColors
      (List.fold_left (fun colors player => JSMap.set (id player) neutral colors)
         (JSMap.values (players room)) (playerColors room))
      room in
  set_players (JSMap.map_values resetPlayer (players room)) room.

Definition hsvToRgb (h s v : R) : Color :=
  let c := v * s in
  let x := c * (1 - Rabs (JS.rem (h / 60) 2 - 1)) in
  let m := v - c in
  let '(r, g, b) :=
    if Rle_dec 0 h then
      if Rlt_dec h 60 then (c, x, 0)
      else if Rlt_dec h 120 then (x, c, 0)
      else if Rlt_dec h 180 then (0, c, x)
      else if Rlt_dec h 240 then (0, x, c)
      else if Rlt_dec h 300 then (x, 0, c)
      else (c, 0, x)
    else (c, 0, x) in
  {| r := JS.round ((r + m) * 255);
     g := JS.round ((g + m) * 255);
     b := JS.round ((b + m) * 255) |}.

Definition calculateHitColor (position : Position) : Color :=
  let x := x position in
  let z := z position in
  let angle := JS.atan2 z x in
  let hue := JS.rem (angle * 180 / PI + 360) 360 in
  let distance := sqrt (x * x + z * z) in
  let saturation := Rmin (distance / 2) 1 in
  let brightness := 1 in
  hsvToRgb hue saturation brightness.

Definition advanceTurn (room : t) : t :=
  set_currentTurn
    (JS.imod (JS.succ (currentTurn room)) (List.length (turnOrder room))) room.

(** [turnOrder[currentTurn]], or [null] for an empty turn order. *)
Definition getCurrentPlayer (room : t) : option string :=
  match turnOrder room, currentTurn room with
  | [], _ => None
  | order, JS.Num n => List.nth_error order n
  | _, JS.NaN => None
  end.

(** Exceptions a [Room] method can raise. *)
Inductive Exception : Type :=
| Error (message : string)
| TypeError.

Inductive Result (A : Type) : Type :=
| Return (a : A)
| Throw (e : Exception).
Arguments Return {A} a.
Arguments Throw {A} e.

(** The object returned by [processDartThrow]. *)
Record ThrowResult : Type := mkThrowResult {
  throwData : ThrowRecord;
  newColor : option Color;
  colorChanged : bool;
  winner : option Player;
  finalColor : option Color
}.

(** Lines 86-90 of [processDartThrow]: the resolved hit colour, [None]
    being [null]. *)
Definition resolveHitColor (data : ThrowData) : option Color :=
  match td_hitColor data with
  | hitColor_undefined => Some (calculateHitColor (td_hitPosition data))
  | hitColor_null => None
  | hitColor_value c => Some c
  end.

(** [processDartThrow(playerId, throwData)]; [uuid] and [now] are the values
    of [uuidv4()] and [Date.now()].  Mixing with an absent colour entry
    dereferences [undefined], a [TypeError]. *)
Definition processDartThrow (uuid : string) (now : Z) (playerId : string)
    (data : ThrowData) (room : t) : Result (t * ThrowResult) :=
  match JSMap.get playerId (players room) with
  | None => Throw (Error "Player not found")
  | Some player =>
      let hitColor := resolveHitColor data in
      let mixed : Result (t * Player * option Color * bool) :=
        match hitColor with
        | Some hit =>
            match JSMap.get playerId (playerColors room) with
            | None => Throw TypeError
            | Some current =>
                let newColor := mixColors current hit (3 / 10) in
                Return
                  (set_playerColors
                     (JSMap.set playerId newColor (playerColors room)) room,
                   set_currentColor newColor player,
                   Some newColor, true)
            end
        | None =>
            Return (room, player, JSMap.get playerId (playerColors room), false)
        end in
      match mixed with
      | Throw e => Throw e
      | Return (room, player, newColor, colorChanged) =>
          let player := set_throwCount (S (throwCount player)) player in
          let room :=
            set_players (JSMap.set playerId player (players room)) room in
          let throwRecord :=
            {| tr_id := uuid;
               tr_playerId := playerId;
               tr_timestamp := now;
               tr_hitPosition := td_hitPosition data;
               tr_hitColor := hitColor;
               tr_newColor := newColor;
               tr_trajectory := td_trajectory data;
               tr_hitBoard :=
                 match hitColor with Some _ => true | None => false end |} in
          let room := set_throws (throws room ++ [throwRecord]) room in
          let won :=
            match colorChanged, hitColor, newColor with
            | true, Some _, Some mixedColor =>
                if Rle_dec (calculateColorDistance mixedColor (targetColor room))
                     (colorTolerance (gameSettings room))
                then true else false
            | _, _, _ => false
            end in
          let room := if won then set_gameState finished room
                      else advanceTurn room in
          Return
            (room,
             {| throwData := throwRecord;
                newColor := if colorChanged then newColor else None;
                colorChanged := colorChanged;
                winner := if won then Some player else None;
                finalColor := if won then newColor else None |})
      end
  end.

(** The snapshot built by [getState()]. *)
Record State : Type := mkState {
  st_roomCode : string;
  st_hostId : string;
  st_players : list Player;
  st_gameState : GameState;
  st_targetColor : Color;
  st_currentTurn : option string;
  st_playerColors : list (string * Color);
  st_gameSettings : GameSettings;
  st_throwCount : nat
}.

Definition getState (room : t) : State :=
  {| st_roomCode := roomCode room;
     st_hostId := hostId room;
     st_players := JSMap.values (players room);
     st_gameState := gameState room;
     st_targetColor := targetColor room;
     st_currentTurn := getCurrentPlayer room;
     st_playerColors := playerColors room;
     st_gameSettings := gameSettings room;
     st_throwCount := List.length (throws room) |}.

End Room.

(** ** server/game/utils.js *)

Module Utils.

Definition chars : string := "ABCDEFGHIJKLMNOPQRSTUVWXYZ0123456789".

(** [chars.charAt(i)]: the empty string when [i] is out of range. *)
Definition charAt (i : nat) (s : string) : string :=
  match String.get i s with
  | Some c => String c EmptyString
  | None => EmptyString
  end.

(** [generateRoomCode()]; [i0 .. i3] are the four successive values of
    [Math.floor(Math.random() * chars.length)]. *)
Definition generateRoomCode (i0 i1 i2 i3 : nat) : string :=
  List.fold_left (fun result i => String.append result (charAt i chars))
    [i0; i1; i2; i3] EmptyString.

End Utils.

(** ** server/game/GameManager.js *)

Module GameManager.
Import ColorUtils.

Record t : Type := mkManager {
  rooms : JSMap.t Room.t;
  playerRooms : JSMap.t string
}.

(** [new GameManager()]. *)
Definition new : t := {| rooms := JSMap.empty; playerRooms := JSMap.empty |}.

(** The random draws one room creation consumes: four indices for the code,
    three numbers for the target colour. *)
Record Random : Type := mkRandom {
  code0 : nat; code1 : nat; code2 : nat; code3 : nat;
  hue : R; saturation : R; lightness : R
}.

Definition drawCode (rnd : Random) : string :=
  Utils.generateRoomCode (code0 rnd) (code1 rnd) (code2 rnd) (code3 rnd).

(** A [{ success, ... }] result: the payload, or the failure message. *)
Inductive Response (A : Type) : Type :=
| Success (payload : A)
| Failure (message : string).
Arguments Success {A} payload.
Arguments Failure {A} message.

(** [{ success: true, roomCode, player, room }]. *)
Record Joined : Type := mkJoined {
  j_roomCode : string;
  j_player : option Room.Player;
  j_room : Room.State
}.

(** [{ success: true, gameState, targetColor }]. *)
Record Started : Type := mkStarted {
  s_gameState : Room.State;
  s_targetColor : Color
}.

(** The success payload of [processDartThrow]. *)
Record Thrown : Type := mkThrown {
  t_throwData : Room.ThrowRecord;
  t_newColor : option Color;
  t_colorChanged : bool;
  t_gameState : Room.State;
  t_winner : option Room.Player;
  t_finalColor : option Color
}.

(** JavaScript truthiness of a room code: [null], [undefined] and the empty
    string are falsy. *)
Definition truthy (roomCode : option string) : option string :=
  match roomCode with
  | Some EmptyString => None
  | other => other
  end.

Definition createRoom (rnd : Random) (playerId playerName : string) (gm : t)
    : t * Joined :=
  let roomCode := drawCode rnd in
  let room :=
    Room.new roomCode playerId playerName
      (hue rnd) (saturation rnd) (lightness rnd) in
  let gm :=
    {| rooms := JSMap.set roomCode room (rooms gm);
       playerRooms := JSMap.set playerId roomCode (playerRooms gm) |} in
  (gm,
   {| j_roomCode := roomCode;
      j_player := JSMap.get playerId (Room.players room);
      j_room := Room.getState room |}).

Definition findAvailableRoom (gm : t) : option string :=
  match
    List.find
      (fun entry =>
         Nat.ltb (JSMap.size (Room.players (snd entry))) 4 &&
         match Room.gameState (snd entry) with
         | Room.waiting => true
         | _ => false
         end)
      (rooms gm)
  with
  | Some entry => Some (fst entry)
  | None => None
  end.

(** The part of [joinRoom] after the room code is settled. *)
Definition joinExisting (playerId playerName roomCode : string) (gm : t)
    : t * Response Joined :=
  match JSMap.get roomCode (rooms gm) with
  | None => (gm, Failure "Room not found")
  | Some room =>
      if Nat.leb 4 (JSMap.size (Room.players room)) then
        (gm, Failure "Room is full")
      else
        match Room.gameState room with
        | Room.waiting =>
            let (room, player) := Room.addPlayer playerId playerName room in
            let gm :=
              {| rooms := JSMap.set roomCode room (rooms gm);
                 playerRooms :=
                   JSMap.set playerId roomCode (playerRooms gm) |} in
            (gm,
             Success
               {| j_roomCode := roomCode;
                  j_player := Some player;
                  j_room := Room.getState room |})
        | _ => (gm, Failure "Game is already in progress")
        end
  end.

(** [joinRoom(playerId, playerName, roomCode = null)]; [rnd] is consumed only
    when the call falls back to [createRoom]. *)
Definition joinRoom (rnd : Random) (playerId playerName : string)
    (roomCode : option string) (gm : t) : t * Response Joined :=
  match truthy roomCode with
  | Some code => joinExisting playerId playerName code gm
  | None =>
      match truthy (findAvailableRoom gm) with
      | Some code => joinExisting playerId playerName code gm
      | None =>
          let (gm, created) := createRoom rnd playerId playerName gm in
          (gm, Success created)
      end
  end.

Definition startGame (roomCode hostId : string) (gm : t)
    : t * Response Started :=
  match JSMap.get roomCode (rooms gm) with
  | None => (gm, Failure "Room not found")
  | Some room =>
      if negb (String.eqb (Room.hostId room) hostId) then
        (gm, Failure "Only the host can start the game")
      else if Nat.ltb (JSMap.size (Room.players room)) 2 then
        (gm, Failure "Need at least 2 players to start")
      else
        let room := Room.startGame (Room.targetColor room) room in
        ({| rooms := JSMap.set roomCode room (rooms gm);
            playerRooms := playerRooms gm |},
         Success
           {| s_gameState := Room.getState room;
              s_targetColor := Room.targetColor room |})
  end.

Definition processDartThrow (uuid : string) (now : Z)
    (roomCode playerId : string) (data : Room.ThrowData) (gm : t)
    : Room.Result (t * Response Thrown) :=
  match JSMap.get roomCode (rooms gm) with
  | None => Room.Return (gm, Failure "Room not found")
  | Some room =>
      match Room.gameState room with
      | Room.playing =>
          match Room.getCurrentPlayer room with
          | Some current =>
              if String.eqb current playerId then
                match Room.processDartThrow uuid now playerId data room with
                | Room.Throw e => Room.Throw e
                | Room.Return (room, result) =>
                    Room.Return
                      ({| rooms := JSMap.set roomCode room (rooms gm);
                          playerRooms := playerRooms gm |},
                       Success
                         {| t_throwData := Room.throwData result;
                            t_newColor := Room.newColor result;
                            t_colorChanged := Room.colorChanged result;
                            t_gameState := Room.getState room;
                            t_winner := Room.winner result;
                            t_finalColor := Room.finalColor result |})
                end
              else Room.Return (gm, Failure "Not your turn")
          | None => Room.Return (gm, Failure "Not your turn")
          end
      | _ => Room.Return (gm, Failure "Game is not in progress")
      end
  end.

(** [removePlayer(playerId)]; [None] is the empty object [{}]. *)
Definition removePlayer (playerId : string) (gm : t)
    : t * option (string * Room.State) :=
  match truthy (JSMap.get playerId (playerRooms gm)) with
  | None => (gm, None)
  | Some roomCode =>
      match JSMap.get roomCode (rooms gm) with
      | None => (gm, None)
      | Some room =>
          let room := Room.removePlayer playerId room in
          let registry := JSMap.set roomCode room (rooms gm) in
          let index := JSMap.delete playerId (playerRooms gm) in
          let registry :=
            if Nat.eqb (JSMap.size (Room.players room)) 0
            then JSMap.delete roomCode registry
            else registry in
          ({| rooms := registry; playerRooms := index |},
           Some (roomCode, Room.getState room))
      end
  end.

Definition getRoomState (roomCode : string) (gm : t) : option Room.State :=
  match JSMap.get roomCode (rooms gm) with
  | Some room => Some (Room.getState room)
  | None => None
  end.

(** The coordinator operations a connection can trigger that create, fill
    and empty rooms. *)
Inductive Op : Type :=
| CreateRoom (rnd : Random) (playerId playerName : string)
| JoinRoom (rnd : Random) (playerId playerName : string)
    (roomCode : option string)
| RemovePlayer (playerId : string).

Definition step (gm : t) (op : Op) : t :=
  match op with
  | CreateRoom rnd playerId playerName =>
      fst (createRoom rnd playerId playerName gm)
  | JoinRoom rnd playerId playerName roomCode =>
      fst (joinRoom rnd playerId playerName roomCode gm)
  | RemovePlayer playerId => fst (removePlayer playerId gm)
  end.

(** The coordinator state after a sequence of operations. *)
Definition run (ops : list Op) (gm : t) : t := List.fold_left step ops gm.

End GameManager.

(** ** The client resolvers *)

(** public/js/gameRenderer.js: the radius test followed by a ray cast into
    the Three.js scene.  The scene is the argument [intersects], the list
    [raycaster.intersectObjects(intersectable)] for a given position. *)
Module GameRenderer.
Import ColorUtils.

(** What the resolver reads of an intersected mesh: [userData.color],
    [userData.isSector] and [material.color]. *)
Record Mesh : Type := mkMesh {
  userData_color : option Color;
  userData_isSector : bool;
  material_color : R * R * R
}.

Definition dartboardRadius : R := 3.

Definition distanceFromCenter (position : Room.Position) : R :=
  sqrt (Room.x position * Room.x position + Room.y position * Room.y position).

Definition getColorAtPosition (intersects : Room.Position -> list Mesh)
    (position : Room.Position) : option Color :=
  if Rlt_dec dartboardRadius (distanceFromCenter position) then None
  else
    match intersects position with
    | hitMesh :: _ =>
        match userData_color hitMesh with
        | Some color => Some color
        | None =>
            if userData_isSector hitMesh then
              let '(cr, cg, cb) := material_color hitMesh in
              Some {| r := JS.round (cr * 255);
                      g := JS.round (cg * 255);
                      b := JS.round (cb * 255) |}
            else None
        end
    | [] => None
    end.

End GameRenderer.

(** src/unnamed/part_000: the renderer that samples the wheel analytically.
    Its [hslToRgb] is the client copy (public/js/colorUtils.js), the same
    text as the server's. *)
Module WheelRenderer.
Import ColorUtils.

Definition wheelRadius : R := 3.

Definition getColorAtPosition (position : Room.Position) : option Color :=
  let x := Room.x position in
  let y := Room.y position in
  let distance := sqrt (x * x + y * y) in
  if Rlt_dec wheelRadius distance then None
  else if Rlt_dec distance (wheelRadius * (5 / 100)) then
    Some {| r := 255; g := 255; b := 255 |}
  else
    let angle := JS.atan2 y x in
    let hue := JS.rem (angle * 180 / PI + 360) 360 in
    let saturation := Rmin (distance / wheelRadius) 1 * 100 in
    let lightness := 50 in
    Some (hslToRgb hue saturation lightness).

End WheelRenderer.

(** ** Vocabulary of the specification *)

Module Spec.
Import ColorUtils.



(** [hslToRgb] followed by [rgbToHsl]. *)
Definition roundTrip (h0 s0 l0 : R) : HSL :=
  let c := hslToRgb h0 s0 l0 in
  rgbToHsl (IZR (r c)) (IZR (g c)) (IZR (b c)).

(** Every component of [out] is within 1 of the original. *)
Definition within_one (out : HSL) (h0 s0 l0 : R) : Prop :=
  Rabs (IZR (h out) - h0) <= 1 /\
  Rabs (IZR (s out) - s0) <= 1 /\
  Rabs (IZR (l out) - l0) <= 1.

(** Room [code] of the registry holds player [playerId]. *)
Definition holds (gm : GameManager.t) (code playerId : string) : Prop :=
  exists room,
    JSMap.get code (GameManager.rooms gm) = Some room /\
    JSMap.has playerId (Room.players room) = true.

(** No player id is in the player map of two different rooms. *)
Definition single_room (gm : GameManager.t) : Prop :=
  forall playerId code1 code2,
    holds gm code1 playerId -> holds gm code2 playerId -> code1 = code2.

(** The reverse index [playerRooms] is exactly room membership. *)
Definition index_agrees (gm : GameManager.t) : Prop :=
  forall playerId code,
    JSMap.get playerId (GameManager.playerRooms gm) = Some code <->
    holds gm code playerId.

(** The codes stored in the rooms of the registry, in registry order. *)
Definition activeCodes (gm : GameManager.t) : list string :=
  List.map Room.roomCode (JSMap.values (GameManager.rooms gm)).

(** Every room is registered under the code it stores. *)
Definition keyed_by_code (gm : GameManager.t) : Prop :=
  List.Forall (fun entry => Room.roomCode (snd entry) = fst entry)
    (GameManager.rooms gm).

(** No room of the registry has more than four players. *)
Definition capacity_ok (gm : GameManager.t) : Prop :=
  forall code room,
    JSMap.get code (GameManager.rooms gm) = Some room ->
    (JSMap.size (Room.players room) <= 4)%nat.

(** The player is in no room according to the index, and the code about to
    be drawn is not in the registry. *)
Definition fresh_player (gm : GameManager.t) (playerId : string) : Prop :=
  JSMap.get playerId (GameManager.playerRooms gm) = None.
Definition fresh_code (gm : GameManager.t) (rnd : GameManager.Random) : Prop :=
  JSMap.get (GameManager.drawCode rnd) (GameManager.rooms gm) = None.

(** An operation issued by a connection that is in no room, and that draws
    an unused code whenever it creates a room. *)
Definition allowed (gm : GameManager.t) (op : GameManager.Op) : Prop :=
  match op with
  | GameManager.CreateRoom rnd playerId _ =>
      fresh_player gm playerId /\ fresh_code gm rnd
  | GameManager.JoinRoom rnd playerId _ roomCode =>
      fresh_player gm playerId /\
      (GameManager.truthy roomCode = None ->
       GameManager.truthy (GameManager.findAvailableRoom gm) = None ->
       fresh_code gm rnd)
  | GameManager.RemovePlayer _ => True
  end.

Fixpoint admissible (gm : GameManager.t) (ops : list GameManager.Op) : Prop :=
  match ops with
  | [] => True
  | op :: rest => allowed gm op /\ admissible (GameManager.step gm op) rest
  end.

End Spec.

(** ** server/game/colorUtils.js: hexadecimal notation *)

Module ColorHex.
Import ColorUtils.

(** [n.toString(16)] on an integer: lower-case digits, a leading minus sign
    for a negative number. *)
Definition toString16 (n : Z) : string :=
  match n with
  | Z0 => "0"
  | Zpos p => HexString.Raw.of_pos p EmptyString
  | Zneg p => String "-" (HexString.Raw.of_pos p EmptyString)
  end.

(** The local arrow function [componentToHex] of [rgbToHex]. *)
Definition componentToHex (c : Z) : string :=
  let hex := toString16 c in
  if Nat.eqb (String.length hex) 1 then String "0" hex else hex.

Definition rgbToHex (color : Color) : string :=
  String "#"
    (String.append (componentToHex (r color))
       (String.append (componentToHex (g color)) (componentToHex (b color)))).

(** [parseInt(s, 16)] on a capture of the pattern, two characters of
    [[a-f\d]] matched case-insensitively; [None] when a character is outside
    the class, that is, when the pattern does not match. *)
Definition parsePair (hi lo : ascii) : option Z :=
  match HexString.ascii_to_digit hi, HexString.ascii_to_digit lo with
  | Some dh, Some dl => Some (16 * Z.of_N dh + Z.of_N dl)%Z
  | _, _ => None
  end.

(** [hexToRgb(hex)]: the pattern [^#?([a-f\d]{2})([a-f\d]{2})([a-f\d]{2})$]
    with the [i] flag accepts exactly six hexadecimal digits after an
    optional [#]; [None] is [null]. *)
Definition hexToRgb (hex : string) : option Color :=
  let digits :=
    match hex with
    | String "#"%char rest => rest
    | other => other
    end in
  match digits with
  | String r1 (String r2 (String g1 (String g2
      (String b1 (String b2 EmptyString))))) =>
      match parsePair r1 r2, parsePair g1 g2, parsePair b1 b2 with
      | Some cr, Some cg, Some cb => Some {| r := cr; g := cg; b := cb |}
      | _, _, _ => None
      end
  | _ => None
  end.

End ColorHex.

(** ** server/game/utils.js: validation and numeric helpers *)

Module Helpers.

(** A character of the class [[A-Z0-9]]. *)
Definition isUpperAlnum (c : ascii) : bool :=
  let n := nat_of_ascii c in
  (Nat.leb 65 n && Nat.leb n 90) || (Nat.leb 48 n && Nat.leb n 57).

(** [isValidRoomCode(roomCode)] on a string: length 4 and a match of
    [^[A-Z0-9]+$], that is, only characters of the class and at least one
    of them. *)
Definition isValidRoomCode (roomCode : string) : bool :=
  Nat.eqb (String.length roomCode) 4 &&
  List.forallb isUpperAlnum (list_ascii_of_string roomCode) &&
  negb (Nat.eqb (String.length roomCode) 0).

(** [clamp(value, min, max)]. *)
Definition clamp (value min max : R) : R := Rmin (Rmax value min) max.


End Helpers.

(** ** server/game/utils.js: throw physics *)

Module Physics.





End Physics.

(** ** public/js/colorUtils.js: client-only colour helpers *)

Module ClientColorUtils.
Import ColorUtils.

(** The client [componentToHex]: the component is clamped to [0,255] and
    rounded before it is printed. *)
Definition componentToHex (c : Z) : string :=
  let hex :=
    ColorHex.toString16 (JS.round (Helpers.clamp (IZR c) 0 255)) in
  if Nat.eqb (String.length hex) 1 then String "0" hex else hex.

(** [rgbToHex(color)] called with a colour object. *)
Definition rgbToHex (color : Color) : string :=
  String "#"
    (String.append (componentToHex (r color))
       (String.append (componentToHex (g color)) (componentToHex (b color)))).

Definition getColorBrightness (color : Color) : Z :=
  JS.round
    ((IZR (r color) * 299 + IZR (g color) * 587 + IZR (b color) * 114) / 1000).

(** ['black'] or ['white']. *)
Definition getContrastColor (color : Color) : string :=
  if Z.ltb 128 (getColorBrightness color) then "black" else "white".

Definition adjustColorBrightness (color : Color) (amount : R) : Color :=
  let factor := amount / 100 in
  if Rlt_dec 0 amount then
    {| r := JS.round (IZR (r color) + (255 - IZR (r color)) * factor);
       g := JS.round (IZR (g color) + (255 - IZR (g color)) * factor);
       b := JS.round (IZR (b color) + (255 - IZR (b color)) * factor) |}
  else
    {| r := JS.round (IZR (r color) * (1 + factor));
       g := JS.round (IZR (g color) * (1 + factor));
       b := JS.round (IZR (b color) * (1 + factor)) |}.

(** [wheelPositionToColor(x, z, radius)], for a non-zero radius. *)
Definition wheelPositionToColor (x z radius : R) : Color :=
  let angle := JS.atan2 z x in
  let hue := JS.rem (angle * 180 / PI + 360) 360 in
  let distance := sqrt (x * x + z * z) in
  let saturation := Rmin (distance / radius) 1 * 100 in
  let lightness := 50 in
  hslToRgb hue saturation lightness.

(** [generateColorGradient(color1, color2, steps)] for a whole number of
    steps other than 1, where [i / (steps - 1)] divides by zero. *)
Definition generateColorGradient (color1 color2 : Color) (steps : nat)
    : list Color :=
  List.map (fun i => mixColors color1 color2 (INR i / (INR steps - 1)))
    (List.seq 0 steps).

End ClientColorUtils.

(** ** Room.updateSettings and GameManager.updateGameSettings *)

Module Settings.

(** The [settings] object of an [updateGameSettings] message: for each key
    of [gameSettings], a value of the key's type or nothing.  Other keys are
    stored by the spread but never read. *)
Record Patch : Type := mkPatch {
  p_colorTolerance : option R;
  p_maxThrows : option nat;
  p_dartSpeed : option R;
  p_difficulty : option string
}.

Definition set_gameSettings (v : Room.GameSettings) (o : Room.t) : Room.t :=
  Room.mkRoom (Room.roomCode o) (Room.hostId o) (Room.players o)
    (Room.gameState o) (Room.targetColor o) (Room.playerColors o)
    (Room.currentTurn o) (Room.turnOrder o) (Room.throws o) v.

Definition override {A : Type} (old : A) (new : option A) : A :=
  match new with
  | Some v => v
  | None => old
  end.

(** [{ ...this.gameSettings, ...settings }]. *)
Definition spread (old : Room.GameSettings) (settings : Patch)
    : Room.GameSettings :=
  {| Room.colorTolerance :=
       override (Room.colorTolerance old) (p_colorTolerance settings);
     Room.maxThrows := override (Room.maxThrows old) (p_maxThrows settings);
     Room.dartSpeed := override (Room.dartSpeed old) (p_dartSpeed settings);
     Room.difficulty :=
       override (Room.difficulty old) (p_difficulty settings) |}.

(** [Room.updateSettings(settings)]. *)
Definition updateSettings (settings : Patch) (room : Room.t) : Room.t :=
  set_gameSettings (spread (Room.gameSettings room) settings) room.

(** [GameManager.updateGameSettings(roomCode, hostId, settings)]; the
    success payload is the merged [gameSettings]. *)
Definition updateGameSettings (roomCode hostId : string) (settings : Patch)
    (gm : GameManager.t)
    : GameManager.t * GameManager.Response Room.GameSettings :=
  match JSMap.get roomCode (GameManager.rooms gm) with
  | None => (gm, GameManager.Failure "Room not found")
  | Some room =>
      if negb (String.eqb (Room.hostId room) hostId) then
        (gm, GameManager.Failure "Only the host can update settings")
      else
        let room := updateSettings settings room in
        ({| GameManager.rooms :=
              JSMap.set roomCode room (GameManager.rooms gm);
            GameManager.playerRooms := GameManager.playerRooms gm |},
         GameManager.Success (Room.gameSettings room))
  end.

End Settings.

(** ** The coordinator as driven by server/server.js *)

Module Server.

(** One client event reaching the coordinator: the three lifecycle
    operations, [startGame], [dartThrow] and [updateGameSettings]. *)
Inductive Event : Type :=
| Lifecycle (op : GameManager.Op)
| StartGame (roomCode requester : string)
| DartThrow (uuid : string) (now : Z) (roomCode playerId : string)
    (data : Room.ThrowData)
| UpdateGameSettings (roomCode requester : string) (settings : Settings.Patch).

(** The coordinator state after the handler of an event has run.  Both
    exceptions of [Room.processDartThrow] are raised before the room is
    touched and are caught by the handler, so they leave the state as it
    was. *)
Definition handle (gm : GameManager.t) (event : Event) : GameManager.t :=
  match event with
  | Lifecycle op => GameManager.step gm op
  | StartGame roomCode requester =>
      fst (GameManager.startGame roomCode requester gm)
  | DartThrow uuid now roomCode playerId data =>
      match GameManager.processDartThrow uuid now roomCode playerId data gm with
      | Room.Return (gm', _) => gm'
      | Room.Throw _ => gm
      end
  | UpdateGameSettings roomCode requester settings =>
      fst (Settings.updateGameSettings roomCode requester settings gm)
  end.

Definition serve (events : list Event) (gm : GameManager.t) : GameManager.t :=
  List.fold_left handle events gm.

End Server.

(** ** Invariants of rooms and of the registry *)

Module Inv.

(** The current turn is a number that indexes the turn order, or is 0 when
    the turn order is empty. *)
Definition turn_ok (room : Room.t) : Prop :=
  exists n,
    Room.currentTurn room = JS.Num n /\
    ((n < List.length (Room.turnOrder room))%nat \/
     (Room.turnOrder room = [] /\ n = 0%nat)).

(** The turn order is empty while waiting and is the list of player ids, in
    join order, once the game has started. *)
Definition order_ok (room : Room.t) : Prop :=
  match Room.gameState room with
  | Room.waiting => Room.turnOrder room = []
  | _ => Room.turnOrder room = JSMap.keys (Room.players room)
  end.

(** A coherent room: player ids are unique and equal to their keys, the
    colour map mirrors the players' colours, exactly the stored host carries
    the host flag and is a member, and the turn data are in range. *)
Record room_ok (room : Room.t) : Prop := mkRoomOk {
  ok_unique : NoDup (JSMap.keys (Room.players room));
  ok_id : forall k p,
      JSMap.get k (Room.players room) = Some p -> Room.id p = k;
  ok_color : forall k p,
      JSMap.get k (Room.players room) = Some p ->
      JSMap.get k (Room.playerColors room) = Some (Room.currentColor p);
  ok_color_only : forall k,
      JSMap.has k (Room.playerColors room) = true ->
      JSMap.has k (Room.players room) = true;
  ok_host_flag : forall k p,
      JSMap.get k (Room.players room) = Some p ->
      (Room.isHost p = true <-> k = Room.hostId room);
  ok_host_member :
      Room.players room <> [] ->
      JSMap.has (Room.hostId room) (Room.players room) = true;
  ok_order : order_ok room;
  ok_turn : turn_ok room
}.

(** The stored host is the earliest-joined player still in the room. *)
Definition host_first (room : Room.t) : Prop :=
  forall k rest,
    JSMap.keys (Room.players room) = k :: rest -> Room.hostId room = k.

(** Every registered room is coherent, is hosted by its earliest-joined
    player and has between 1 and 4 players. *)
Definition registry_ok (gm : GameManager.t) : Prop :=
  forall code room,
    JSMap.get code (GameManager.rooms gm) = Some room ->
    room_ok room /\
    host_first room /\
    (1 <= JSMap.size (Room.players room) <= 4)%nat.

End Inv.

(** * Properties *)

(** ** Rounding and remainders *)

Module JSFacts.

Lemma round_bounds (x : R) :
  x - 1 / 2 < IZR (JS.round x) <= x + 1 / 2.
Proof.
  unfold JS.round. pose proof (Zfloor_bound (x + 1 / 2)). lra.
Qed.

Lemma round_unique (x : R) (n : Z) :
  x - 1 / 2 < IZR n <= x + 1 / 2 -> JS.round x = n.
Proof.
  intros H. unfold JS.round. apply Zfloor_eq. lra.
Qed.

Lemma round_IZR (n : Z) : JS.round (IZR n) = n.
Proof. apply round_unique. lra. Qed.

Lemma round_mono (x y : R) : x <= y -> (JS.round x <= JS.round y)%Z.
Proof. intros H. unfold JS.round. apply Zfloor_le. lra. Qed.

Lemma round_range (lo hi : Z) (x : R) :
  IZR lo <= x <= IZR hi -> (lo <= JS.round x <= hi)%Z.
Proof.
  intros [Hlo Hhi]. split.
  - rewrite <- (round_IZR lo). now apply round_mono.
  - rewrite <- (round_IZR hi). now apply round_mono.
Qed.

Lemma round_unit_255 (x : R) :
  0 <= x <= 1 -> ColorUtils.channel_ok (JS.round (x * 255)).
Proof.
  intros H. apply round_range. lra.
Qed.

Lemma trunc_nonneg (x : R) : 0 <= x -> JS.trunc x = Zfloor x.
Proof.
  intros H. unfold JS.trunc. destruct (Rle_dec 0 x); [reflexivity | lra].
Qed.

Lemma rem_range (x y : R) : 0 <= x -> 0 < y -> 0 <= JS.rem x y < y.
Proof.
  intros Hx Hy. unfold JS.rem.
  assert (Hq : 0 <= x / y).
  { unfold Rdiv. apply Rmult_le_pos; [assumption |].
    left. now apply Rinv_0_lt_compat. }
  rewrite (trunc_nonneg _ Hq).
  pose proof (Zfloor_bound (x / y)) as [Hlo Hhi].
  replace x with (y * (x / y)) at 1 3 by (field; lra).
  split; nra.
Qed.

End JSFacts.

(** ** Colour model *)

Module ColorFacts.
Import ColorUtils JSFacts.


(** One hit of pure red on the neutral start colour, with the game's weight:
    128*0.7 + 255*0.3 = 166.1 and 128*0.7 + 0*0.3 = 89.6. *)
Example mixColors_neutral_red :
  mixColors (mkColor 128 128 128) (mkColor 255 0 0) (3 / 10)
  = mkColor 166 90 90.
Proof.
  unfold mixColors; simpl. f_equal; apply round_unique; lra.
Qed.

(** Black and white are at distance [sqrt (3 * 255^2)], about 441.67. *)
Example distance_black_white :
  calculateColorDistance (mkColor 0 0 0) (mkColor 255 255 255)
  = 255 * sqrt 3.
Proof.
  unfold calculateColorDistance; simpl.
  replace ((0 - 255) * (0 - 255) + (0 - 255) * (0 - 255)
           + (0 - 255) * (0 - 255)) with (255 * 255 * 3) by lra.
  rewrite sqrt_mult by lra. rewrite sqrt_square by lra. reflexivity.
Qed.



End ColorFacts.

(** ** Hit-colour resolvers *)

Module ResolverFacts.
Import ColorUtils JSFacts.

Lemma atan_nonpos (u : R) : u <= 0 -> atan u <= 0.
Proof.
  intros [Hlt | Heq].
  - left. rewrite <- atan_0. now apply atan_increasing.
  - subst u. rewrite atan_0. lra.
Qed.

Lemma atan_pos (u : R) : 0 < u -> 0 < atan u.
Proof. intros H. rewrite <- atan_0. now apply atan_increasing. Qed.

(** [Math.atan2] ranges over (-PI, PI]. *)
Lemma atan2_range (y x : R) : - PI < JS.atan2 y x <= PI.
Proof.
  pose proof PI_RGT_0 as Hpi.
  pose proof (atan_bound (y / x)) as Hb.
  unfold JS.atan2.
  destruct (Rlt_dec 0 x) as [Hx | Hx]; [lra |].
  destruct (Rlt_dec x 0) as [Hx' | Hx'].
  - assert (Hinv : / x < 0) by now apply Rinv_lt_0_compat.
    destruct (Rle_dec 0 y) as [Hy | Hy].
    + assert (atan (y / x) <= 0) by (apply atan_nonpos; unfold Rdiv; nra).
      lra.
    + assert (0 < atan (y / x)) by (apply atan_pos; unfold Rdiv; nra).
      lra.
  - destruct (Rlt_dec 0 y); [lra |].
    destruct (Rlt_dec y 0); lra.
Qed.

(** The hue both resolvers derive from an angle lies in [0,360). *)
Lemma hue_range (y x : R) :
  0 <= JS.rem (JS.atan2 y x * 180 / PI + 360) 360 < 360.
Proof.
  pose proof PI_RGT_0 as Hpi.
  pose proof (atan2_range y x) as [Hlo Hhi].
  apply rem_range; [| lra].
  assert (- 180 <= JS.atan2 y x * 180 / PI); [| lra].
  unfold Rdiv. apply Rmult_le_reg_r with PI; [assumption |].
  rewrite Rmult_assoc, Rinv_l by lra. lra.
Qed.

Lemma hsv_chroma_range (h c : R) :
  0 <= h -> 0 <= c ->
  0 <= c * (1 - Rabs (JS.rem (h / 60) 2 - 1)) <= c.
Proof.
  intros Hh Hc.
  assert (Hq : 0 <= h / 60) by lra.
  pose proof (rem_range (h / 60) 2 Hq ltac:(lra)) as [Hlo Hhi].
  pose proof (Rabs_pos (JS.rem (h / 60) 2 - 1)) as Habs0.
  assert (Habs1 : Rabs (JS.rem (h / 60) 2 - 1) <= 1) by (apply Rabs_le; lra).
  split; nra.
Qed.

Lemma hsvToRgb_range (h s v : R) :
  0 <= h < 360 -> 0 <= s <= 1 -> 0 <= v <= 1 ->
  valid_color (Room.hsvToRgb h s v).
Proof.
  intros [Hh0 Hh1] Hs Hv.
  assert (Hc : 0 <= v * s <= v) by nra.
  pose proof (hsv_chroma_range h (v * s) Hh0 (proj1 Hc)) as Hx.
  unfold Room.hsvToRgb, valid_color.
  destruct (Rle_dec 0 h); [| lra].
  repeat match goal with
         | |- context [Rlt_dec ?a ?b] => destruct (Rlt_dec a b)
         end;
    simpl; repeat split; apply round_unit_255; lra.
Qed.

Lemma calculateHitColor_range (position : Room.Position) :
  valid_color (Room.calculateHitColor position).
Proof.
  unfold Room.calculateHitColor. apply hsvToRgb_range.
  - apply hue_range.
  - pose proof (sqrt_pos (Room.x position * Room.x position +
                          Room.z position * Room.z position)).
    unfold Rmin. destruct (Rle_dec _ _); lra.
  - lra.
Qed.

(** C10. For every hue in [0,360) and saturation and value in [0,1],
    [hsvToRgb] returns three integer channels in [0,255]; consequently
    [calculateHitColor], which has no failing path, returns such a colour
    for every position. *)
Theorem hsvToRgb_valid :
  (forall h s v : R,
      0 <= h < 360 -> 0 <= s <= 1 -> 0 <= v <= 1 ->
      valid_color (Room.hsvToRgb h s v)) /\
  (forall position : Room.Position,
      valid_color (Room.calculateHitColor position)).
Proof.
  split; [exact hsvToRgb_range | exact calculateHitColor_range].
Qed.

(** The hypotheses of [hsvToRgb_valid] at hue 200, saturation 1/2 and full
    value. *)
Lemma hsvToRgb_valid_witness : valid_color (Room.hsvToRgb 200 (1 / 2) 1).
Proof.
  apply (proj1 hsvToRgb_valid); lra.
Defined.

End ResolverFacts.

(** ** HSL conversion *)

Module HslFacts.
Import ColorUtils JSFacts.

(** Decide the comparisons of a goal, innermost first. *)
Ltac case_Rlt :=
  cbv zeta;
  repeat match goal with
         | |- context [Rlt_dec ?a ?b] =>
             lazymatch a with
             | context [Rlt_dec _ _] => fail
             | _ => destruct (Rlt_dec a b)
             end
         end.

Lemma hue2rgb_between (p q t : R) :
  p <= q -> -1 <= t -> p <= hue2rgb p q t <= q.
Proof.
  intros Hpq Ht. unfold hue2rgb. case_Rlt; split; nra.
Qed.

Lemma hue2rgb_top (p q t : R) : 1 / 6 <= t < 1 / 2 -> hue2rgb p q t = q.
Proof. intros Ht. unfold hue2rgb. case_Rlt; lra. Qed.

Lemma hue2rgb_top_wrapped (p q t : R) :
  7 / 6 <= t < 3 / 2 -> hue2rgb p q t = q.
Proof. intros Ht. unfold hue2rgb. case_Rlt; lra. Qed.

Lemma hue2rgb_bottom (p q t : R) : 2 / 3 <= t <= 1 -> hue2rgb p q t = p.
Proof. intros Ht. unfold hue2rgb. case_Rlt; lra. Qed.

Lemma hue2rgb_bottom_wrapped (p q t : R) :
  - (1 / 3) <= t < 0 -> hue2rgb p q t = p.
Proof. intros Ht. unfold hue2rgb. case_Rlt; lra. Qed.

(** The chroma bounds [p <= q] of [hslToRgb], with [p + q = 2 l]. *)
Lemma hsl_pq (s l : R) :
  0 <= s <= 1 -> 0 <= l <= 1 ->
  let q := if Rlt_dec l (1 / 2) then l * (1 + s) else l + s - l * s in
  let p := 2 * l - q in
  0 <= p /\ p <= q /\ q <= 1.
Proof.
  intros Hs Hl q p. unfold p, q. destruct (Rlt_dec l (1 / 2)); repeat split; nra.
Qed.

(** The unrounded channels lie between two bounds [p <= q] in [0,1] whose
    mean is the lightness; some channel attains each bound. *)
Lemma hslChannels_spec (h0 s0 l0 : R) :
  0 <= h0 < 360 -> 0 <= s0 <= 100 -> 0 <= l0 <= 100 ->
  exists p q cr cg cb : R,
    hslChannels h0 s0 l0 = (cr, cg, cb) /\
    0 <= p /\ p <= q /\ q <= 1 /\ p + q = 2 * (l0 / 100) /\
    (p <= cr <= q /\ p <= cg <= q /\ p <= cb <= q) /\
    (cr = q \/ cg = q \/ cb = q) /\
    (cr = p \/ cg = p \/ cb = p).
Proof.
  intros Hh Hs Hl. unfold hslChannels.
  destruct (Req_dec_T (s0 / 100) 0) as [Hz | Hz].
  - exists (l0 / 100), (l0 / 100), (l0 / 100), (l0 / 100), (l0 / 100).
    repeat split; try lra; now left.
  - assert (Hs' : 0 <= s0 / 100 <= 1) by lra.
    assert (Hl' : 0 <= l0 / 100 <= 1) by lra.
    pose proof (hsl_pq _ _ Hs' Hl') as Hpq. cbv zeta in Hpq.
    set (q := if Rlt_dec (l0 / 100) (1 / 2)
              then l0 / 100 * (1 + s0 / 100)
              else l0 / 100 + s0 / 100 - l0 / 100 * (s0 / 100)) in *.
    set (p := 2 * (l0 / 100) - q) in *.
    destruct Hpq as (Hp0 & Hpq & Hq1).
    set (hh := h0 / 360).
    assert (Hhh : 0 <= hh < 1) by (unfold hh; lra).
    exists p, q, (hue2rgb p q (hh + 1 / 3)), (hue2rgb p q hh),
      (hue2rgb p q (hh - 1 / 3)).
    split; [reflexivity |].
    split; [assumption |]. split; [assumption |]. split; [assumption |].
    split; [unfold p; lra |].
    split.
    { repeat split; apply hue2rgb_between; lra. }
    destruct (Rlt_dec hh (1 / 6)) as [H1 | H1].
    { split.
      - left. apply hue2rgb_top. lra.
      - right. right. apply hue2rgb_bottom_wrapped. lra. }
    destruct (Rlt_dec hh (1 / 3)) as [H2 | H2].
    { split.
      - right. left. apply hue2rgb_top. lra.
      - right. right. apply hue2rgb_bottom_wrapped. lra. }
    destruct (Rlt_dec hh (1 / 2)) as [H3 | H3].
    { split.
      - right. left. apply hue2rgb_top. lra.
      - left. apply hue2rgb_bottom. lra. }
    destruct (Rlt_dec hh (2 / 3)) as [H4 | H4].
    { split.
      - right. right. apply hue2rgb_top. lra.
      - left. apply hue2rgb_bottom. lra. }
    destruct (Rlt_dec hh (5 / 6)) as [H5 | H5].
    { split.
      - right. right. apply hue2rgb_top. lra.
      - right. left. apply hue2rgb_bottom. lra. }
    split.
    + left. apply hue2rgb_top_wrapped. lra.
    + right. left. apply hue2rgb_bottom. lra.
Qed.

(** Pure red: hue 0 at full saturation and half lightness. *)
Example hslToRgb_red : hslToRgb 0 100 50 = mkColor 255 0 0.
Proof.
  unfold hslToRgb, hslChannels.
  destruct (Req_dec_T (100 / 100) 0) as [H | _]; [lra |].
  destruct (Rlt_dec (50 / 100) (1 / 2)) as [H | _]; [lra |].
  rewrite (hue2rgb_top _ _ (0 / 360 + 1 / 3)) by lra.
  rewrite (hue2rgb_bottom_wrapped _ _ (0 / 360 - 1 / 3)) by lra.
  replace (hue2rgb _ _ (0 / 360))
    with (2 * (50 / 100) - (50 / 100 + 100 / 100 - 50 / 100 * (100 / 100)))
    by (unfold hue2rgb; case_Rlt; lra).
  f_equal; apply round_unique; lra.
Qed.

(** [hslToRgb] produces a well-formed colour on its documented domain. *)
Lemma hslToRgb_valid (h0 s0 l0 : R) :
  0 <= h0 < 360 -> 0 <= s0 <= 100 -> 0 <= l0 <= 100 ->
  valid_color (hslToRgb h0 s0 l0).
Proof.
  intros Hh Hs Hl.
  destruct (hslChannels_spec h0 s0 l0 Hh Hs Hl)
    as (p & q & cr & cg & cb & Heq & Hp & Hpq & Hq & _ & (Hr & Hg & Hb) & _).
  unfold hslToRgb. rewrite Heq. unfold valid_color; simpl.
  repeat split; apply round_unit_255; lra.
Qed.

End HslFacts.

(** ** The radius contract of the resolvers (C1) *)

Module RadiusFacts.
Import ColorUtils JSFacts ResolverFacts HslFacts.









End RadiusFacts.

(** ** HSL round trip (C9) *)

Module RoundTripFacts.
Import ColorUtils JSFacts HslFacts.

Lemma max3_attained (a b c m : R) :
  a <= m -> b <= m -> c <= m -> a = m \/ b = m \/ c = m ->
  JS.max3 a b c = m.
Proof.
  intros Ha Hb Hc H. unfold JS.max3, Rmax.
  repeat destruct (Rle_dec _ _); lra.
Qed.

Lemma min3_attained (a b c m : R) :
  m <= a -> m <= b -> m <= c -> a = m \/ b = m \/ c = m ->
  JS.min3 a b c = m.
Proof.
  intros Ha Hb Hc H. unfold JS.min3, Rmin.
  repeat destruct (Rle_dec _ _); lra.
Qed.

Lemma rgbToHsl_l (r0 g0 b0 : R) :
  l (rgbToHsl r0 g0 b0) =
  JS.round ((JS.max3 (r0 / 255) (g0 / 255) (b0 / 255) +
             JS.min3 (r0 / 255) (g0 / 255) (b0 / 255)) / 2 * 100).
Proof. reflexivity. Qed.

(** A grey input is achromatic: hue and saturation come out as 0. *)
Lemma rgbToHsl_gray (v : R) :
  rgbToHsl v v v = mkHSL 0 0 (JS.round (v / 255 * 100)).
Proof.
  assert (Hmax : JS.max3 (v / 255) (v / 255) (v / 255) = v / 255)
    by (apply max3_attained; auto; lra).
  assert (Hmin : JS.min3 (v / 255) (v / 255) (v / 255) = v / 255)
    by (apply min3_attained; auto; lra).
  unfold rgbToHsl. rewrite Hmax, Hmin.
  destruct (Req_dec_T (v / 255) (v / 255)) as [_ | Hne]; [| contradiction].
  simpl. f_equal.
  - apply round_unique. rewrite Rmult_0_l. lra.
  - apply round_unique. rewrite Rmult_0_l. lra.
  - f_equal. lra.
Qed.

Lemma scaled_round_le (u v : R) :
  u <= v -> IZR (JS.round (u * 255)) / 255 <= IZR (JS.round (v * 255)) / 255.
Proof.
  intros H.
  assert (IZR (JS.round (u * 255)) <= IZR (JS.round (v * 255)))
    by (apply IZR_le, round_mono; lra).
  lra.
Qed.

(** The lightness survives the round trip up to rounding. *)
Lemma roundTrip_lightness (h0 s0 l0 : R) :
  0 <= h0 < 360 -> 0 <= s0 <= 100 -> 0 <= l0 <= 100 ->
  Rabs (IZR (l (Spec.roundTrip h0 s0 l0)) - l0) <= 1.
Proof.
  intros Hh Hs Hl.
  destruct (hslChannels_spec h0 s0 l0 Hh Hs Hl)
    as (p & q & cr & cg & cb & Heq & Hp & Hpq & Hq & Hsum &
        (Hr & Hg & Hb) & Htop & Hbot).
  unfold Spec.roundTrip, hslToRgb. rewrite Heq. simpl r; simpl g; simpl b.
  rewrite rgbToHsl_l.
  set (top := IZR (JS.round (q * 255)) / 255).
  set (bot := IZR (JS.round (p * 255)) / 255).
  assert (Hmax : JS.max3 (IZR (JS.round (cr * 255)) / 255)
                   (IZR (JS.round (cg * 255)) / 255)
                   (IZR (JS.round (cb * 255)) / 255) = top).
  { apply max3_attained; try (apply scaled_round_le; lra).
    destruct Htop as [-> | [-> | ->]]; auto. }
  assert (Hmin : JS.min3 (IZR (JS.round (cr * 255)) / 255)
                   (IZR (JS.round (cg * 255)) / 255)
                   (IZR (JS.round (cb * 255)) / 255) = bot).
  { apply min3_attained; try (apply scaled_round_le; lra).
    destruct Hbot as [-> | [-> | ->]]; auto. }
  rewrite Hmax, Hmin.
  pose proof (round_bounds (q * 255)) as Hq'.
  pose proof (round_bounds (p * 255)) as Hp'.
  pose proof (round_bounds ((top + bot) / 2 * 100)) as Hl'.
  unfold top, bot in *.
  apply Rabs_le. lra.
Qed.

(** At lightness 0 the colour is black and the round trip returns
    [{h: 0, s: 0, l: 0}], whatever the hue and saturation were. *)
Lemma roundTrip_black (h0 s0 : R) :
  0 <= h0 < 360 -> 0 <= s0 <= 100 ->
  Spec.roundTrip h0 s0 0 = mkHSL 0 0 0.
Proof.
  intros Hh Hs.
  destruct (hslChannels_spec h0 s0 0 Hh Hs ltac:(lra))
    as (p & q & cr & cg & cb & Heq & Hp & Hpq & Hq & Hsum &
        (Hr & Hg & Hb) & _).
  assert (cr = 0 /\ cg = 0 /\ cb = 0) as (-> & -> & ->) by (repeat split; lra).
  unfold Spec.roundTrip, hslToRgb. rewrite Heq.
  simpl r; simpl g; simpl b.
  replace (0 * 255) with (IZR 0) by lra. rewrite round_IZR.
  rewrite rgbToHsl_gray. f_equal.
  apply round_unique. lra.
Qed.

(** C9, as the code has it. For every valid HSL input the lightness returned
    by [hslToRgb] followed by [rgbToHsl] is within 1 of the original. Hue
    and saturation are not recovered in general: every input of lightness 0
    comes back as [{h: 0, s: 0, l: 0}]. *)
Theorem hsl_roundTrip_lightness (h0 s0 l0 : R) :
  0 <= h0 < 360 -> 0 <= s0 <= 100 -> 0 <= l0 <= 100 ->
  Rabs (IZR (l (Spec.roundTrip h0 s0 l0)) - l0) <= 1 /\
  Spec.roundTrip h0 s0 0 = mkHSL 0 0 0.
Proof.
  intros Hh Hs Hl. split.
  - now apply roundTrip_lightness.
  - now apply roundTrip_black.
Qed.

(** The hypotheses of [hsl_roundTrip_lightness] at hue 200, saturation 80,
    lightness 50. *)
Lemma hsl_roundTrip_lightness_witness :
  Rabs (IZR (l (Spec.roundTrip 200 80 50)) - 50) <= 1 /\
  Spec.roundTrip 200 80 0 = mkHSL 0 0 0.
Proof.
  apply (hsl_roundTrip_lightness 200 80 50); lra.
Defined.

(** C9 fails at h = 180, s = 100, l = 0: the round trip returns hue 0 and
    saturation 0. *)
Lemma hsl_roundTrip_not_within_one :
  Spec.roundTrip 180 100 0 = mkHSL 0 0 0 /\
  ~ Spec.within_one (Spec.roundTrip 180 100 0) 180 100 0.
Proof.
  assert (H : Spec.roundTrip 180 100 0 = mkHSL 0 0 0)
    by (apply roundTrip_black; lra).
  split; [exact H |].
  rewrite H. unfold Spec.within_one; simpl. intros [Hhue _].
  unfold Rabs in Hhue. destruct (Rcase_abs (0 - 180)); lra.
Qed.

End RoundTripFacts.

(** ** Maps *)

Module JSMapFacts.

Section Lookup.
Context {V : Type}.
Implicit Types (k : string) (v : V) (m : JSMap.t V).

Lemma get_set_eq k v m : JSMap.get k (JSMap.set k v m) = Some v.
Proof.
  induction m as [| [k' v'] m IH]; simpl.
  - now rewrite String.eqb_refl.
  - destruct (String.eqb k k') eqn:E; simpl; rewrite E; [reflexivity | exact IH].
Qed.

Lemma get_set_neq k k' v m :
  k' <> k -> JSMap.get k' (JSMap.set k v m) = JSMap.get k' m.
Proof.
  intros Hne. induction m as [| [k0 v0] m IH]; simpl.
  - apply String.eqb_neq in Hne. now rewrite Hne.
  - destruct (String.eqb k k0) eqn:E; simpl.
    + apply String.eqb_eq in E. subst k0.
      apply String.eqb_neq in Hne. now rewrite Hne.
    + now rewrite IH.
Qed.

Lemma get_delete_eq k m : JSMap.get k (JSMap.delete k m) = None.
Proof.
  induction m as [| [k' v'] m IH]; simpl; [reflexivity |].
  destruct (String.eqb k k') eqn:E; simpl; [exact IH | now rewrite E].
Qed.

Lemma get_delete_neq k k' m :
  k' <> k -> JSMap.get k' (JSMap.delete k m) = JSMap.get k' m.
Proof.
  intros Hne. induction m as [| [k0 v0] m IH]; simpl; [reflexivity |].
  destruct (String.eqb k k0) eqn:E; simpl.
  - apply String.eqb_eq in E. subst k0.
    apply String.eqb_neq in Hne. now rewrite Hne.
  - now rewrite IH.
Qed.

Lemma get_In k v m : JSMap.get k m = Some v -> In (k, v) m.
Proof.
  induction m as [| [k' v'] m IH]; simpl; [discriminate |].
  destruct (String.eqb k k') eqn:E.
  - apply String.eqb_eq in E. intros [= ->]. left. now subst.
  - intros H. right. now apply IH.
Qed.

Lemma has_keys k m : JSMap.has k m = true <-> In k (JSMap.keys m).
Proof.
  unfold JSMap.has.
  induction m as [| [k' v'] m IH]; simpl.
  - split; [discriminate | contradiction].
  - destruct (String.eqb k k') eqn:E.
    + apply String.eqb_eq in E. split; auto.
    + apply String.eqb_neq in E. rewrite IH. split; [auto |].
      intros [H | H]; [congruence | assumption].
Qed.

Lemma has_set k k' v m :
  JSMap.has k' (JSMap.set k v m) = true <-> k' = k \/ JSMap.has k' m = true.
Proof.
  unfold JSMap.has. destruct (string_dec k' k) as [-> | Hne].
  - rewrite get_set_eq. split; auto.
  - rewrite get_set_neq by assumption. split; [auto |].
    intros [H | H]; [contradiction | assumption].
Qed.

Lemma has_delete k k' m :
  JSMap.has k' (JSMap.delete k m) = true <-> k' <> k /\ JSMap.has k' m = true.
Proof.
  unfold JSMap.has. destruct (string_dec k' k) as [-> | Hne].
  - rewrite get_delete_eq. split; [discriminate | intros [H _]; congruence].
  - rewrite get_delete_neq by assumption. split; [auto | now intros [_ H]].
Qed.

Lemma keys_set k v m :
  JSMap.keys (JSMap.set k v m) =
  if JSMap.has k m then JSMap.keys m else JSMap.keys m ++ [k].
Proof.
  unfold JSMap.has.
  induction m as [| [k' v'] m IH]; simpl; [reflexivity |].
  destruct (String.eqb k k') eqn:E; simpl; [reflexivity |].
  rewrite IH. now destruct (JSMap.get k m).
Qed.

Lemma size_set k v m :
  JSMap.size (JSMap.set k v m) =
  if JSMap.has k m then JSMap.size m else S (JSMap.size m).
Proof.
  unfold JSMap.size.
  rewrite <- (List.length_map fst (JSMap.set k v m)).
  fold (JSMap.keys (JSMap.set k v m)). rewrite keys_set.
  destruct (JSMap.has k m); unfold JSMap.keys.
  - now rewrite List.length_map.
  - rewrite List.length_app, List.length_map. simpl. lia.
Qed.

Lemma size_set_le k v m :
  (JSMap.size (JSMap.set k v m) <= S (JSMap.size m))%nat.
Proof. rewrite size_set. destruct (JSMap.has k m); lia. Qed.

Lemma size_zero_has k m : JSMap.size m = 0%nat -> JSMap.has k m = false.
Proof. destruct m; [reflexivity | discriminate]. Qed.

Lemma keys_delete_incl k k' m :
  In k' (JSMap.keys (JSMap.delete k m)) -> In k' (JSMap.keys m).
Proof.
  intros H. apply has_keys in H. apply has_delete in H.
  now apply has_keys.
Qed.

Lemma NoDup_keys_set k v m :
  NoDup (JSMap.keys m) -> NoDup (JSMap.keys (JSMap.set k v m)).
Proof.
  intros Hnd. rewrite keys_set. destruct (JSMap.has k m) eqn:E; [assumption |].
  apply NoDup_app; [assumption | repeat constructor; intros [] | ].
  intros x Hx [<- | []]. apply has_keys in Hx. congruence.
Qed.

Lemma NoDup_keys_delete k m :
  NoDup (JSMap.keys m) -> NoDup (JSMap.keys (JSMap.delete k m)).
Proof.
  induction m as [| [k' v'] m IH]; simpl; [auto |].
  intros Hnd. inversion Hnd as [| ? ? Hnotin Hnd']; subst.
  destruct (String.eqb k k'); simpl; [now apply IH |].
  constructor; [| now apply IH].
  intros Hin. apply Hnotin. now apply keys_delete_incl in Hin.
Qed.

Lemma Forall_set (P : string * V -> Prop) k v m :
  P (k, v) -> (forall k' v', P (k', v') -> k' = k -> P (k', v)) ->
  Forall P m -> Forall P (JSMap.set k v m).
Proof.
  intros Hkv Hrepl. induction 1 as [| [k' v'] m Hhd Htl IH]; simpl.
  - now repeat constructor.
  - destruct (String.eqb k k') eqn:E.
    + apply String.eqb_eq in E. constructor; [| assumption].
      now apply (Hrepl k' v').
    + now constructor.
Qed.

Lemma Forall_delete (P : string * V -> Prop) k m :
  Forall P m -> Forall P (JSMap.delete k m).
Proof.
  induction 1 as [| [k' v'] m Hhd Htl IH]; simpl; [constructor |].
  destruct (String.eqb k k'); [assumption | now constructor].
Qed.

Lemma get_map_values (f : V -> V) k m :
  JSMap.get k (JSMap.map_values f m) = option_map f (JSMap.get k m).
Proof.
  induction m as [| [k' v'] m IH]; simpl; [reflexivity |].
  now destruct (String.eqb k k').
Qed.

Lemma keys_map_values (f : V -> V) m :
  JSMap.keys (JSMap.map_values f m) = JSMap.keys m.
Proof.
  unfold JSMap.keys, JSMap.map_values. rewrite List.map_map.
  now apply List.map_ext.
Qed.

Lemma has_update_first (f : V -> V) k m :
  JSMap.has k (JSMap.update_first f m) = JSMap.has k m.
Proof.
  unfold JSMap.has. destruct m as [| [k' v'] m]; simpl; [reflexivity |].
  now destruct (String.eqb k k').
Qed.

Lemma size_update_first (f : V -> V) m :
  JSMap.size (JSMap.update_first f m) = JSMap.size m.
Proof. now destruct m as [| [k' v'] m]. Qed.

End Lookup.

End JSMapFacts.

(** ** Room: processing a throw (C2, C3) *)

Module ThrowFacts.
Import ColorUtils JSMapFacts.

(** [(i + 1) % length] on a numeric turn and a non-empty turn order. *)
Lemma imod_succ_num (i : JS.Index) (order : list string) (n : nat) :
  i = JS.Num n -> order <> [] ->
  JS.imod (JS.succ i) (List.length order) =
  JS.Num ((n + 1) mod List.length order).
Proof.
  intros -> Hne. destruct order as [| a rest]; [contradiction |].
  cbn [List.length JS.imod JS.succ]. now rewrite Nat.add_1_r.
Qed.



(** C3. A miss leaves [playerColors] and the player's colour unchanged and
    reports [colorChanged = false]. Every processed throw, hit or miss,
    increments the player's throw count, and whenever it produces no winner
    (as every miss does) [currentTurn] becomes
    [(currentTurn + 1) % turnOrder.length]. *)
Theorem processDartThrow_miss_and_turn (uuid : string) (now : Z)
    (playerId : string) (room : Room.t) (player : Room.Player) :
  JSMap.get playerId (Room.players room) = Some player ->
  (forall data,
      Room.resolveHitColor data = None ->
      exists room' result player',
        Room.processDartThrow uuid now playerId data room
          = Room.Return (room', result) /\
        Room.playerColors room' = Room.playerColors room /\
        JSMap.get playerId (Room.players room') = Some player' /\
        Room.currentColor player' = Room.currentColor player /\
        Room.colorChanged result = false /\
        Room.newColor result = None /\
        Room.winner result = None) /\
  (forall data,
      Room.resolveHitColor data = None \/
      JSMap.get playerId (Room.playerColors room) <> None ->
      exists room' result player',
        Room.processDartThrow uuid now playerId data room
          = Room.Return (room', result) /\
        JSMap.get playerId (Room.players room') = Some player' /\
        Room.throwCount player' = S (Room.throwCount player) /\
        (Room.winner result = None ->
         Room.currentTurn room' =
           JS.imod (JS.succ (Room.currentTurn room))
             (List.length (Room.turnOrder room)) /\
         forall n,
           Room.currentTurn room = JS.Num n -> Room.turnOrder room <> [] ->
           Room.currentTurn room' =
             JS.Num ((n + 1) mod List.length (Room.turnOrder room)))).
Proof.
  intros Hplayer. split.
  - intros data Hmiss.
    unfold Room.processDartThrow. rewrite Hplayer, Hmiss.
    do 3 eexists. split; [reflexivity |]. cbn.
    rewrite get_set_eq. repeat split.
  - intros data Hok.
    unfold Room.processDartThrow. rewrite Hplayer.
    destruct (Room.resolveHitColor data) as [hit |] eqn:Hres.
    + destruct Hok as [Hok | Hok]; [discriminate |].
      destruct (JSMap.get playerId (Room.playerColors room))
        as [current |] eqn:Hcur; [| contradiction].
      cbv zeta.
      cbn [Room.targetColor Room.gameSettings Room.set_throws
             Room.set_players Room.set_playerColors].
      destruct (Rle_dec _ _) as [Hc | Hc].
      * do 3 eexists. split; [reflexivity |]. cbn.
        rewrite get_set_eq. repeat split; discriminate.
      * do 3 eexists. split; [reflexivity |]. cbn.
        rewrite get_set_eq. split; [reflexivity |]. split; [reflexivity |].
        intros _. split; [reflexivity |].
        intros n Hn Hne.
        now apply imod_succ_num.
    + do 3 eexists. split; [reflexivity |]. cbn.
      rewrite get_set_eq. split; [reflexivity |]. split; [reflexivity |].
      intros _. split; [reflexivity |].
      intros n Hn Hne.
      now apply imod_succ_num.
Qed.

(** The hypotheses of [processDartThrow_miss_and_turn] in a started
    two-player room: after Alice's miss the turn passes to index 1. *)
Lemma processDartThrow_miss_and_turn_witness :
  let room :=
    Room.startGame (mkColor 100 100 100)
      (fst (Room.addPlayer "b" "Bob" (Room.new "ABCD" "a" "Alice" 0 0 0))) in
  let miss := Room.mkThrowData Room.hitColor_null (Room.mkPosition 9 9 0) [] in
  exists room' result player',
    Room.processDartThrow "u" 0 "a" miss room = Room.Return (room', result) /\
    JSMap.get "a" (Room.players room') = Some player' /\
    Room.throwCount player' = 1%nat /\
    (Room.winner result = None ->
     Room.currentTurn room' = JS.Num 1 /\
     forall n,
       Room.currentTurn room = JS.Num n -> Room.turnOrder room <> [] ->
       Room.currentTurn room' = JS.Num ((n + 1) mod 2)).
Proof.
  intros room miss.
  refine (proj2 (processDartThrow_miss_and_turn "u" 0 "a" room
                   (Room.resetPlayer
                      (Room.mkPlayer "a" "Alice" true false 0 (mkColor 0 0 0) 0))
                   _) miss _); [reflexivity | left; reflexivity].
Defined.

End ThrowFacts.

(** ** Coordinator: starting a game (C4) *)

Module StartFacts.
Import ColorUtils JSMapFacts.

Lemma resetPlayer_fields (player : Room.Player) :
  Room.throwCount (Room.resetPlayer player) = 0%nat /\
  Room.score (Room.resetPlayer player) = 0%nat /\
  Room.currentColor (Room.resetPlayer player) = Room.neutral.
Proof. repeat split. Qed.

(** The colour loop of [startGame] keeps a neutral entry neutral and makes
    the entry of every visited player neutral. *)
Lemma reset_colors_keeps (visited : list Room.Player) (colors : JSMap.t Color)
    (k : string) :
  JSMap.get k colors = Some Room.neutral ->
  JSMap.get k
    (List.fold_left
       (fun acc player => JSMap.set (Room.id player) Room.neutral acc)
       visited colors) = Some Room.neutral.
Proof.
  revert colors. induction visited as [| p rest IH]; intros colors H; simpl.
  - exact H.
  - apply IH. destruct (string_dec k (Room.id p)) as [-> | Hne].
    + apply get_set_eq.
    + now rewrite get_set_neq.
Qed.

Lemma reset_colors_sets (visited : list Room.Player) (colors : JSMap.t Color)
    (player : Room.Player) :
  In player visited ->
  JSMap.get (Room.id player)
    (List.fold_left
       (fun acc p => JSMap.set (Room.id p) Room.neutral acc)
       visited colors) = Some Room.neutral.
Proof.
  revert colors. induction visited as [| p rest IH]; intros colors Hin.
  - contradiction.
  - simpl. destruct Hin as [-> | Hin].
    + apply reset_colors_keeps, get_set_eq.
    + now apply IH.
Qed.

(** What [Room.startGame] establishes. *)
Lemma room_startGame_spec (target : Color) (room : Room.t) :
  let room' := Room.startGame target room in
  Room.gameState room' = Room.playing /\
  Room.targetColor room' = target /\
  Room.turnOrder room' = JSMap.keys (Room.players room) /\
  Room.currentTurn room' = JS.Num 0 /\
  Room.throws room' = [] /\
  JSMap.keys (Room.players room') = JSMap.keys (Room.players room) /\
  (forall playerId player,
      JSMap.get playerId (Room.players room') = Some player ->
      Room.throwCount player = 0%nat /\ Room.score player = 0%nat /\
      Room.currentColor player = Room.neutral) /\
  (forall player,
      In player (JSMap.values (Room.players room)) ->
      JSMap.get (Room.id player) (Room.playerColors room')
        = Some Room.neutral).
Proof.
  intros room'. unfold room', Room.startGame.
  cbn [Room.gameState Room.targetColor Room.turnOrder Room.currentTurn
       Room.throws Room.players Room.playerColors Room.set_gameState
       Room.set_targetColor Room.set_turnOrder Room.set_currentTurn
       Room.set_throws Room.set_playerColors Room.set_players].
  do 5 (split; [reflexivity |]).
  split; [apply keys_map_values |].
  split.
  - intros playerId player H.
    rewrite get_map_values in H.
    destruct (JSMap.get playerId (Room.players room)); [| discriminate].
    injection H as <-. apply resetPlayer_fields.
  - intros player Hin. now apply reset_colors_sets.
Qed.

(** C4. [GameManager.startGame] on an existing room fails with the not-host
    message when the requester is not the stored host, and, for the host,
    with the insufficient-players message when the room has fewer than 2
    players (the checks run in this order). Otherwise it succeeds: the phase
    is [playing], [turnOrder] is the list of current player ids,
    [currentTurn] is 0, [throws] is empty, and every player has throw count
    0, score 0 and the neutral colour [{r:128, g:128, b:128}], also in
    [playerColors]. *)
Theorem startGame_contract (gm : GameManager.t) (code requester : string)
    (room : Room.t) :
  JSMap.get code (GameManager.rooms gm) = Some room ->
  (Room.hostId room <> requester ->
   GameManager.startGame code requester gm
     = (gm, GameManager.Failure "Only the host can start the game")) /\
  (Room.hostId room = requester ->
   (JSMap.size (Room.players room) < 2)%nat ->
   GameManager.startGame code requester gm
     = (gm, GameManager.Failure "Need at least 2 players to start")) /\
  (Room.hostId room = requester ->
   (2 <= JSMap.size (Room.players room))%nat ->
   exists gm' payload room',
     GameManager.startGame code requester gm
       = (gm', GameManager.Success payload) /\
     JSMap.get code (GameManager.rooms gm') = Some room' /\
     Room.gameState room' = Room.playing /\
     Room.turnOrder room' = JSMap.keys (Room.players room) /\
     Room.currentTurn room' = JS.Num 0 /\
     Room.throws room' = [] /\
     JSMap.keys (Room.players room') = JSMap.keys (Room.players room) /\
     (forall playerId player,
         JSMap.get playerId (Room.players room') = Some player ->
         Room.throwCount player = 0%nat /\ Room.score player = 0%nat /\
         Room.currentColor player = mkColor 128 128 128) /\
     (forall player,
         In player (JSMap.values (Room.players room)) ->
         JSMap.get (Room.id player) (Room.playerColors room')
           = Some (mkColor 128 128 128))).
Proof.
  intros Hroom. unfold GameManager.startGame. rewrite Hroom.
  split; [| split].
  - intros Hne. apply String.eqb_neq in Hne. now rewrite Hne.
  - intros Heq Hsize. apply String.eqb_eq in Heq. rewrite Heq. simpl.
    apply Nat.ltb_lt in Hsize. now rewrite Hsize.
  - intros Heq Hsize. apply String.eqb_eq in Heq. rewrite Heq. simpl.
    destruct (Nat.ltb_spec (JSMap.size (Room.players room)) 2) as [Hlt | _];
      [lia |].
    destruct (room_startGame_spec (Room.targetColor room) room)
      as (Hphase & _ & Horder & Hturn & Hthrows & Hkeys & Hplayers & Hcolors).
    do 3 eexists. split; [reflexivity |].
    cbn [GameManager.rooms]. rewrite get_set_eq.
    split; [reflexivity |]. repeat split; try assumption.
    + now apply (Hplayers playerId player).
    + now apply (Hplayers playerId player).
    + now apply (Hplayers playerId player).
Qed.

(** The hypotheses of [startGame_contract] for the host of a two-player
    room. *)
Lemma startGame_contract_witness :
  let rnd := GameManager.mkRandom 0 1 2 3 0 0 0 in
  let gm :=
    GameManager.run
      [GameManager.CreateRoom rnd "a" "Alice";
       GameManager.JoinRoom rnd "b" "Bob" (Some "ABCD"%string)]
      GameManager.new in
  exists gm' payload room',
    GameManager.startGame "ABCD" "a" gm = (gm', GameManager.Success payload) /\
    JSMap.get "ABCD" (GameManager.rooms gm') = Some room' /\
    Room.gameState room' = Room.playing /\
    Room.turnOrder room' = ["a"; "b"]%string /\
    Room.currentTurn room' = JS.Num 0.
Proof.
  intros rnd gm.
  assert (Hroom : JSMap.get "ABCD" (GameManager.rooms gm)
                  = Some (fst (Room.addPlayer "b" "Bob"
                                 (Room.new "ABCD" "a" "Alice" 0 0 0))))
    by reflexivity.
  destruct (proj2 (proj2 (startGame_contract gm "ABCD" "a" _ Hroom))
              eq_refl ltac:(simpl; lia))
    as (gm' & payload & room' & Hrun & Hget & Hphase & Horder & Hturn & _).
  exists gm', payload, room'. repeat split; assumption.
Defined.

End StartFacts.

(** ** Coordinator: joining a room (C5) *)

Module JoinFacts.
Import ColorUtils JSMapFacts.

Lemma truthy_code (code : string) :
  code <> EmptyString -> GameManager.truthy (Some code) = Some code.
Proof. destruct code; [contradiction | reflexivity]. Qed.

Lemma joinExisting_capacity (playerId playerName code : string)
    (gm : GameManager.t) :
  Spec.capacity_ok gm ->
  Spec.capacity_ok (fst (GameManager.joinExisting playerId playerName code gm)).
Proof.
  intros Hcap. unfold GameManager.joinExisting.
  destruct (JSMap.get code (GameManager.rooms gm)) as [room |] eqn:Hroom;
    [| exact Hcap].
  destruct (Nat.leb_spec 4 (JSMap.size (Room.players room))) as [Hfull | Hfree];
    [exact Hcap |].
  destruct (Room.gameState room); try exact Hcap.
  intros k room' Hk. cbn [fst GameManager.rooms Room.addPlayer] in Hk.
  destruct (string_dec k code) as [-> | Hne].
  - rewrite get_set_eq in Hk. injection Hk as <-.
    cbn [Room.players Room.set_players Room.set_playerColors].
    eapply Nat.le_trans; [apply size_set_le | lia].
  - rewrite get_set_neq in Hk by assumption. now apply (Hcap k).
Qed.

Lemma createRoom_capacity (rnd : GameManager.Random)
    (playerId playerName : string) (gm : GameManager.t) :
  Spec.capacity_ok gm ->
  Spec.capacity_ok (fst (GameManager.createRoom rnd playerId playerName gm)).
Proof.
  intros Hcap k room' Hk. cbn [fst GameManager.createRoom GameManager.rooms] in Hk.
  destruct (string_dec k (GameManager.drawCode rnd)) as [-> | Hne].
  - rewrite get_set_eq in Hk. injection Hk as <-. cbn. lia.
  - rewrite get_set_neq in Hk by assumption. now apply (Hcap k).
Qed.

Lemma joinRoom_capacity (rnd : GameManager.Random)
    (playerId playerName : string) (roomCode : option string)
    (gm : GameManager.t) :
  Spec.capacity_ok gm ->
  Spec.capacity_ok
    (fst (GameManager.joinRoom rnd playerId playerName roomCode gm)).
Proof.
  intros Hcap. unfold GameManager.joinRoom.
  destruct (GameManager.truthy roomCode);
    [now apply joinExisting_capacity |].
  destruct (GameManager.truthy (GameManager.findAvailableRoom gm));
    [now apply joinExisting_capacity |].
  now apply (createRoom_capacity rnd playerId playerName gm).
Qed.

(** C5. A [joinRoom] call that supplies a room code fails with the
    room-not-found message when no room has that code, with the room-full
    message when the room has 4 (or more) players, with the
    game-in-progress message when the room is not full and its phase is not
    [waiting] (the checks run in this order), and otherwise succeeds, with
    the player added to that room and indexed under its code. No [joinRoom]
    call, with or without a code, makes a room exceed 4 players. *)
Theorem joinRoom_contract (rnd : GameManager.Random)
    (playerId playerName code : string) (gm : GameManager.t) :
  code <> EmptyString ->
  let outcome :=
    GameManager.joinRoom rnd playerId playerName (Some code) gm in
  (JSMap.get code (GameManager.rooms gm) = None ->
   outcome = (gm, GameManager.Failure "Room not found")) /\
  (forall room,
      JSMap.get code (GameManager.rooms gm) = Some room ->
      ((4 <= JSMap.size (Room.players room))%nat ->
       outcome = (gm, GameManager.Failure "Room is full")) /\
      ((JSMap.size (Room.players room) < 4)%nat ->
       Room.gameState room <> Room.waiting ->
       outcome = (gm, GameManager.Failure "Game is already in progress")) /\
      ((JSMap.size (Room.players room) < 4)%nat ->
       Room.gameState room = Room.waiting ->
       exists gm' payload room',
         outcome = (gm', GameManager.Success payload) /\
         GameManager.j_roomCode payload = code /\
         JSMap.get code (GameManager.rooms gm') = Some room' /\
         (forall k, JSMap.has k (Room.players room') = true <->
                    k = playerId \/ JSMap.has k (Room.players room) = true) /\
         JSMap.get playerId (GameManager.playerRooms gm') = Some code /\
         (JSMap.size (Room.players room') <= 4)%nat)) /\
  (forall roomCode,
      Spec.capacity_ok gm ->
      Spec.capacity_ok
        (fst (GameManager.joinRoom rnd playerId playerName roomCode gm))).
Proof.
  intros Hcode outcome. unfold outcome, GameManager.joinRoom.
  rewrite (truthy_code code Hcode). unfold GameManager.joinExisting.
  split; [| split].
  - intros Hnone. now rewrite Hnone.
  - intros room Hroom. rewrite Hroom. split; [| split].
    + intros Hfull. apply Nat.leb_le in Hfull. now rewrite Hfull.
    + intros Hfree Hphase.
      destruct (Nat.leb_spec 4 (JSMap.size (Room.players room))); [lia |].
      destruct (Room.gameState room); [contradiction | reflexivity ..].
    + intros Hfree Hphase.
      destruct (Nat.leb_spec 4 (JSMap.size (Room.players room))); [lia |].
      rewrite Hphase. cbn [Room.addPlayer].
      do 3 eexists. split; [reflexivity |].
      cbn [GameManager.j_roomCode GameManager.rooms GameManager.playerRooms].
      rewrite !get_set_eq. split; [reflexivity |]. split; [reflexivity |].
      cbn [Room.players Room.set_players Room.set_playerColors].
      split; [| split; [reflexivity |]].
      * intros k. apply has_set.
      * eapply Nat.le_trans; [apply size_set_le | lia].
  - intros roomCode. apply joinRoom_capacity.
Qed.

(** The hypotheses of [joinRoom_contract] for a second player joining a
    fresh room by its code. *)
Lemma joinRoom_contract_witness :
  let rnd := GameManager.mkRandom 0 1 2 3 0 0 0 in
  let gm := GameManager.run [GameManager.CreateRoom rnd "a" "Alice"]
              GameManager.new in
  exists gm' payload room',
    GameManager.joinRoom rnd "b" "Bob" (Some "ABCD"%string) gm
      = (gm', GameManager.Success payload) /\
    GameManager.j_roomCode payload = "ABCD"%string /\
    JSMap.get "ABCD" (GameManager.rooms gm') = Some room' /\
    JSMap.has "b" (Room.players room') = true.
Proof.
  intros rnd gm.
  destruct (proj2 (proj2 (proj1 (proj2
              (joinRoom_contract rnd "b" "Bob" "ABCD" gm ltac:(discriminate)))
              (Room.new "ABCD" "a" "Alice" 0 0 0) eq_refl))
              ltac:(simpl; lia) eq_refl)
    as (gm' & payload & room' & Hrun & Hcode & Hget & Hhas & _).
  exists gm', payload, room'. repeat split; try assumption.
  apply Hhas. now left.
Defined.

End JoinFacts.

(** ** Coordinator: the registry of room codes (C6) *)

Module RegistryFacts.
Import ColorUtils JSMapFacts.

Lemma removePlayer_roomCode (playerId : string) (room : Room.t) :
  Room.roomCode (Room.removePlayer playerId room) = Room.roomCode room.
Proof.
  unfold Room.removePlayer. cbv zeta.
  repeat match goal with
         | |- context [match ?d with _ => _ end] => destruct d
         end; reflexivity.
Qed.

Lemma keyed_set (code : string) (room : Room.t) (registry : JSMap.t Room.t) :
  Room.roomCode room = code ->
  Forall (fun entry => Room.roomCode (snd entry) = fst entry) registry ->
  Forall (fun entry => Room.roomCode (snd entry) = fst entry)
    (JSMap.set code room registry).
Proof.
  intros Hcode. apply Forall_set; simpl.
  - exact Hcode.
  - intros k' v' _ ->. exact Hcode.
Qed.

Lemma keyed_get (gm : GameManager.t) (code : string) (room : Room.t) :
  Spec.keyed_by_code gm ->
  JSMap.get code (GameManager.rooms gm) = Some room ->
  Room.roomCode room = code.
Proof.
  intros Hkeyed Hget. apply get_In in Hget.
  unfold Spec.keyed_by_code in Hkeyed. rewrite Forall_forall in Hkeyed.
  exact (Hkeyed _ Hget).
Qed.

Lemma activeCodes_keys (gm : GameManager.t) :
  Spec.keyed_by_code gm ->
  Spec.activeCodes gm = JSMap.keys (GameManager.rooms gm).
Proof.
  unfold Spec.keyed_by_code, Spec.activeCodes, JSMap.values, JSMap.keys.
  induction 1 as [| [code room] rest Hhd _ IH]; simpl; [reflexivity |].
  simpl in Hhd. now rewrite Hhd, IH.
Qed.

(** Room codes are drawn letter by letter; an index outside the alphabet
    contributes nothing. *)
Example generateRoomCode_ABCD : Utils.generateRoomCode 0 1 2 3 = "ABCD"%string.
Proof. reflexivity. Qed.

Example generateRoomCode_last : Utils.generateRoomCode 25 26 35 36 = "Z09"%string.
Proof. reflexivity. Qed.

(** The registry invariant: unique keys, each room stored under its code. *)
Lemma joinExisting_registry (playerId playerName code : string)
    (gm : GameManager.t) :
  NoDup (JSMap.keys (GameManager.rooms gm)) /\ Spec.keyed_by_code gm ->
  let gm' := fst (GameManager.joinExisting playerId playerName code gm) in
  NoDup (JSMap.keys (GameManager.rooms gm')) /\ Spec.keyed_by_code gm'.
Proof.
  intros [Hnd Hkeyed]. unfold GameManager.joinExisting.
  destruct (JSMap.get code (GameManager.rooms gm)) as [room |] eqn:Hroom;
    [| now split].
  destruct (Nat.leb 4 (JSMap.size (Room.players room))); [now split |].
  destruct (Room.gameState room); try now split.
  cbn [fst GameManager.rooms Room.addPlayer]. split.
  - now apply NoDup_keys_set.
  - apply keyed_set; [| exact Hkeyed]. cbn.
    now apply (keyed_get gm).
Qed.

Lemma createRoom_registry (rnd : GameManager.Random)
    (playerId playerName : string) (gm : GameManager.t) :
  NoDup (JSMap.keys (GameManager.rooms gm)) /\ Spec.keyed_by_code gm ->
  let gm' := fst (GameManager.createRoom rnd playerId playerName gm) in
  NoDup (JSMap.keys (GameManager.rooms gm')) /\ Spec.keyed_by_code gm'.
Proof.
  intros [Hnd Hkeyed]. cbn [fst GameManager.createRoom GameManager.rooms]. split.
  - now apply NoDup_keys_set.
  - apply keyed_set; [reflexivity | exact Hkeyed].
Qed.

Lemma step_registry (gm : GameManager.t) (op : GameManager.Op) :
  NoDup (JSMap.keys (GameManager.rooms gm)) /\ Spec.keyed_by_code gm ->
  NoDup (JSMap.keys (GameManager.rooms (GameManager.step gm op))) /\
  Spec.keyed_by_code (GameManager.step gm op).
Proof.
  intros Hinv. destruct op as [rnd p n | rnd p n roomCode | p];
    cbn [GameManager.step].
  - now apply createRoom_registry.
  - unfold GameManager.joinRoom.
    destruct (GameManager.truthy roomCode);
      [now apply joinExisting_registry |].
    destruct (GameManager.truthy (GameManager.findAvailableRoom gm));
      [now apply joinExisting_registry |].
    now apply (createRoom_registry rnd p n gm).
  - destruct Hinv as [Hnd Hkeyed]. unfold GameManager.removePlayer.
    destruct (GameManager.truthy _) as [code |]; [| now split].
    destruct (JSMap.get code (GameManager.rooms gm)) as [room |] eqn:Hroom;
      [| now split].
    cbv zeta. cbn [fst GameManager.rooms].
    assert (Hset : Forall (fun entry => Room.roomCode (snd entry) = fst entry)
                     (JSMap.set code (Room.removePlayer p room)
                        (GameManager.rooms gm))).
    { apply keyed_set; [| exact Hkeyed].
      rewrite removePlayer_roomCode. now apply (keyed_get gm). }
    destruct (Nat.eqb _ 0); split.
    + now apply NoDup_keys_delete, NoDup_keys_set.
    + now apply Forall_delete.
    + now apply NoDup_keys_set.
    + exact Hset.
Qed.

Lemma run_registry (ops : list GameManager.Op) (gm : GameManager.t) :
  NoDup (JSMap.keys (GameManager.rooms gm)) /\ Spec.keyed_by_code gm ->
  NoDup (JSMap.keys (GameManager.rooms (GameManager.run ops gm))) /\
  Spec.keyed_by_code (GameManager.run ops gm).
Proof.
  revert gm. induction ops as [| op rest IH]; intros gm Hinv; simpl.
  - exact Hinv.
  - apply IH. now apply step_registry.
Qed.

(** C6, as the code has it. After any sequence of [createRoom], [joinRoom]
    and [removePlayer] calls the codes of the rooms in the registry are
    pairwise distinct and every room is registered under its own code. The
    coordinator does not check a drawn code against the registry: a
    [createRoom] registers the new room under the drawn code, and when that
    code is already in use the registry keeps the same codes, with the new
    room in place of the old one. *)
Theorem registry_codes_distinct (ops : list GameManager.Op) :
  let gm := GameManager.run ops GameManager.new in
  NoDup (Spec.activeCodes gm) /\
  Spec.keyed_by_code gm /\
  (forall rnd playerId playerName,
      let gm' := fst (GameManager.createRoom rnd playerId playerName gm) in
      JSMap.get (GameManager.drawCode rnd) (GameManager.rooms gm')
        = Some (Room.new (GameManager.drawCode rnd) playerId playerName
                  (GameManager.hue rnd) (GameManager.saturation rnd)
                  (GameManager.lightness rnd)) /\
      (JSMap.has (GameManager.drawCode rnd) (GameManager.rooms gm) = true ->
       Spec.activeCodes gm' = Spec.activeCodes gm)).
Proof.
  intros gm.
  assert (Hinv : NoDup (JSMap.keys (GameManager.rooms gm)) /\
                 Spec.keyed_by_code gm).
  { apply run_registry. split; constructor. }
  destruct Hinv as [Hnd Hkeyed].
  split; [now rewrite activeCodes_keys | split; [exact Hkeyed |]].
  intros rnd playerId playerName gm'. split.
  - apply get_set_eq.
  - intros Hused.
    destruct (createRoom_registry rnd playerId playerName gm (conj Hnd Hkeyed))
      as [_ Hkeyed'].
    rewrite !activeCodes_keys by assumption.
    unfold gm'. cbn [fst GameManager.createRoom GameManager.rooms].
    rewrite keys_set. now rewrite Hused.
Qed.

(** C6 fails as stated: a second [createRoom] drawing the code of an active
    room reuses it, replacing Alice's room by Bob's while the index still
    sends Alice to that code. *)
Lemma createRoom_reuses_code :
  let rnd := GameManager.mkRandom 0 1 2 3 0 0 0 in
  let gm :=
    GameManager.run [GameManager.CreateRoom rnd "a" "Alice"] GameManager.new in
  let gm' := fst (GameManager.createRoom rnd "b" "Bob" gm) in
  let created := snd (GameManager.createRoom rnd "b" "Bob" gm) in
  GameManager.j_roomCode created = "ABCD"%string /\
  JSMap.has "ABCD" (GameManager.rooms gm) = true /\
  Spec.activeCodes gm' = ["ABCD"%string] /\
  (exists room,
      JSMap.get "ABCD" (GameManager.rooms gm') = Some room /\
      JSMap.keys (Room.players room) = ["b"%string]) /\
  JSMap.get "a" (GameManager.playerRooms gm') = Some "ABCD"%string.
Proof.
  cbv zeta. split; [reflexivity |]. split; [reflexivity |].
  split; [reflexivity |]. split; [| reflexivity].
  eexists. split; reflexivity.
Qed.

End RegistryFacts.

(** ** Coordinator: one room per player (C7) *)

Module MembershipFacts.
Import ColorUtils JSMapFacts.

Lemma holds_set_same (code playerId : string) (room : Room.t)
    (registry : JSMap.t Room.t) (index : JSMap.t string) :
  Spec.holds (GameManager.mkManager (JSMap.set code room registry) index)
    code playerId <->
  JSMap.has playerId (Room.players room) = true.
Proof.
  unfold Spec.holds; cbn [GameManager.rooms]. rewrite get_set_eq. split.
  - intros (room' & [= <-] & H). exact H.
  - intros H. now exists room.
Qed.

Lemma holds_set_other (code code' playerId : string) (room : Room.t)
    (registry : JSMap.t Room.t) (index index' : JSMap.t string) :
  code' <> code ->
  Spec.holds (GameManager.mkManager (JSMap.set code room registry) index)
    code' playerId <->
  Spec.holds (GameManager.mkManager registry index') code' playerId.
Proof.
  intros Hne. unfold Spec.holds; cbn [GameManager.rooms].
  now rewrite get_set_neq.
Qed.

Lemma holds_delete_same (code playerId : string)
    (registry : JSMap.t Room.t) (index : JSMap.t string) :
  ~ Spec.holds (GameManager.mkManager (JSMap.delete code registry) index)
      code playerId.
Proof.
  unfold Spec.holds; cbn [GameManager.rooms]. rewrite get_delete_eq.
  intros (room & H & _). discriminate.
Qed.

Lemma holds_delete_other (code code' playerId : string)
    (registry : JSMap.t Room.t) (index index' : JSMap.t string) :
  code' <> code ->
  Spec.holds (GameManager.mkManager (JSMap.delete code registry) index)
    code' playerId <->
  Spec.holds (GameManager.mkManager registry index') code' playerId.
Proof.
  intros Hne. unfold Spec.holds; cbn [GameManager.rooms].
  now rewrite get_delete_neq.
Qed.

Lemma holds_index (gm : GameManager.t) (index : JSMap.t string)
    (code playerId : string) :
  Spec.holds (GameManager.mkManager (GameManager.rooms gm) index)
    code playerId <->
  Spec.holds gm code playerId.
Proof. reflexivity. Qed.

(** The players of a room after [Room.removePlayer]. *)
Lemma removePlayer_has (playerId k : string) (room : Room.t) :
  JSMap.has k (Room.players (Room.removePlayer playerId room)) = true <->
  k <> playerId /\ JSMap.has k (Room.players room) = true.
Proof.
  rewrite <- has_delete. unfold Room.removePlayer. cbv zeta.
  cbn [Room.players Room.set_players Room.set_playerColors Room.hostId].
  destruct (JSMap.values (JSMap.delete playerId (Room.players room)));
    [| destruct (String.eqb playerId (Room.hostId room))];
    match goal with
    | |- context [JS.ige ?i ?n] => destruct (JS.ige i n)
    end;
    cbn [Room.players Room.set_players Room.set_currentTurn
         Room.set_turnOrder Room.set_hostId Room.set_playerColors];
    rewrite ?has_update_first; reflexivity.
Qed.

Lemma new_has (code playerId playerName k : string) (u1 u2 u3 : R) :
  JSMap.has k (Room.players (Room.new code playerId playerName u1 u2 u3))
    = true <-> k = playerId.
Proof.
  unfold JSMap.has; cbn. destruct (String.eqb_spec k playerId); split;
    intros; try reflexivity; try assumption; try discriminate; contradiction.
Qed.

(** The index invariant implies that no player is in two rooms. *)
Lemma index_single (gm : GameManager.t) :
  Spec.index_agrees gm -> Spec.single_room gm.
Proof.
  intros Hidx p c1 c2 H1 H2.
  apply Hidx in H1, H2. congruence.
Qed.

Lemma createRoom_index (rnd : GameManager.Random)
    (playerId playerName : string) (gm : GameManager.t) :
  Spec.index_agrees gm ->
  Spec.fresh_player gm playerId -> Spec.fresh_code gm rnd ->
  Spec.index_agrees (fst (GameManager.createRoom rnd playerId playerName gm)).
Proof.
  intros Hidx Hplayer Hcode p c.
  cbn [fst GameManager.createRoom GameManager.playerRooms].
  set (code := GameManager.drawCode rnd) in *.
  destruct (string_dec c code) as [-> | Hc].
  - rewrite holds_set_same, new_has.
    destruct (string_dec p playerId) as [-> | Hp].
    + rewrite get_set_eq. tauto.
    + rewrite get_set_neq by assumption. split; [| contradiction].
      intros H. apply Hidx in H. destruct H as (room & Hroom & _).
      unfold Spec.fresh_code in Hcode. fold code in Hcode. congruence.
  - rewrite (holds_set_other _ _ _ _ _ _ (GameManager.playerRooms gm)), holds_index
      by assumption.
    destruct (string_dec p playerId) as [-> | Hp].
    + rewrite get_set_eq. split; [intros [= <-]; contradiction |].
      intros H. apply Hidx in H. unfold Spec.fresh_player in Hplayer.
      congruence.
    + rewrite get_set_neq by assumption. apply Hidx.
Qed.

Lemma joinExisting_index (playerId playerName code : string)
    (gm : GameManager.t) :
  Spec.index_agrees gm -> Spec.fresh_player gm playerId ->
  Spec.index_agrees
    (fst (GameManager.joinExisting playerId playerName code gm)).
Proof.
  intros Hidx Hplayer. unfold GameManager.joinExisting.
  destruct (JSMap.get code (GameManager.rooms gm)) as [room |] eqn:Hroom;
    [| exact Hidx].
  destruct (Nat.leb 4 (JSMap.size (Room.players room))); [exact Hidx |].
  destruct (Room.gameState room); try exact Hidx.
  intros p c.
  cbn [fst Room.addPlayer GameManager.playerRooms].
  destruct (string_dec c code) as [-> | Hc].
  - rewrite holds_set_same.
    cbn [Room.players Room.set_players Room.set_playerColors].
    rewrite has_set.
    destruct (string_dec p playerId) as [-> | Hp].
    + rewrite get_set_eq. tauto.
    + rewrite get_set_neq by assumption. rewrite (Hidx p code).
      unfold Spec.holds. rewrite Hroom. split.
      * intros (room' & [= <-] & H). now right.
      * intros [H | H]; [contradiction | now exists room].
  - rewrite (holds_set_other _ _ _ _ _ _ (GameManager.playerRooms gm)), holds_index
      by assumption.
    destruct (string_dec p playerId) as [-> | Hp].
    + rewrite get_set_eq. split; [intros [= <-]; contradiction |].
      intros H. apply Hidx in H. unfold Spec.fresh_player in Hplayer.
      congruence.
    + rewrite get_set_neq by assumption. apply Hidx.
Qed.

Lemma truthy_inv (value : option string) (code : string) :
  GameManager.truthy value = Some code -> value = Some code.
Proof. destruct value as [[| c rest] |]; simpl; congruence. Qed.

Lemma removePlayer_index (playerId : string) (gm : GameManager.t) :
  Spec.index_agrees gm ->
  Spec.index_agrees (fst (GameManager.removePlayer playerId gm)).
Proof.
  intros Hidx. unfold GameManager.removePlayer.
  destruct (GameManager.truthy _) as [code |] eqn:Hcode; [| exact Hidx].
  apply truthy_inv in Hcode.
  destruct (JSMap.get code (GameManager.rooms gm)) as [room |] eqn:Hroom;
    [| exact Hidx].
  cbv zeta. cbn [fst]. intros p c.
  cbn [GameManager.playerRooms].
  set (room' := Room.removePlayer playerId room).
  assert (Hold : forall k, Spec.holds gm code k <->
                           JSMap.has k (Room.players room) = true).
  { intros k. unfold Spec.holds. rewrite Hroom. split.
    - intros (r0 & [= <-] & H). exact H.
    - intros H. now exists room. }
  assert (Hstay : JSMap.has p (Room.players room') = true <->
                  p <> playerId /\ Spec.holds gm code p).
  { unfold room'. rewrite removePlayer_has, Hold. reflexivity. }
  assert (Hother : c <> code ->
            (JSMap.get p (JSMap.delete playerId (GameManager.playerRooms gm))
               = Some c <-> Spec.holds gm c p)).
  { intros Hc. destruct (string_dec p playerId) as [-> | Hp].
    - rewrite get_delete_eq. split; [discriminate |].
      intros H. apply Hidx in H. congruence.
    - rewrite get_delete_neq by assumption. apply Hidx. }
  assert (Hsame : JSMap.get p (JSMap.delete playerId (GameManager.playerRooms gm))
                    = Some code <-> p <> playerId /\ Spec.holds gm code p).
  { destruct (string_dec p playerId) as [-> | Hp].
    - rewrite get_delete_eq. split; [discriminate | tauto].
    - rewrite get_delete_neq by assumption. rewrite (Hidx p code). tauto. }
  destruct (Nat.eqb (JSMap.size (Room.players room')) 0) eqn:Hempty.
  - apply Nat.eqb_eq in Hempty.
    destruct (string_dec c code) as [-> | Hc].
    + rewrite Hsame. split.
      * intros H. apply Hstay in H.
        rewrite (size_zero_has p _ Hempty) in H. discriminate.
      * intros H. now apply holds_delete_same in H.
    + rewrite (holds_delete_other _ _ _ _ _ (GameManager.playerRooms gm))
        by assumption.
      rewrite (holds_set_other _ _ _ _ _ _ (GameManager.playerRooms gm)),
        holds_index by assumption.
      now apply Hother.
  - destruct (string_dec c code) as [-> | Hc].
    + rewrite holds_set_same, Hsame. symmetry. exact Hstay.
    + rewrite (holds_set_other _ _ _ _ _ _ (GameManager.playerRooms gm)),
        holds_index by assumption.
      now apply Hother.
Qed.

Lemma step_index (gm : GameManager.t) (op : GameManager.Op) :
  Spec.index_agrees gm -> Spec.allowed gm op ->
  Spec.index_agrees (GameManager.step gm op).
Proof.
  intros Hidx Hok.
  destruct op as [rnd p n | rnd p n roomCode | p]; cbn [GameManager.step].
  - destruct Hok as [Hplayer Hcode]. now apply createRoom_index.
  - destruct Hok as [Hplayer Hcode]. unfold GameManager.joinRoom.
    destruct (GameManager.truthy roomCode);
      [now apply joinExisting_index |].
    destruct (GameManager.truthy (GameManager.findAvailableRoom gm));
      [now apply joinExisting_index |].
    apply (createRoom_index rnd p n gm); auto.
  - now apply removePlayer_index.
Qed.

Lemma run_index (ops : list GameManager.Op) (gm : GameManager.t) :
  Spec.index_agrees gm -> Spec.admissible gm ops ->
  Spec.index_agrees (GameManager.run ops gm).
Proof.
  revert gm. induction ops as [| op rest IH]; intros gm Hidx Hok; simpl.
  - exact Hidx.
  - destruct Hok as [Hop Hrest]. apply IH; [| exact Hrest].
    now apply step_index.
Qed.

Lemma new_index : Spec.index_agrees GameManager.new.
Proof.
  intros p c. unfold Spec.holds; simpl. split; [discriminate |].
  intros (room & H & _). discriminate.
Qed.

(** C7, as the code has it. Along any sequence of [createRoom], [joinRoom]
    and [removePlayer] calls in which every create or join is issued for a
    player the index does not place in a room, and every created room draws
    a code not in the registry, no player id is in the player map of two
    rooms and the player-to-room index is exactly room membership. *)
Theorem one_room_per_player (ops : list GameManager.Op) :
  Spec.admissible GameManager.new ops ->
  Spec.single_room (GameManager.run ops GameManager.new) /\
  Spec.index_agrees (GameManager.run ops GameManager.new).
Proof.
  intros Hok.
  assert (Hidx : Spec.index_agrees (GameManager.run ops GameManager.new))
    by (apply run_index; [apply new_index | exact Hok]).
  split; [now apply index_single | exact Hidx].
Qed.

End MembershipFacts.

Module MembershipExamples.
Import ColorUtils.

(** The hypothesis of [one_room_per_player] for Alice creating a room, Bob
    joining it by code, Carol joining any room, and Alice leaving. *)
Lemma one_room_per_player_witness :
  let rnd := GameManager.mkRandom 0 1 2 3 0 0 0 in
  let ops :=
    [GameManager.CreateRoom rnd "a" "Alice";
     GameManager.JoinRoom rnd "b" "Bob" (Some "ABCD"%string);
     GameManager.JoinRoom rnd "c" "Carol" None;
     GameManager.RemovePlayer "a"] in
  Spec.single_room (GameManager.run ops GameManager.new) /\
  Spec.index_agrees (GameManager.run ops GameManager.new).
Proof.
  intros rnd ops.
  apply (MembershipFacts.one_room_per_player ops).
  unfold ops. cbn [Spec.admissible Spec.allowed].
  repeat split; try reflexivity; discriminate.
Defined.

(** C7 fails as stated: a connection that creates two rooms is in the
    player map of both, and the index knows only the second. *)
Lemma player_in_two_rooms :
  let rndA := GameManager.mkRandom 0 0 0 0 0 0 0 in
  let rndB := GameManager.mkRandom 1 1 1 1 0 0 0 in
  let gm :=
    GameManager.run
      [GameManager.CreateRoom rndA "p" "Pat";
       GameManager.CreateRoom rndB "p" "Pat"]
      GameManager.new in
  Spec.holds gm "AAAA" "p" /\
  Spec.holds gm "BBBB" "p" /\
  JSMap.get "p" (GameManager.playerRooms gm) = Some "BBBB"%string /\
  ~ Spec.single_room gm /\
  ~ Spec.index_agrees gm.
Proof.
  intros rndA rndB gm.
  assert (HA : Spec.holds gm "AAAA" "p") by (eexists; split; reflexivity).
  assert (HB : Spec.holds gm "BBBB" "p") by (eexists; split; reflexivity).
  split; [exact HA |]. split; [exact HB |]. split; [reflexivity |]. split.
  - intros Hsingle. specialize (Hsingle "p"%string _ _ HA HB). discriminate.
  - intros Hidx. apply Hidx in HA. discriminate.
Qed.

End MembershipExamples.

(** * Further properties of the code *)

(** ** Colour distance and mixing *)

Module MixFacts.
Import ColorUtils JSFacts.










Lemma mix_channel_between (k1 k2 : Z) (w : R) :
  0 <= w <= 1 ->
  (Z.min k1 k2 <= JS.round (IZR k1 * (1 - w) + IZR k2 * w) <= Z.max k1 k2)%Z.
Proof.
  intros Hw. apply round_range.
  destruct (Z.le_ge_cases k1 k2) as [Hle | Hle].
  - rewrite Z.min_l, Z.max_r by assumption. apply IZR_le in Hle. split; nra.
  - rewrite Z.min_r, Z.max_l by assumption. apply IZR_le in Hle. split; nra.
Qed.

Lemma mix_channel_closer (k1 k2 : Z) (w : R) :
  0 <= w <= 1 ->
  let m := JS.round (IZR k1 * (1 - w) + IZR k2 * w) in
  (IZR m - IZR k2) * (IZR m - IZR k2)
  <= (IZR k1 - IZR k2) * (IZR k1 - IZR k2).
Proof.
  intros Hw m. pose proof (mix_channel_between k1 k2 w Hw) as [Hlo Hhi].
  fold m in Hlo, Hhi.
  destruct (Z.le_ge_cases k1 k2) as [Hle | Hle].
  - rewrite Z.min_l in Hlo by assumption. rewrite Z.max_r in Hhi by assumption.
    apply IZR_le in Hlo, Hhi, Hle. nra.
  - rewrite Z.min_r in Hlo by assumption. rewrite Z.max_l in Hhi by assumption.
    apply IZR_le in Hlo, Hhi, Hle. nra.
Qed.

(** X3. For a weight in [0,1] every channel of [mixColors c1 c2 w] lies
    between the corresponding channels of [c1] and [c2], and the mixed colour
    is at least as close to [c2] as [c1] was: a hit never moves a player's
    colour away from the colour that was hit. *)
Theorem mixColors_towards (c1 c2 : Color) (w : R) :
  0 <= w <= 1 ->
  let m := mixColors c1 c2 w in
  (Z.min (r c1) (r c2) <= r m <= Z.max (r c1) (r c2))%Z /\
  (Z.min (g c1) (g c2) <= g m <= Z.max (g c1) (g c2))%Z /\
  (Z.min (b c1) (b c2) <= b m <= Z.max (b c1) (b c2))%Z /\
  calculateColorDistance m c2 <= calculateColorDistance c1 c2.
Proof.
  intros Hw m. unfold m, mixColors; cbn [r g b].
  repeat split; try apply (mix_channel_between _ _ w Hw).
  unfold calculateColorDistance; cbn [r g b].
  apply sqrt_le_1_alt.
  pose proof (mix_channel_closer (r c1) (r c2) w Hw).
  pose proof (mix_channel_closer (g c1) (g c2) w Hw).
  pose proof (mix_channel_closer (b c1) (b c2) w Hw).
  cbv zeta in *. lra.
Qed.

(** The hypothesis of [mixColors_towards] at the weight of the game. *)
Lemma mixColors_towards_witness :
  calculateColorDistance
    (mixColors (mkColor 128 128 128) (mkColor 255 0 0) (3 / 10))
    (mkColor 255 0 0)
  <= calculateColorDistance (mkColor 128 128 128) (mkColor 255 0 0).
Proof.
  refine (proj2 (proj2 (proj2 (mixColors_towards
            (mkColor 128 128 128) (mkColor 255 0 0) (3 / 10) _)))).
  lra.
Defined.




End MixFacts.

(** ** HSL conversions: ranges and special cases *)

Module HslRangeFacts.
Import ColorUtils JSFacts HslFacts.

Lemma div_unit (u v : R) : 0 <= u <= v -> 0 < v -> 0 <= u / v <= 1.
Proof.
  intros [Hu Huv] Hv.
  assert (Hinv : 0 < / v) by now apply Rinv_0_lt_compat.
  unfold Rdiv. split; [nra |].
  replace 1 with (v * / v) by (field; lra). nra.
Qed.

Lemma div_signed_unit (u v : R) : - v <= u <= v -> 0 < v -> -1 <= u / v <= 1.
Proof.
  intros [Hlo Hhi] Hv.
  assert (Hinv : 0 < / v) by now apply Rinv_0_lt_compat.
  assert (Hone : v * / v = 1) by (field; lra).
  unfold Rdiv. split; nra.
Qed.

Lemma div_neg_strict (u v : R) : - v <= u < 0 -> 0 < v -> -1 <= u / v < 0.
Proof.
  intros [Hlo Hhi] Hv.
  assert (Hinv : 0 < / v) by now apply Rinv_0_lt_compat.
  assert (Hone : v * / v = 1) by (field; lra).
  unfold Rdiv. split; nra.
Qed.

(** The unrounded hue, saturation and lightness of [rgbToHsl] on channels
    in [0,1]. *)
Lemma rgbToHsl_unit (r0 g0 b0 : R) :
  0 <= r0 <= 255 -> 0 <= g0 <= 255 -> 0 <= b0 <= 255 ->
  (0 <= h (rgbToHsl r0 g0 b0) <= 360)%Z /\
  (0 <= s (rgbToHsl r0 g0 b0) <= 100)%Z /\
  (0 <= l (rgbToHsl r0 g0 b0) <= 100)%Z.
Proof.
  intros Hr Hg Hb. unfold rgbToHsl. cbv zeta.
  set (cr := r0 / 255). set (cg := g0 / 255). set (cb := b0 / 255).
  assert (Hcr : 0 <= cr <= 1) by (unfold cr; lra).
  assert (Hcg : 0 <= cg <= 1) by (unfold cg; lra).
  assert (Hcb : 0 <= cb <= 1) by (unfold cb; lra).
  set (mx := JS.max3 cr cg cb). set (mn := JS.min3 cr cg cb).
  assert (Hmx : cr <= mx /\ cg <= mx /\ cb <= mx /\ mx <= 1 /\
                (mx = cr \/ mx = cg \/ mx = cb)).
  { unfold mx, JS.max3, Rmax. repeat destruct (Rle_dec _ _); lra. }
  assert (Hmn : mn <= cr /\ mn <= cg /\ mn <= cb /\ 0 <= mn).
  { unfold mn, JS.min3, Rmin. repeat destruct (Rle_dec _ _); lra. }
  destruct Hmx as (Hx1 & Hx2 & Hx3 & Hx4 & Hx5).
  destruct Hmn as (Hn1 & Hn2 & Hn3 & Hn4).
  cbn [h s l].
  assert (Hl : (0 <= JS.round ((mx + mn) / 2 * 100) <= 100)%Z)
    by (apply round_range; lra).
  destruct (Req_dec_T mx mn) as [Heq | Hne].
  - cbn [fst snd].
    split; [apply round_range; lra | split; [apply round_range; lra | exact Hl]].
  - cbn [fst snd].
    assert (Hd : 0 < mx - mn) by lra.
    split; [| split; [| exact Hl]].
    + assert (Hhue : 0 <= (if Req_dec_T mx cr
                           then (cg - cb) / (mx - mn)
                                + (if Rlt_dec cg cb then 6 else 0)
                           else if Req_dec_T mx cg
                                then (cb - cr) / (mx - mn) + 2
                                else (cr - cg) / (mx - mn) + 4)
                      <= 6).
      { destruct (Req_dec_T mx cr) as [Hxr | Hxr].
        - destruct (Rlt_dec cg cb) as [Hlt | Hge].
          + pose proof (div_neg_strict (cg - cb) (mx - mn)
                          ltac:(lra) Hd). lra.
          + pose proof (div_unit (cg - cb) (mx - mn) ltac:(lra) Hd). lra.
        - destruct (Req_dec_T mx cg) as [Hxg | Hxg].
          + pose proof (div_signed_unit (cb - cr) (mx - mn)
                          ltac:(lra) Hd). lra.
          + pose proof (div_signed_unit (cr - cg) (mx - mn)
                          ltac:(lra) Hd). lra. }
      apply round_range. lra.
    + apply round_range.
      destruct (Rlt_dec (1 / 2) ((mx + mn) / 2)) as [Hhi | Hlo].
      * pose proof (div_unit (mx - mn) (2 - mx - mn) ltac:(lra) ltac:(lra)).
        lra.
      * pose proof (div_unit (mx - mn) (mx + mn) ltac:(lra) ltac:(lra)).
        lra.
Qed.

(** X5. For a colour with channels in [0,255], [rgbToHsl] returns a hue in
    [0,360], a saturation in [0,100] and a lightness in [0,100]. The hue
    bound is closed: a red with a trace of blue rounds up to 360. *)
Theorem rgbToHsl_range (c : Color) :
  valid_color c ->
  let out := rgbToHsl (IZR (r c)) (IZR (g c)) (IZR (b c)) in
  (0 <= h out <= 360)%Z /\ (0 <= s out <= 100)%Z /\ (0 <= l out <= 100)%Z.
Proof.
  intros (Hr & Hg & Hb) out. unfold channel_ok in *.
  apply rgbToHsl_unit; split; apply IZR_le; lia.
Qed.

(** The hypothesis of [rgbToHsl_range] at pure red. *)
Lemma rgbToHsl_range_witness :
  (0 <= h (rgbToHsl 255 0 0) <= 360)%Z /\
  (0 <= s (rgbToHsl 255 0 0) <= 100)%Z /\
  (0 <= l (rgbToHsl 255 0 0) <= 100)%Z.
Proof.
  apply (rgbToHsl_range (mkColor 255 0 0)).
  unfold valid_color, channel_ok; simpl; lia.
Defined.

(** The hue 360 is attained. *)
Example rgbToHsl_hue_360 : h (rgbToHsl 255 0 1) = 360%Z.
Proof.
  unfold rgbToHsl. cbv zeta.
  assert (Hmx : JS.max3 (255 / 255) (0 / 255) (1 / 255) = 255 / 255)
    by (unfold JS.max3, Rmax; repeat destruct (Rle_dec _ _); lra).
  assert (Hmn : JS.min3 (255 / 255) (0 / 255) (1 / 255) = 0 / 255)
    by (unfold JS.min3, Rmin; repeat destruct (Rle_dec _ _); lra).
  rewrite Hmx, Hmn. cbn [h].
  destruct (Req_dec_T (255 / 255) (0 / 255)) as [H | _]; [lra |].
  destruct (Req_dec_T (255 / 255) (255 / 255)) as [_ | H]; [| lra].
  destruct (Rlt_dec (0 / 255) (1 / 255)) as [_ | H]; [| lra].
  cbn [fst]. apply round_unique. lra.
Qed.



(** For a chromatic input, the channels before rounding lie between the
    [p] and [q] of the code, and both are attained. *)
Lemma hslChannels_extremes (h0 s0 l0 : R) :
  0 <= h0 < 360 -> 0 < s0 <= 100 -> 0 <= l0 <= 100 ->
  let q := if Rlt_dec (l0 / 100) (1 / 2)
           then l0 / 100 * (1 + s0 / 100)
           else l0 / 100 + s0 / 100 - l0 / 100 * (s0 / 100) in
  let p := 2 * (l0 / 100) - q in
  exists cr cg cb : R,
    hslChannels h0 s0 l0 = (cr, cg, cb) /\
    (cr = q \/ cg = q \/ cb = q) /\
    (cr = p \/ cg = p \/ cb = p).
Proof.
  intros Hh Hs Hl q p. unfold hslChannels.
  destruct (Req_dec_T (s0 / 100) 0) as [Hz | _]; [lra |].
  fold q. fold p. set (hh := h0 / 360).
  assert (Hhh : 0 <= hh < 1) by (unfold hh; lra).
  exists (hue2rgb p q (hh + 1 / 3)), (hue2rgb p q hh),
    (hue2rgb p q (hh - 1 / 3)).
  split; [reflexivity |].
  destruct (Rlt_dec hh (1 / 6)).
  { split; [left; apply hue2rgb_top; lra
           | right; right; apply hue2rgb_bottom_wrapped; lra]. }
  destruct (Rlt_dec hh (1 / 3)).
  { split; [right; left; apply hue2rgb_top; lra
           | right; right; apply hue2rgb_bottom_wrapped; lra]. }
  destruct (Rlt_dec hh (1 / 2)).
  { split; [right; left; apply hue2rgb_top; lra
           | left; apply hue2rgb_bottom; lra]. }
  destruct (Rlt_dec hh (2 / 3)).
  { split; [right; right; apply hue2rgb_top; lra
           | left; apply hue2rgb_bottom; lra]. }
  destruct (Rlt_dec hh (5 / 6)).
  { split; [right; right; apply hue2rgb_top; lra
           | right; left; apply hue2rgb_bottom; lra]. }
  split; [left; apply hue2rgb_top_wrapped; lra
         | right; left; apply hue2rgb_bottom; lra].
Qed.

Lemma floor_hue (u : R) : 0 <= u < 1 -> 0 <= IZR (JS.floor (u * 360)) < 360.
Proof.
  intros Hu. unfold JS.floor.
  pose proof (Zfloor_bound (u * 360)) as [Hlo Hhi].
  assert (H0 : (0 <= Zfloor (u * 360))%Z) by (apply Zfloor_lub; lra).
  apply IZR_le in H0. lra.
Qed.

(** X7. Whatever [Math.random()] returns, [generateRandomColor] yields a
    well-formed colour that is never close to grey: its largest and smallest
    channels differ by at least 142. *)
Theorem generateRandomColor_vivid (u1 u2 u3 : R) :
  0 <= u1 < 1 -> 0 <= u2 < 1 -> 0 <= u3 < 1 ->
  let c := generateRandomColor u1 u2 u3 in
  valid_color c /\
  (142 <= Z.max (r c) (Z.max (g c) (b c))
          - Z.min (r c) (Z.min (g c) (b c)))%Z.
Proof.
  intros H1 H2 H3 c. unfold c, generateRandomColor. cbv zeta.
  pose proof (floor_hue u1 H1) as Hhue.
  split; [apply hslToRgb_valid; lra |].
  destruct (hslChannels_extremes (IZR (JS.floor (u1 * 360)))
              (70 + u2 * 30) (40 + u3 * 20) Hhue ltac:(lra) ltac:(lra))
    as (cr & cg & cb & Heq & Htop & Hbot).
  cbv zeta in Htop, Hbot.
  set (q := if Rlt_dec ((40 + u3 * 20) / 100) (1 / 2)
            then (40 + u3 * 20) / 100 * (1 + (70 + u2 * 30) / 100)
            else (40 + u3 * 20) / 100 + (70 + u2 * 30) / 100
                 - (40 + u3 * 20) / 100 * ((70 + u2 * 30) / 100)) in *.
  set (p := 2 * ((40 + u3 * 20) / 100) - q) in *.
  assert (Hspread : 56 / 100 <= q - p).
  { unfold p, q. destruct (Rlt_dec _ _); nra. }
  unfold hslToRgb. rewrite Heq. cbn [r g b].
  pose proof (round_bounds (q * 255)) as Hq.
  pose proof (round_bounds (p * 255)) as Hp.
  assert (Hgap : (142 <= JS.round (q * 255) - JS.round (p * 255))%Z).
  { assert (Hlt : (141 < JS.round (q * 255) - JS.round (p * 255))%Z);
      [| lia].
    apply lt_IZR. rewrite minus_IZR. lra. }
  assert (Ht : JS.round (cr * 255) = JS.round (q * 255) \/
               JS.round (cg * 255) = JS.round (q * 255) \/
               JS.round (cb * 255) = JS.round (q * 255))
    by (destruct Htop as [E | [E | E]]; rewrite E; auto).
  assert (Hb : JS.round (cr * 255) = JS.round (p * 255) \/
               JS.round (cg * 255) = JS.round (p * 255) \/
               JS.round (cb * 255) = JS.round (p * 255))
    by (destruct Hbot as [E | [E | E]]; rewrite E; auto).
  destruct Ht as [Et | [Et | Et]]; destruct Hb as [Eb | [Eb | Eb]]; lia.
Qed.

(** The hypotheses of [generateRandomColor_vivid] at three draws of 1/2. *)
Lemma generateRandomColor_vivid_witness :
  valid_color (generateRandomColor (1 / 2) (1 / 2) (1 / 2)).
Proof.
  apply (generateRandomColor_vivid (1 / 2) (1 / 2) (1 / 2)); lra.
Defined.

End HslRangeFacts.

(** ** Hexadecimal notation *)

Module HexFacts.
Import ColorUtils JSFacts.

(** The 256 two-digit components, checked one by one. *)
Lemma componentToHex_table :
  List.forallb
    (fun n =>
       match ColorHex.componentToHex (Z.of_nat n) with
       | String hi (String lo EmptyString) =>
           match ColorHex.parsePair hi lo with
           | Some v => Z.eqb v (Z.of_nat n)
           | None => false
           end
       | _ => false
       end)
    (List.seq 0 256) = true.
Proof. vm_compute. reflexivity. Qed.

Lemma componentToHex_parse (k : Z) :
  channel_ok k ->
  exists hi lo,
    ColorHex.componentToHex k = String hi (String lo EmptyString) /\
    ColorHex.parsePair hi lo = Some k.
Proof.
  intros [Hlo Hhi].
  pose proof componentToHex_table as Htable.
  rewrite List.forallb_forall in Htable.
  specialize (Htable (Z.to_nat k)).
  rewrite Z2Nat.id in Htable by assumption.
  assert (Hin : In (Z.to_nat k) (List.seq 0 256)) by (apply List.in_seq; lia).
  specialize (Htable Hin).
  destruct (ColorHex.componentToHex k) as [| hi [| lo [| ? ?]]];
    try discriminate.
  destruct (ColorHex.parsePair hi lo) as [v |] eqn:Hparse; [| discriminate].
  apply Z.eqb_eq in Htable. subst v. now exists hi, lo.
Qed.

(** Every character that is a hexadecimal digit has a value below 16. *)
Lemma ascii_to_digit_table :
  List.forallb
    (fun n =>
       match HexString.ascii_to_digit (ascii_of_nat n) with
       | Some d => N.ltb d 16
       | None => true
       end)
    (List.seq 0 256) = true.
Proof. vm_compute. reflexivity. Qed.

Lemma ascii_to_digit_bound (c : ascii) (d : N) :
  HexString.ascii_to_digit c = Some d -> (d < 16)%N.
Proof.
  intros H. pose proof ascii_to_digit_table as Htable.
  rewrite List.forallb_forall in Htable.
  specialize (Htable (nat_of_ascii c)).
  rewrite ascii_nat_embedding, H in Htable.
  apply N.ltb_lt, Htable, List.in_seq.
  pose proof (nat_ascii_bounded c). lia.
Qed.

Lemma parsePair_bound (hi lo : ascii) (v : Z) :
  ColorHex.parsePair hi lo = Some v -> channel_ok v.
Proof.
  unfold ColorHex.parsePair.
  destruct (HexString.ascii_to_digit hi) as [dh |] eqn:Hh; [| discriminate].
  destruct (HexString.ascii_to_digit lo) as [dl |] eqn:Hl; [| discriminate].
  remember (16 * Z.of_N dh + Z.of_N dl)%Z as w eqn:Hw.
  intros [= <-]. apply ascii_to_digit_bound in Hh, Hl.
  unfold channel_ok. lia.
Qed.

Lemma strip_hash (hex : string) :
  let digits :=
    match hex with
    | String "#"%char rest => rest
    | other => other
    end in
  hex = digits \/ hex = String "#" digits.
Proof.
  destruct hex as [| c rest]; [now left |].
  destruct c as [[] [] [] [] [] [] [] []]; simpl; auto.
Qed.

Lemma hexToRgb_shape (hex : string) (c : Color) :
  ColorHex.hexToRgb hex = Some c ->
  valid_color c /\ (String.length hex = 6 \/ String.length hex = 7)%nat.
Proof.
  unfold ColorHex.hexToRgb. pose proof (strip_hash hex) as Hstrip.
  cbv zeta in Hstrip.
  set (digits := match hex with
                 | String "#"%char rest => rest
                 | other => other
                 end) in *.
  destruct digits as [| r1 [| r2 [| g1 [| g2 [| b1 [| b2 [| ? ?]]]]]]];
    try discriminate.
  destruct (ColorHex.parsePair r1 r2) as [cr |] eqn:Hr; [| discriminate].
  destruct (ColorHex.parsePair g1 g2) as [cg |] eqn:Hg; [| discriminate].
  destruct (ColorHex.parsePair b1 b2) as [cb |] eqn:Hb; [| discriminate].
  intros [= <-]. split.
  - unfold valid_color; cbn [r g b].
    repeat split; eapply parsePair_bound; eassumption.
  - destruct Hstrip as [-> | ->]; simpl; auto.
Qed.

Lemma rgbToHex_parse (c : Color) :
  valid_color c -> ColorHex.hexToRgb (ColorHex.rgbToHex c) = Some c.
Proof.
  intros (Hr & Hg & Hb). unfold ColorHex.rgbToHex.
  destruct (componentToHex_parse _ Hr) as (r1 & r2 & -> & Hpr).
  destruct (componentToHex_parse _ Hg) as (g1 & g2 & -> & Hpg).
  destruct (componentToHex_parse _ Hb) as (b1 & b2 & -> & Hpb).
  cbn [String.append ColorHex.hexToRgb].
  rewrite Hpr, Hpg, Hpb. now destruct c.
Qed.

(** X8. [hexToRgb] undoes [rgbToHex] exactly on the well-formed colours:
    for channels in [0,255] the round trip returns the colour, and for any
    other colour [rgbToHex] prints a string that [hexToRgb] does not give
    back as that colour. Whatever [hexToRgb] accepts has 6 or 7 characters
    and parses to a well-formed colour. *)
Theorem hex_round_trip (c : Color) (hex : string) :
  (ColorHex.hexToRgb (ColorHex.rgbToHex c) = Some c <-> valid_color c) /\
  (forall parsed,
      ColorHex.hexToRgb hex = Some parsed ->
      valid_color parsed /\
      (String.length hex = 6 \/ String.length hex = 7)%nat).
Proof.
  split.
  - split; [| apply rgbToHex_parse].
    intros H. now apply hexToRgb_shape in H.
  - intros parsed. apply hexToRgb_shape.
Qed.

(** [Math.round(clamp(c, 0, 255))] on an integer channel. *)
Lemma round_clamp (k : Z) :
  JS.round (Helpers.clamp (IZR k) 0 255) = Z.min (Z.max k 0) 255.
Proof.
  unfold Helpers.clamp, Rmin, Rmax.
  destruct (Rle_dec (IZR k) 0) as [H0 | H0].
  - apply le_IZR in H0.
    destruct (Rle_dec 0 255); [| lra].
    rewrite Z.max_r, Z.min_l by lia. apply round_IZR.
  - apply Rnot_le_lt, lt_IZR in H0.
    rewrite Z.max_l by lia.
    destruct (Rle_dec (IZR k) 255) as [H1 | H1].
    + apply le_IZR in H1. rewrite Z.min_l by lia. apply round_IZR.
    + apply Rnot_le_lt, lt_IZR in H1. rewrite Z.min_r by lia.
      apply round_IZR.
Qed.

(** X9. The client [rgbToHex] clamps before printing, so its output always
    parses: [hexToRgb] returns the colour with every channel clamped to
    [0,255], for any integer channels at all. *)
Theorem client_rgbToHex_parses (c : Color) :
  ColorHex.hexToRgb (ClientColorUtils.rgbToHex c)
  = Some {| r := Z.min (Z.max (r c) 0) 255;
            g := Z.min (Z.max (g c) 0) 255;
            b := Z.min (Z.max (b c) 0) 255 |}.
Proof.
  unfold ClientColorUtils.rgbToHex, ClientColorUtils.componentToHex.
  rewrite !round_clamp.
  change (ColorHex.hexToRgb
            (ColorHex.rgbToHex
               {| r := Z.min (Z.max (r c) 0) 255;
                  g := Z.min (Z.max (g c) 0) 255;
                  b := Z.min (Z.max (b c) 0) 255 |})
          = Some {| r := Z.min (Z.max (r c) 0) 255;
                    g := Z.min (Z.max (g c) 0) 255;
                    b := Z.min (Z.max (b c) 0) 255 |}).
  apply rgbToHex_parse. unfold valid_color, channel_ok; cbn [r g b]. lia.
Qed.

End HexFacts.

(** ** Room codes *)

Module CodeFacts.

(** Every index below 36 selects one character of the class [[A-Z0-9]], and
    different indices select different characters. *)
Lemma charAt_table :
  List.forallb
    (fun i =>
       match Utils.charAt i Utils.chars with
       | String c EmptyString =>
           Helpers.isUpperAlnum c &&
           List.forallb
             (fun j =>
                Nat.eqb i j ||
                negb (String.eqb (Utils.charAt i Utils.chars)
                        (Utils.charAt j Utils.chars)))
             (List.seq 0 36)
       | _ => false
       end)
    (List.seq 0 36) = true.
Proof. vm_compute. reflexivity. Qed.

Lemma charAt_spec (i : nat) :
  (i < 36)%nat ->
  exists c,
    Utils.charAt i Utils.chars = String c EmptyString /\
    Helpers.isUpperAlnum c = true /\
    forall j, (j < 36)%nat ->
              Utils.charAt j Utils.chars = String c EmptyString -> i = j.
Proof.
  intros Hi. pose proof charAt_table as Htable.
  rewrite List.forallb_forall in Htable.
  specialize (Htable i ltac:(apply List.in_seq; lia)).
  destruct (Utils.charAt i Utils.chars) as [| c [| ? ?]] eqn:Hc;
    try discriminate.
  apply andb_true_iff in Htable. destruct Htable as [Hclass Hinj].
  exists c. split; [reflexivity |]. split; [exact Hclass |].
  intros j Hj Hcj. rewrite List.forallb_forall in Hinj.
  specialize (Hinj j ltac:(apply List.in_seq; lia)).
  rewrite Hcj, String.eqb_refl in Hinj. simpl in Hinj.
  rewrite orb_false_r in Hinj. now apply Nat.eqb_eq.
Qed.

(** X10. For indices below 36, the only values
    [Math.floor(Math.random() * 36)] takes, [generateRoomCode] returns four
    characters that pass [isValidRoomCode], and two draws give the same code
    only when they are the same four indices. *)
Theorem generateRoomCode_valid (i0 i1 i2 i3 : nat) :
  (i0 < 36)%nat -> (i1 < 36)%nat -> (i2 < 36)%nat -> (i3 < 36)%nat ->
  String.length (Utils.generateRoomCode i0 i1 i2 i3) = 4%nat /\
  Helpers.isValidRoomCode (Utils.generateRoomCode i0 i1 i2 i3) = true /\
  (forall j0 j1 j2 j3,
      (j0 < 36)%nat -> (j1 < 36)%nat -> (j2 < 36)%nat -> (j3 < 36)%nat ->
      Utils.generateRoomCode j0 j1 j2 j3 = Utils.generateRoomCode i0 i1 i2 i3 ->
      j0 = i0 /\ j1 = i1 /\ j2 = i2 /\ j3 = i3).
Proof.
  intros H0 H1 H2 H3.
  destruct (charAt_spec i0 H0) as (c0 & E0 & A0 & I0).
  destruct (charAt_spec i1 H1) as (c1 & E1 & A1 & I1).
  destruct (charAt_spec i2 H2) as (c2 & E2 & A2 & I2).
  destruct (charAt_spec i3 H3) as (c3 & E3 & A3 & I3).
  assert (Hcode : Utils.generateRoomCode i0 i1 i2 i3
                  = String c0 (String c1 (String c2 (String c3 EmptyString)))).
  { unfold Utils.generateRoomCode. cbn [List.fold_left].
    now rewrite E0, E1, E2, E3. }
  rewrite Hcode. split; [reflexivity |]. split.
  - unfold Helpers.isValidRoomCode. cbn. now rewrite A0, A1, A2, A3.
  - intros j0 j1 j2 j3 J0 J1 J2 J3 Heq.
    destruct (charAt_spec j0 J0) as (d0 & F0 & _).
    destruct (charAt_spec j1 J1) as (d1 & F1 & _).
    destruct (charAt_spec j2 J2) as (d2 & F2 & _).
    destruct (charAt_spec j3 J3) as (d3 & F3 & _).
    unfold Utils.generateRoomCode in Heq. cbn [List.fold_left] in Heq.
    rewrite F0, F1, F2, F3 in Heq. cbn in Heq.
    injection Heq as -> -> -> ->.
    repeat split; symmetry; auto.
Qed.

(** The hypotheses of [generateRoomCode_valid] at the draw 0, 1, 2, 3. *)
Lemma generateRoomCode_valid_witness :
  Helpers.isValidRoomCode (Utils.generateRoomCode 0 1 2 3) = true.
Proof.
  apply (generateRoomCode_valid 0 1 2 3); lia.
Defined.

End CodeFacts.

(** ** Numeric helpers and throw physics *)

Module PhysicsFacts.
Import JSFacts.










End PhysicsFacts.

(** ** Coherence of a room *)

Module RoomFacts.
Import ColorUtils JSMapFacts.

Section MoreLookup.
Context {V : Type}.
Implicit Types (k : string) (v : V) (m : JSMap.t V).

Lemma get_has k v m : JSMap.get k m = Some v -> JSMap.has k m = true.
Proof. unfold JSMap.has. now intros ->. Qed.

Lemma has_get k m : JSMap.has k m = true -> exists v, JSMap.get k m = Some v.
Proof.
  unfold JSMap.has. destruct (JSMap.get k m) as [v |]; [| discriminate].
  intros _. now exists v.
Qed.

Lemma has_same_keys k m (m' : JSMap.t V) :
  JSMap.keys m' = JSMap.keys m ->
  JSMap.has k m' = true <-> JSMap.has k m = true.
Proof. intros H. now rewrite !has_keys, H. Qed.

Lemma size_keys m : JSMap.size m = List.length (JSMap.keys m).
Proof. unfold JSMap.size, JSMap.keys. now rewrite List.length_map. Qed.

Lemma keys_update_first (f : V -> V) m :
  JSMap.keys (JSMap.update_first f m) = JSMap.keys m.
Proof. now destruct m as [| [k v] m]. Qed.

Lemma keys_delete k m :
  JSMap.keys (JSMap.delete k m)
  = List.filter (fun i => negb (String.eqb i k)) (JSMap.keys m).
Proof.
  induction m as [| [k' v'] m IH]; simpl; [reflexivity |].
  rewrite (String.eqb_sym k' k).
  destruct (String.eqb k k'); simpl; now rewrite IH.
Qed.

Lemma size_delete_le k m : (JSMap.size (JSMap.delete k m) <= JSMap.size m)%nat.
Proof.
  rewrite !size_keys, keys_delete. apply List.filter_length_le.
Qed.

Lemma In_get k v m :
  NoDup (JSMap.keys m) -> In (k, v) m -> JSMap.get k m = Some v.
Proof.
  induction m as [| [k' v'] m IH]; simpl; [contradiction |].
  intros Hnd Hin. inversion Hnd as [| ? ? Hnotin Hnd']; subst.
  destruct Hin as [[= -> ->] | Hin].
  - now rewrite String.eqb_refl.
  - destruct (String.eqb_spec k k') as [-> | Hne]; [| now apply IH].
    exfalso. apply Hnotin. unfold JSMap.keys.
    change k' with (fst (k', v)). now apply List.in_map.
Qed.

Lemma values_get v m :
  NoDup (JSMap.keys m) -> In v (JSMap.values m) ->
  exists k, JSMap.get k m = Some v.
Proof.
  intros Hnd Hin. unfold JSMap.values in Hin.
  apply List.in_map_iff in Hin. destruct Hin as ([k v0] & Heq & Hin).
  simpl in Heq. subst v0. exists k. now apply In_get.
Qed.

Lemma get_values k v m : JSMap.get k m = Some v -> In v (JSMap.values m).
Proof.
  intros H. apply get_In in H. unfold JSMap.values.
  change v with (snd (k, v)). now apply List.in_map.
Qed.

End MoreLookup.

(** The colour loop of [startGame] adds only the ids of the visited
    players. *)
Lemma reset_colors_has (visited : list Room.Player) (colors : JSMap.t Color)
    (k : string) :
  JSMap.has k
    (List.fold_left
       (fun acc player => JSMap.set (Room.id player) Room.neutral acc)
       visited colors) = true ->
  JSMap.has k colors = true \/
  exists player, In player visited /\ Room.id player = k.
Proof.
  revert colors. induction visited as [| p rest IH]; intros colors H; simpl in H.
  - now left.
  - apply IH in H. destruct H as [H | (q & Hq & Hid)].
    + apply has_set in H. destruct H as [-> | H]; [| now left].
      right. exists p. split; [now left | reflexivity].
    + right. exists q. split; [now right | exact Hid].
Qed.

Lemma turn_reset (n : nat) (order : list string) :
  exists n',
    (if JS.ige (JS.Num n) (List.length order) then JS.Num 0 else JS.Num n)
    = JS.Num n' /\
    ((n' < List.length order)%nat \/ (order = [] /\ n' = 0%nat)).
Proof.
  cbn [JS.ige]. destruct (Nat.leb_spec (List.length order) n) as [Hle | Hlt].
  - exists 0%nat. split; [reflexivity |].
    destruct order; [now right | left; simpl; lia].
  - exists n. split; [reflexivity | now left].
Qed.

(** The room [new Room(...)] builds is coherent. *)
Lemma new_ok (code hostId hostName : string) (u1 u2 u3 : R) :
  Inv.room_ok (Room.new code hostId hostName u1 u2 u3).
Proof.
  unfold Room.new, Room.addPlayer. cbn [fst].
  constructor; cbn.
  - repeat constructor. intros [].
  - intros k p. destruct (String.eqb_spec k hostId); [| discriminate].
    intros [= <-]. now subst.
  - intros k p. destruct (String.eqb_spec k hostId); [| discriminate].
    now intros [= <-].
  - unfold JSMap.has; cbn. intros k. now destruct (String.eqb k hostId).
  - intros k p. destruct (String.eqb_spec k hostId); [| discriminate].
    intros [= <-]. cbn. rewrite String.eqb_refl. tauto.
  - intros _. unfold JSMap.has; cbn. now rewrite String.eqb_refl.
  - reflexivity.
  - exists 0%nat. split; [reflexivity | now right].
Qed.

(** [addPlayer] keeps a waiting, non-empty room coherent. *)
Lemma addPlayer_ok (playerId playerName : string) (room : Room.t) :
  Inv.room_ok room -> Room.gameState room = Room.waiting ->
  Room.players room <> [] ->
  Inv.room_ok (fst (Room.addPlayer playerId playerName room)).
Proof.
  intros [Hu Hid Hcol Honly Hflag Hmem Hord Hturn] Hwait Hne.
  unfold Room.addPlayer. cbn [fst].
  constructor;
    cbn [Room.players Room.playerColors Room.hostId Room.gameState
         Room.turnOrder Room.currentTurn Room.set_players
         Room.set_playerColors Room.currentColor].
  - now apply NoDup_keys_set.
  - intros k p. destruct (string_dec k playerId) as [-> | Hk].
    + rewrite get_set_eq. now intros [= <-].
    + rewrite get_set_neq by assumption. apply Hid.
  - intros k p. destruct (string_dec k playerId) as [-> | Hk].
    + rewrite !get_set_eq. now intros [= <-].
    + rewrite !get_set_neq by assumption. apply Hcol.
  - intros k. rewrite !has_set. intros [-> | H]; [now left |].
    right. now apply Honly.
  - intros k p. destruct (string_dec k playerId) as [-> | Hk].
    + rewrite get_set_eq. intros [= <-]. cbn. apply String.eqb_eq.
    + rewrite get_set_neq by assumption. apply Hflag.
  - intros _. apply has_set. right. now apply Hmem.
  - unfold Inv.order_ok in *.
    cbn [Room.gameState Room.turnOrder Room.set_players Room.set_playerColors].
    now rewrite Hwait in *.
  - exact Hturn.
Qed.

(** What [Room.removePlayer] leaves in each field. *)
Lemma removePlayer_fields (playerId : string) (room : Room.t) :
  let room' := Room.removePlayer playerId room in
  let remaining := JSMap.delete playerId (Room.players room) in
  let order :=
    List.filter (fun i => negb (String.eqb i playerId)) (Room.turnOrder room) in
  Room.roomCode room' = Room.roomCode room /\
  Room.gameState room' = Room.gameState room /\
  Room.targetColor room' = Room.targetColor room /\
  Room.gameSettings room' = Room.gameSettings room /\
  Room.throws room' = Room.throws room /\
  Room.playerColors room' = JSMap.delete playerId (Room.playerColors room) /\
  Room.turnOrder room' = order /\
  Room.currentTurn room'
    = (if JS.ige (Room.currentTurn room) (List.length order)
       then JS.Num 0 else Room.currentTurn room) /\
  ((playerId = Room.hostId room /\
    exists k0 p0 rest,
      remaining = (k0, p0) :: rest /\
      Room.players room' = (k0, Room.set_isHost true p0) :: rest /\
      Room.hostId room' = Room.id p0) \/
   ((playerId <> Room.hostId room \/ remaining = []) /\
    Room.players room' = remaining /\
    Room.hostId room' = Room.hostId room)).
Proof.
  cbv zeta. unfold Room.removePlayer. cbv zeta.
  cbn [Room.players Room.set_players Room.set_playerColors Room.hostId
       Room.turnOrder Room.currentTurn].
  destruct (JSMap.delete playerId (Room.players room))
    as [| [k0 p0] rest] eqn:Hrem.
  - cbn [JSMap.values List.map].
    cbn [Room.turnOrder Room.set_turnOrder Room.currentTurn
         Room.set_players Room.set_playerColors].
    destruct (JS.ige _ _); cbn; rewrite ?Hrem;
      repeat split; right; repeat split; now right.
  - cbn [JSMap.values List.map snd].
    destruct (String.eqb_spec playerId (Room.hostId room)) as [Heq | Hne].
    + cbn [Room.turnOrder Room.set_turnOrder Room.currentTurn
           Room.set_players Room.set_playerColors Room.set_hostId
           Room.players JSMap.update_first].
      destruct (JS.ige _ _); cbn; repeat split; left;
        (split; [exact Heq | exists k0, p0, rest; repeat split]).
    + cbn [Room.turnOrder Room.set_turnOrder Room.currentTurn
           Room.set_players Room.set_playerColors].
      destruct (JS.ige _ _); cbn; rewrite ?Hrem;
        repeat split; right; repeat split; now left.
Qed.

Lemma removePlayer_keys (playerId : string) (room : Room.t) :
  JSMap.keys (Room.players (Room.removePlayer playerId room))
  = JSMap.keys (JSMap.delete playerId (Room.players room)).
Proof.
  destruct (removePlayer_fields playerId room)
    as (_ & _ & _ & _ & _ & _ & _ & _ & Hplayers).
  destruct Hplayers as [(_ & k0 & p0 & rest & Hr & -> & _) | (_ & -> & _)];
    [now rewrite Hr | reflexivity].
Qed.

(** [removePlayer] keeps a room coherent. *)
Lemma removePlayer_ok (playerId : string) (room : Room.t) :
  Inv.room_ok room -> Inv.room_ok (Room.removePlayer playerId room).
Proof.
  intros [Hu Hid Hcol Honly Hflag Hmem Hord Hturn].
  destruct (removePlayer_fields playerId room)
    as (_ & Hstate & _ & _ & _ & Hcolors & Horder & Hcur & Hplayers).
  set (room' := Room.removePlayer playerId room) in *.
  set (remaining := JSMap.delete playerId (Room.players room)) in *.
  assert (Hrem_get : forall k p,
             JSMap.get k remaining = Some p ->
             k <> playerId /\ JSMap.get k (Room.players room) = Some p).
  { intros k p H. destruct (string_dec k playerId) as [-> | Hk].
    - unfold remaining in H. rewrite get_delete_eq in H. discriminate.
    - unfold remaining in H. rewrite get_delete_neq in H by assumption.
      now split. }
  assert (Hkeys : JSMap.keys (Room.players room') = JSMap.keys remaining).
  { destruct Hplayers as [(_ & k0 & p0 & rest & Hr & -> & _) | (_ & -> & _)];
      [now rewrite Hr | reflexivity]. }
  assert (Hget' : forall k p',
             JSMap.get k (Room.players room') = Some p' ->
             exists p, JSMap.get k remaining = Some p /\
                       Room.id p' = Room.id p /\
                       Room.currentColor p' = Room.currentColor p /\
                       (p' = p \/
                        (exists rest, remaining = (k, p) :: rest) /\
                        p' = Room.set_isHost true p)).
  { intros k p' H.
    destruct Hplayers as [(_ & k0 & p0 & rest & Hr & Hp & _) | (_ & Hp & _)].
    - rewrite Hp in H. rewrite Hr. cbn [JSMap.get] in *.
      destruct (String.eqb_spec k k0) as [-> | Hk].
      + injection H as <-. exists p0. repeat split.
        right. split; [now exists rest | reflexivity].
      + exists p'. repeat split; auto.
    - rewrite Hp in H. exists p'. repeat split; auto. }
  constructor.
  - rewrite Hkeys. now apply NoDup_keys_delete.
  - intros k p' H. destruct (Hget' k p' H) as (p & Hp & Hi & _).
    rewrite Hi. apply Hrem_get in Hp. now apply Hid.
  - intros k p' H. destruct (Hget' k p' H) as (p & Hp & _ & Hc & _).
    rewrite Hc, Hcolors. apply Hrem_get in Hp. destruct Hp as [Hk Hp].
    rewrite get_delete_neq by assumption. now apply Hcol.
  - intros k H. rewrite Hcolors in H. apply has_delete in H.
    destruct H as [Hk H]. apply (has_same_keys k remaining _ Hkeys).
    apply has_delete. split; [exact Hk | now apply Honly].
  - intros k p' H. destruct (Hget' k p' H) as (p & Hp & _ & _ & Hcase).
    pose proof (Hrem_get k p Hp) as [Hk Hold].
    destruct Hplayers as [(Hhost & k0 & p0 & rest & Hr & Hpl & Hh)
                         | (Hwhy & Hpl & Hh)].
    + rewrite Hh.
      assert (Hk0 : Room.id p0 = k0).
      { apply (Hid k0 p0). apply (Hrem_get k0 p0).
        rewrite Hr. cbn. now rewrite String.eqb_refl. }
      rewrite Hk0. rewrite Hpl in H. cbn [JSMap.get] in H.
      destruct (String.eqb_spec k k0) as [-> | Hkk].
      * injection H as <-. cbn. tauto.
      * split; [| intros; contradiction].
        intros Hflagged. exfalso. apply Hk.
        rewrite Hr in Hp. cbn [JSMap.get] in Hp.
        destruct (String.eqb_spec k k0); [contradiction |].
        assert (p' = p) by congruence. subst p'.
        rewrite Hhost. now apply (Hflag k p).
    + rewrite Hh. rewrite Hpl in H.
      assert (p' = p) by congruence. subst p'. now apply Hflag.
  - intros Hne.
    destruct Hplayers as [(Hhost & k0 & p0 & rest & Hr & Hpl & Hh)
                         | (Hwhy & Hpl & Hh)].
    + rewrite Hh, Hpl.
      assert (Hk0 : Room.id p0 = k0).
      { apply (Hid k0 p0). apply (Hrem_get k0 p0).
        rewrite Hr. cbn. now rewrite String.eqb_refl. }
      rewrite Hk0. unfold JSMap.has. cbn. now rewrite String.eqb_refl.
    + rewrite Hh, Hpl. rewrite Hpl in Hne.
      destruct Hwhy as [Hwhy | Hwhy]; [| contradiction].
      apply has_delete. split; [congruence |]. apply Hmem.
      intros Hempty. apply Hne. unfold remaining. now rewrite Hempty.
  - unfold Inv.order_ok in *. rewrite Hstate, Horder, Hkeys.
    destruct (Room.gameState room); rewrite Hord.
    + reflexivity.
    + unfold remaining. now rewrite keys_delete.
    + unfold remaining. now rewrite keys_delete.
  - unfold Inv.turn_ok in *. destruct Hturn as (n & Hn & _).
    rewrite Hcur, Horder, Hn. apply turn_reset.
Qed.

(** [startGame] keeps a room coherent, whatever its phase. *)
Lemma startGame_ok (target : Color) (room : Room.t) :
  Inv.room_ok room -> Inv.room_ok (Room.startGame target room).
Proof.
  intros [Hu Hid Hcol Honly Hflag Hmem Hord Hturn].
  assert (Hkeys : JSMap.keys (JSMap.map_values Room.resetPlayer
                                (Room.players room))
                  = JSMap.keys (Room.players room))
    by apply keys_map_values.
  assert (Hget : forall k p',
             JSMap.get k (JSMap.map_values Room.resetPlayer (Room.players room))
               = Some p' ->
             exists p, JSMap.get k (Room.players room) = Some p /\
                       p' = Room.resetPlayer p).
  { intros k p' H. rewrite get_map_values in H.
    destruct (JSMap.get k (Room.players room)) as [p |]; [| discriminate].
    injection H as <-. now exists p. }
  unfold Room.startGame.
  constructor;
    cbn [Room.players Room.playerColors Room.hostId Room.gameState
         Room.turnOrder Room.currentTurn Room.set_players
         Room.set_playerColors Room.set_gameState Room.set_targetColor
         Room.set_turnOrder Room.set_currentTurn Room.set_throws].
  - now rewrite Hkeys.
  - intros k p' H. destruct (Hget k p' H) as (p & Hp & ->).
    cbn. now apply Hid.
  - intros k p' H. destruct (Hget k p' H) as (p & Hp & ->).
    cbn [Room.resetPlayer Room.currentColor Room.set_score
         Room.set_currentColor].
    rewrite <- (Hid k p Hp).
    apply StartFacts.reset_colors_sets. now apply (get_values k).
  - intros k H. apply (has_same_keys k _ _ Hkeys).
    apply reset_colors_has in H. destruct H as [H | (p & Hp & <-)].
    + now apply Honly.
    + destruct (values_get p _ Hu Hp) as (k' & Hk').
      rewrite (Hid k' p Hk'). now apply (get_has k' p).
  - intros k p' H. destruct (Hget k p' H) as (p & Hp & ->).
    cbn. now apply Hflag.
  - intros Hne. apply (has_same_keys _ _ _ Hkeys). apply Hmem.
    intros Hempty. apply Hne. now rewrite Hempty.
  - unfold Inv.order_ok.
    cbn [Room.players Room.gameState Room.turnOrder Room.set_players
         Room.set_playerColors Room.set_gameState Room.set_targetColor
         Room.set_turnOrder Room.set_currentTurn Room.set_throws].
    now rewrite Hkeys.
  - exists 0%nat. split; [reflexivity |]. cbn.
    destruct (JSMap.keys (Room.players room)); [now right | left; simpl; lia].
Qed.

(** The current player of a coherent room is one of its players, and the
    room is not waiting. *)
Lemma current_member (room : Room.t) (playerId : string) :
  Inv.room_ok room -> Room.getCurrentPlayer room = Some playerId ->
  Room.gameState room <> Room.waiting /\
  Room.turnOrder room = JSMap.keys (Room.players room) /\
  (exists n, Room.currentTurn room = JS.Num n /\
             (n < List.length (Room.turnOrder room))%nat) /\
  exists player, JSMap.get playerId (Room.players room) = Some player.
Proof.
  intros [Hu Hid Hcol Honly Hflag Hmem Hord Hturn] Hcur.
  unfold Room.getCurrentPlayer in Hcur.
  destruct (Room.turnOrder room) as [| a rest] eqn:Horder; [discriminate |].
  destruct (Room.currentTurn room) as [n |] eqn:Hn; [| discriminate].
  assert (Hstate : Room.gameState room <> Room.waiting).
  { intros Hw. unfold Inv.order_ok in Hord. rewrite Hw, Horder in Hord.
    discriminate. }
  assert (Hkeys : a :: rest = JSMap.keys (Room.players room)).
  { unfold Inv.order_ok in Hord. rewrite Horder in Hord.
    destruct (Room.gameState room); [contradiction | exact Hord ..]. }
  split; [exact Hstate |]. split; [exact Hkeys |]. split.
  - exists n. split; [reflexivity |].
    apply List.nth_error_Some. now rewrite Hcur.
  - apply has_get, has_keys. rewrite <- Hkeys.
    eapply List.nth_error_In. exact Hcur.
Qed.

(** A throw by the current player of a coherent room returns, and leaves
    the room coherent, with the same players, host and turn order. *)
Lemma processDartThrow_ok (uuid : string) (now : Z) (playerId : string)
    (data : Room.ThrowData) (room : Room.t) :
  Inv.room_ok room -> Room.getCurrentPlayer room = Some playerId ->
  exists room' result,
    Room.processDartThrow uuid now playerId data room
      = Room.Return (room', result) /\
    Inv.room_ok room' /\
    JSMap.keys (Room.players room') = JSMap.keys (Room.players room) /\
    Room.hostId room' = Room.hostId room /\
    Room.roomCode room' = Room.roomCode room /\
    Room.turnOrder room' = Room.turnOrder room.
Proof.
  intros Hok Hcur.
  destruct (current_member room playerId Hok Hcur)
    as (Hstate & Hkeys & (n & Hn & Hlt) & player & Hplayer).
  destruct Hok as [Hu Hid Hcol Honly Hflag Hmem Hord Hturn].
  pose proof (Hcol _ _ Hplayer) as Hcolor.
  assert (Hhas : JSMap.has playerId (Room.players room) = true)
    by now apply (get_has playerId player).
  assert (Hsame : forall player',
             JSMap.keys (JSMap.set playerId player' (Room.players room))
             = JSMap.keys (Room.players room))
    by (intros; now rewrite keys_set, Hhas).
  assert (Hmod : forall len, (0 < len)%nat -> (S n mod len < len)%nat)
    by (intros; apply Nat.mod_upper_bound; lia).
  assert (Hgeneric :
    forall (colors : JSMap.t Color) (player' : Room.Player)
           (state : Room.GameState) (turn : JS.Index)
           (log : list Room.ThrowRecord),
      Room.id player' = Room.id player ->
      Room.isHost player' = Room.isHost player ->
      (colors = JSMap.set playerId (Room.currentColor player')
                  (Room.playerColors room) \/
       (colors = Room.playerColors room /\
        Room.currentColor player' = Room.currentColor player)) ->
      state <> Room.waiting ->
      (turn = Room.currentTurn room \/
       turn = JS.imod (JS.succ (Room.currentTurn room))
                (List.length (Room.turnOrder room))) ->
      Inv.room_ok
        (Room.mkRoom (Room.roomCode room) (Room.hostId room)
           (JSMap.set playerId player' (Room.players room)) state
           (Room.targetColor room) colors turn (Room.turnOrder room) log
           (Room.gameSettings room))).
  { intros colors player' state turn log Hi Hh Hc Hs Ht.
    constructor;
      cbn [Room.players Room.playerColors Room.hostId Room.gameState
           Room.turnOrder Room.currentTurn].
    - now rewrite Hsame.
    - intros k p. destruct (string_dec k playerId) as [-> | Hk].
      + rewrite get_set_eq. intros [= <-]. rewrite Hi. now apply Hid.
      + rewrite get_set_neq by assumption. apply Hid.
    - intros k p. destruct (string_dec k playerId) as [-> | Hk].
      + rewrite get_set_eq. intros [= <-].
        destruct Hc as [-> | [-> Hc]].
        * apply get_set_eq.
        * now rewrite Hc.
      + rewrite get_set_neq by assumption. intros H.
        destruct Hc as [-> | [-> Hc]].
        * rewrite get_set_neq by assumption. now apply Hcol.
        * now apply Hcol.
    - intros k H. apply (has_same_keys k _ _ (Hsame player')).
      destruct Hc as [-> | [-> Hc]].
      + apply has_set in H. destruct H as [-> | H]; [exact Hhas |].
        now apply Honly.
      + now apply Honly.
    - intros k p. destruct (string_dec k playerId) as [-> | Hk].
      + rewrite get_set_eq. intros [= <-]. rewrite Hh. now apply Hflag.
      + rewrite get_set_neq by assumption. apply Hflag.
    - intros _. apply (has_same_keys _ _ _ (Hsame player')). apply Hmem.
      intros Hempty. rewrite Hempty in Hplayer. discriminate.
    - unfold Inv.order_ok. cbn [Room.gameState Room.turnOrder Room.players].
      rewrite Hsame, Hkeys. now destruct state.
    - unfold Inv.turn_ok. cbn [Room.currentTurn Room.turnOrder].
      destruct Ht as [-> | ->].
      + exists n. split; [exact Hn | now left].
      + rewrite Hn. cbn [JS.succ].
        destruct (List.length (Room.turnOrder room)) as [| len] eqn:Hlen;
          [lia |].
        cbn [JS.imod]. exists (S n mod S len)%nat.
        split; [reflexivity |]. left. apply Hmod. lia. }
  unfold Room.processDartThrow. rewrite Hplayer.
  destruct (Room.resolveHitColor data) as [hit |].
  - rewrite Hcolor. cbv zeta.
    cbn [Room.targetColor Room.gameSettings Room.set_throws
         Room.set_players Room.set_playerColors].
    destruct (Rle_dec _ _).
    + do 2 eexists. split; [reflexivity |].
      split; [| repeat split; apply Hsame].
      apply Hgeneric; cbn; auto; discriminate.
    + do 2 eexists. split; [reflexivity |].
      split; [| repeat split; apply Hsame].
      unfold Room.advanceTurn, Room.set_currentTurn, Room.set_throws,
        Room.set_players, Room.set_playerColors.
      cbn [Room.roomCode Room.hostId Room.players Room.gameState
           Room.targetColor Room.playerColors Room.currentTurn
           Room.turnOrder Room.throws Room.gameSettings].
      apply Hgeneric; cbn; auto.
  - cbv zeta.
    do 2 eexists. split; [reflexivity |].
    split; [| repeat split; apply Hsame].
    unfold Room.advanceTurn, Room.set_currentTurn, Room.set_throws,
      Room.set_players.
    cbn [Room.roomCode Room.hostId Room.players Room.gameState
         Room.targetColor Room.playerColors Room.currentTurn
         Room.turnOrder Room.throws Room.gameSettings].
    apply Hgeneric; cbn; auto.
Qed.

(** [updateSettings] keeps a room coherent. *)
Lemma updateSettings_ok (settings : Settings.Patch) (room : Room.t) :
  Inv.room_ok room -> Inv.room_ok (Settings.updateSettings settings room).
Proof. intros [Hu Hid Hcol Honly Hflag Hmem Hord Hturn]. now constructor. Qed.

(** X14. The operations of [Room] keep a room coherent (unique player ids
    equal to their keys, a colour entry mirroring each player's colour and
    none besides, the host flag on exactly the stored host, who is a member,
    a turn order that is empty while waiting and the list of player ids
    afterwards, a current turn in range): the constructor establishes it;
    [addPlayer] keeps it in a waiting room, [removePlayer] and [startGame]
    always, and a throw by the current player returns without exception and
    keeps it. *)
Theorem room_coherence (room : Room.t) :
  Inv.room_ok room ->
  (forall code hostId hostName u1 u2 u3,
      Inv.room_ok (Room.new code hostId hostName u1 u2 u3)) /\
  (forall playerId playerName,
      Room.gameState room = Room.waiting -> Room.players room <> [] ->
      Inv.room_ok (fst (Room.addPlayer playerId playerName room))) /\
  (forall playerId, Inv.room_ok (Room.removePlayer playerId room)) /\
  (forall target, Inv.room_ok (Room.startGame target room)) /\
  (forall uuid now playerId data,
      Room.getCurrentPlayer room = Some playerId ->
      exists room' result,
        Room.processDartThrow uuid now playerId data room
          = Room.Return (room', result) /\
        Inv.room_ok room').
Proof.
  intros Hok. split; [intros; apply new_ok |].
  split; [intros; now apply addPlayer_ok |].
  split; [intros; now apply removePlayer_ok |].
  split; [intros; now apply startGame_ok |].
  intros uuid now playerId data Hcur.
  destruct (processDartThrow_ok uuid now playerId data room Hok Hcur)
    as (room' & result & Hrun & Hok' & _).
  now exists room', result.
Qed.

(** The hypothesis of [room_coherence] at a fresh room: it stays coherent
    when its only player leaves. *)
Lemma room_coherence_witness :
  Inv.room_ok (Room.removePlayer "a" (Room.new "ABCD" "a" "Alice" 0 0 0)).
Proof.
  exact (proj1 (proj2 (proj2 (room_coherence
                                (Room.new "ABCD" "a" "Alice" 0 0 0)
                                (new_ok _ _ _ _ _ _))))
           "a"%string).
Defined.

(** X15. [removePlayer] removes exactly the given player. A leaving
    non-host leaves the host unchanged; when the host leaves and players
    remain, the earliest-joined remaining player becomes the stored host and
    carries the host flag. The leaver disappears from the turn order and
    nobody else does. *)
Theorem removePlayer_succession (playerId : string) (room : Room.t) :
  Inv.room_ok room ->
  let room' := Room.removePlayer playerId room in
  (forall k, JSMap.has k (Room.players room') = true <->
             k <> playerId /\ JSMap.has k (Room.players room) = true) /\
  (playerId <> Room.hostId room -> Room.hostId room' = Room.hostId room) /\
  (playerId = Room.hostId room ->
   forall k0 rest,
     JSMap.keys (JSMap.delete playerId (Room.players room)) = k0 :: rest ->
     Room.hostId room' = k0 /\
     exists p, JSMap.get k0 (Room.players room') = Some p /\
               Room.isHost p = true) /\
  ~ In playerId (Room.turnOrder room') /\
  (forall q, q <> playerId ->
             In q (Room.turnOrder room') <-> In q (Room.turnOrder room)).
Proof.
  intros Hok room'.
  pose proof (removePlayer_ok playerId room Hok) as Hok'. fold room' in Hok'.
  destruct (removePlayer_fields playerId room)
    as (_ & _ & _ & _ & _ & _ & Horder & _ & Hplayers).
  fold room' in Horder, Hplayers.
  split; [| split; [| split; [| split]]].
  - intros k. rewrite <- has_delete.
    apply has_same_keys.
    destruct Hplayers as [(_ & k0 & p0 & rest & Hr & -> & _) | (_ & -> & _)];
      [now rewrite Hr | reflexivity].
  - intros Hne.
    destruct Hplayers as [(Heq & _) | (_ & _ & Hh)]; [contradiction | exact Hh].
  - intros Heq k0 rest Hkeys.
    destruct Hplayers as [(_ & k1 & p1 & rest1 & Hr & Hp & Hh)
                         | ([Hne | Hempty] & _)].
    + rewrite Hr in Hkeys. cbn in Hkeys. injection Hkeys as <- _.
      assert (Hget : JSMap.get k1 (Room.players room')
                     = Some (Room.set_isHost true p1))
        by (rewrite Hp; cbn; now rewrite String.eqb_refl).
      split.
      * rewrite Hh. rewrite <- (Inv.ok_id _ Hok' _ _ Hget). reflexivity.
      * eexists. split; [exact Hget | reflexivity].
    + contradiction.
    + rewrite Hempty in Hkeys. discriminate.
  - rewrite Horder. intros Hin. apply List.filter_In in Hin.
    destruct Hin as [_ Hin]. rewrite String.eqb_refl in Hin. discriminate.
  - intros q Hq. rewrite Horder, List.filter_In.
    apply String.eqb_neq in Hq. rewrite Hq. simpl. tauto.
Qed.

(** The hypothesis of [removePlayer_succession]: Alice, the host, leaves
    Bob and Carol behind, and Bob, who joined first, is the new host. *)
Lemma removePlayer_succession_witness :
  let room :=
    fst (Room.addPlayer "c" "Carol"
           (fst (Room.addPlayer "b" "Bob"
                   (Room.new "ABCD" "a" "Alice" 0 0 0)))) in
  Room.hostId (Room.removePlayer "a" room) = "b"%string.
Proof.
  intros room.
  assert (Hok : Inv.room_ok room).
  { unfold room. apply addPlayer_ok; [| reflexivity | discriminate].
    apply addPlayer_ok; [apply new_ok | reflexivity | discriminate]. }
  apply (proj1 (proj2 (proj2 (removePlayer_succession "a" room Hok))) eq_refl
           "b"%string ["c"%string] eq_refl).
Defined.

(** Removing the element at index [i] of a list without duplicates shifts
    the later elements down by one. *)
Lemma nth_error_filter_out (order : list string) (x : string) :
  NoDup order ->
  forall i m,
    List.nth_error order i = Some x ->
    List.nth_error
      (List.filter (fun y => negb (String.eqb y x)) order) m
    = if Nat.ltb m i then List.nth_error order m
      else List.nth_error order (S m).
Proof.
  induction 1 as [| a rest Hnotin Hnd IH]; intros i m Hi.
  - destruct i; discriminate.
  - destruct i as [| i'].
    + cbn in Hi. injection Hi as ->. cbn [List.filter].
      rewrite String.eqb_refl. cbn [negb Nat.ltb Nat.leb List.nth_error].
      f_equal. apply List.forallb_filter_id. apply List.forallb_forall.
      intros y Hy. apply negb_true_iff, String.eqb_neq. congruence.
    + cbn in Hi.
      assert (Hax : a <> x)
        by (intros ->; apply Hnotin; eapply List.nth_error_In; exact Hi).
      cbn [List.filter]. apply String.eqb_neq in Hax. rewrite Hax.
      cbn [negb]. destruct m as [| m']; [reflexivity |].
      cbn [List.nth_error]. rewrite (IH i' m' Hi).
      change (Nat.ltb (S m') (S i')) with (Nat.ltb m' i'). reflexivity.
Qed.

Lemma length_filter_out (order : list string) (x : string) :
  NoDup order -> In x order ->
  S (List.length (List.filter (fun y => negb (String.eqb y x)) order))
  = List.length order.
Proof.
  induction 1 as [| a rest Hnotin Hnd IH]; intros Hin; [contradiction |].
  cbn [List.filter List.length]. destruct (String.eqb_spec a x) as [-> | Hne].
  - cbn [negb]. f_equal. f_equal.
    apply List.forallb_filter_id. apply List.forallb_forall.
    intros y Hy. apply negb_true_iff, String.eqb_neq. congruence.
  - cbn [negb List.length]. f_equal. apply IH.
    destruct Hin as [Hin | Hin]; [congruence | exact Hin].
Qed.

Lemma getCurrentPlayer_nth (room : Room.t) (n : nat) :
  Room.currentTurn room = JS.Num n ->
  Room.getCurrentPlayer room = List.nth_error (Room.turnOrder room) n.
Proof.
  intros Hn. unfold Room.getCurrentPlayer. rewrite Hn.
  destruct (Room.turnOrder room); [now destruct n | reflexivity].
Qed.

(** X16. How a departure moves the turn in a started, coherent room. When a
    player later in the turn order than the current one leaves, the current
    player keeps the turn. When an earlier player or the current player
    leaves, the index is kept, so the turn passes to the player that
    followed the current one: if an earlier player leaves, the player whose
    turn it was is skipped. When there is no following player the turn
    returns to the head of the remaining order. *)
Theorem removePlayer_turn (playerId : string) (room : Room.t) (n i : nat) :
  Inv.room_ok room -> Room.gameState room <> Room.waiting ->
  Room.currentTurn room = JS.Num n ->
  List.nth_error (Room.turnOrder room) i = Some playerId ->
  let room' := Room.removePlayer playerId room in
  let order := Room.turnOrder room in
  ((n < i)%nat ->
   Room.getCurrentPlayer room' = Room.getCurrentPlayer room) /\
  ((i <= n)%nat -> (S n < List.length order)%nat ->
   Room.getCurrentPlayer room' = List.nth_error order (S n)) /\
  ((i <= n)%nat -> (List.length order <= S n)%nat ->
   Room.getCurrentPlayer room'
   = List.nth_error (List.filter (fun y => negb (String.eqb y playerId)) order)
       0).
Proof.
  intros Hok Hstate Hn Hi room' order.
  destruct (removePlayer_fields playerId room)
    as (_ & _ & _ & _ & _ & _ & Horder & Hcur & _).
  fold room' in Horder, Hcur. fold order in Horder, Hcur.
  assert (Hnd : NoDup order).
  { pose proof (Inv.ok_order _ Hok) as Hord. unfold Inv.order_ok in Hord.
    unfold order.
    destruct (Room.gameState room); [contradiction | | ];
      rewrite Hord; apply (Inv.ok_unique _ Hok). }
  assert (Hin : In playerId order) by (eapply List.nth_error_In; exact Hi).
  pose proof (length_filter_out order playerId Hnd Hin) as Hlen.
  assert (Hilt : (i < List.length order)%nat)
    by (apply List.nth_error_Some; fold order in Hi |- *; rewrite Hi; discriminate).
  rewrite Hn in Hcur. cbn [JS.ige] in Hcur.
  split; [| split].
  - intros Hlt.
    destruct (Nat.leb_spec
                (List.length
                   (List.filter (fun y => negb (String.eqb y playerId)) order))
                n) as [Hle | _]; [lia |].
    rewrite (getCurrentPlayer_nth room' n Hcur),
      (getCurrentPlayer_nth room n Hn), Horder.
    rewrite (nth_error_filter_out order playerId Hnd i n Hi).
    apply Nat.ltb_lt in Hlt. now rewrite Hlt.
  - intros Hle Hnext.
    destruct (Nat.leb_spec
                (List.length
                   (List.filter (fun y => negb (String.eqb y playerId)) order))
                n) as [Hbad | _]; [lia |].
    rewrite (getCurrentPlayer_nth room' n Hcur), Horder.
    rewrite (nth_error_filter_out order playerId Hnd i n Hi).
    destruct (Nat.ltb_spec n i); [lia | reflexivity].
  - intros Hle Hlast.
    destruct (Nat.leb_spec
                (List.length
                   (List.filter (fun y => negb (String.eqb y playerId)) order))
                n) as [_ | Hbad]; [| lia].
    rewrite (getCurrentPlayer_nth room' 0 Hcur), Horder. reflexivity.
Qed.

Lemma advanceTurn_ok (room : Room.t) :
  Inv.room_ok room -> Room.turnOrder room <> [] ->
  Inv.room_ok (Room.advanceTurn room).
Proof.
  intros [Hu Hid Hcol Honly Hflag Hmem Hord Hturn] Hne.
  constructor; try assumption.
  destruct Hturn as (n & Hn & _). unfold Inv.turn_ok, Room.advanceTurn.
  cbn [Room.currentTurn Room.turnOrder Room.set_currentTurn].
  rewrite Hn. cbn [JS.succ].
  destruct (Room.turnOrder room) as [| a rest] eqn:Horder; [contradiction |].
  cbn [List.length JS.imod]. eexists. split; [reflexivity |].
  left. apply Nat.mod_upper_bound. discriminate.
Qed.

(** The hypotheses of [removePlayer_turn]: in a started game of Alice, Bob
    and Carol with Bob to play, Alice's departure hands the turn to Carol. *)
Lemma removePlayer_turn_witness :
  let lobby :=
    fst (Room.addPlayer "c" "Carol"
           (fst (Room.addPlayer "b" "Bob"
                   (Room.new "ABCD" "a" "Alice" 0 0 0)))) in
  let room := Room.advanceTurn (Room.startGame (mkColor 1 2 3) lobby) in
  Room.getCurrentPlayer (Room.removePlayer "a" room)
  = List.nth_error (Room.turnOrder room) 2.
Proof.
  intros lobby room.
  assert (Hlobby : Inv.room_ok lobby).
  { unfold lobby. apply addPlayer_ok; [| reflexivity | discriminate].
    apply addPlayer_ok; [apply new_ok | reflexivity | discriminate]. }
  assert (Hok : Inv.room_ok room).
  { unfold room. apply advanceTurn_ok; [now apply startGame_ok | discriminate]. }
  assert (Hlen : (2 < List.length (Room.turnOrder room))%nat)
    by (apply Nat.ltb_lt; reflexivity).
  exact (proj1 (proj2 (removePlayer_turn "a" room 1 0 Hok
                         ltac:(discriminate) eq_refl eq_refl))
           (Nat.le_0_l 1) Hlen).
Defined.

End RoomFacts.

(** ** The states the server can reach *)

Module ServerFacts.
Import ColorUtils JSMapFacts RoomFacts.

Lemma host_first_add (playerId playerName : string) (room : Room.t) :
  Inv.host_first room -> Room.players room <> [] ->
  Inv.host_first (fst (Room.addPlayer playerId playerName room)).
Proof.
  intros Hfirst Hne k rest. unfold Room.addPlayer.
  cbn [fst Room.players Room.hostId Room.set_players Room.set_playerColors].
  rewrite keys_set.
  destruct (JSMap.keys (Room.players room)) as [| k0 rest0] eqn:Hkeys.
  - destruct (Room.players room); [contradiction | discriminate].
  - specialize (Hfirst k0 rest0 Hkeys).
    destruct (JSMap.has playerId (Room.players room)); cbn; congruence.
Qed.

Lemma host_first_remove (playerId : string) (room : Room.t) :
  Inv.room_ok room -> Inv.host_first room ->
  Inv.host_first (Room.removePlayer playerId room).
Proof.
  intros Hok Hfirst k rest Hkeys.
  pose proof (removePlayer_ok playerId room Hok) as Hok'.
  destruct (removePlayer_fields playerId room)
    as (_ & _ & _ & _ & _ & _ & _ & _ & Hplayers).
  destruct Hplayers as [(_ & k0 & p0 & rest0 & Hr & Hp & Hh)
                       | ([Hne | Hempty] & Hp & Hh)].
  - rewrite Hp in Hkeys. cbn in Hkeys. injection Hkeys as <- _.
    rewrite Hh. apply (Inv.ok_id _ Hok' k0 (Room.set_isHost true p0)).
    rewrite Hp. cbn. now rewrite String.eqb_refl.
  - rewrite Hp, keys_delete in Hkeys. rewrite Hh.
    destruct (JSMap.keys (Room.players room)) as [| h t] eqn:Hk;
      [discriminate |].
    specialize (Hfirst h t Hk). subst h.
    cbn [List.filter] in Hkeys.
    assert (Hneq : String.eqb (Room.hostId room) playerId = false)
      by (apply String.eqb_neq; congruence).
    rewrite Hneq in Hkeys. cbn in Hkeys. now injection Hkeys.
  - rewrite Hp, Hempty in Hkeys. discriminate.
Qed.

Lemma registry_set (gm : GameManager.t) (code : string) (room : Room.t)
    (index : JSMap.t string) :
  Inv.registry_ok gm ->
  Inv.room_ok room -> Inv.host_first room ->
  (1 <= JSMap.size (Room.players room) <= 4)%nat ->
  Inv.registry_ok
    (GameManager.mkManager (JSMap.set code room (GameManager.rooms gm)) index).
Proof.
  intros Hreg Hok Hfirst Hsize k r Hk. cbn [GameManager.rooms] in Hk.
  destruct (string_dec k code) as [-> | Hne].
  - rewrite get_set_eq in Hk. injection Hk as <-. auto.
  - rewrite get_set_neq in Hk by assumption. now apply (Hreg k).
Qed.

Lemma createRoom_ok (rnd : GameManager.Random) (playerId playerName : string)
    (gm : GameManager.t) :
  Inv.registry_ok gm ->
  Inv.registry_ok (fst (GameManager.createRoom rnd playerId playerName gm)).
Proof.
  intros Hreg. cbn [fst GameManager.createRoom].
  apply registry_set; [exact Hreg | apply new_ok | | cbn; lia].
  intros k rest Hkeys. cbn in Hkeys. now injection Hkeys.
Qed.

Lemma joinExisting_ok (playerId playerName code : string)
    (gm : GameManager.t) :
  Inv.registry_ok gm ->
  Inv.registry_ok (fst (GameManager.joinExisting playerId playerName code gm)).
Proof.
  intros Hreg. unfold GameManager.joinExisting.
  destruct (JSMap.get code (GameManager.rooms gm)) as [room |] eqn:Hroom;
    [| exact Hreg].
  destruct (Hreg code room Hroom) as (Hok & Hfirst & Hsize).
  destruct (Nat.leb_spec 4 (JSMap.size (Room.players room))) as [Hfull | Hfree];
    [exact Hreg |].
  destruct (Room.gameState room) eqn:Hstate; try exact Hreg.
  assert (Hne : Room.players room <> []).
  { intros Hempty. rewrite Hempty in Hsize. cbn in Hsize. lia. }
  pose proof (addPlayer_ok playerId playerName room Hok Hstate Hne) as Hok'.
  pose proof (host_first_add playerId playerName room Hfirst Hne) as Hfirst'.
  assert (Hsize' : (1 <= JSMap.size (Room.players
                      (fst (Room.addPlayer playerId playerName room))) <= 4)%nat).
  { unfold Room.addPlayer.
    cbn [fst Room.players Room.set_players Room.set_playerColors].
    rewrite size_set. destruct (JSMap.has playerId (Room.players room)); lia. }
  unfold Room.addPlayer in *. cbn [fst] in *.
  now apply registry_set.
Qed.

Lemma joinRoom_ok (rnd : GameManager.Random) (playerId playerName : string)
    (roomCode : option string) (gm : GameManager.t) :
  Inv.registry_ok gm ->
  Inv.registry_ok
    (fst (GameManager.joinRoom rnd playerId playerName roomCode gm)).
Proof.
  intros Hreg. unfold GameManager.joinRoom.
  destruct (GameManager.truthy roomCode); [now apply joinExisting_ok |].
  destruct (GameManager.truthy (GameManager.findAvailableRoom gm));
    [now apply joinExisting_ok |].
  now apply (createRoom_ok rnd playerId playerName gm).
Qed.

Lemma removePlayer_registry_ok (playerId : string) (gm : GameManager.t) :
  Inv.registry_ok gm ->
  Inv.registry_ok (fst (GameManager.removePlayer playerId gm)).
Proof.
  intros Hreg. unfold GameManager.removePlayer.
  destruct (GameManager.truthy _) as [code |]; [| exact Hreg].
  destruct (JSMap.get code (GameManager.rooms gm)) as [room |] eqn:Hroom;
    [| exact Hreg].
  destruct (Hreg code room Hroom) as (Hok & Hfirst & Hsize).
  cbv zeta. cbn [fst].
  pose proof (removePlayer_ok playerId room Hok) as Hok'.
  pose proof (host_first_remove playerId room Hok Hfirst) as Hfirst'.
  assert (Hle : (JSMap.size (Room.players (Room.removePlayer playerId room))
                 <= 4)%nat).
  { rewrite size_keys, removePlayer_keys, <- size_keys.
    pose proof (size_delete_le playerId (Room.players room)). lia. }
  destruct (Nat.eqb_spec
              (JSMap.size (Room.players (Room.removePlayer playerId room))) 0)
    as [Hzero | Hpos].
  - intros k r Hk. cbn [GameManager.rooms] in Hk.
    destruct (string_dec k code) as [-> | Hne].
    + rewrite get_delete_eq in Hk. discriminate.
    + rewrite get_delete_neq, get_set_neq in Hk by assumption.
      now apply (Hreg k).
  - apply registry_set; auto. lia.
Qed.

Lemma startGame_registry_ok (code requester : string) (gm : GameManager.t) :
  Inv.registry_ok gm ->
  Inv.registry_ok (fst (GameManager.startGame code requester gm)).
Proof.
  intros Hreg. unfold GameManager.startGame.
  destruct (JSMap.get code (GameManager.rooms gm)) as [room |] eqn:Hroom;
    [| exact Hreg].
  destruct (Hreg code room Hroom) as (Hok & Hfirst & Hsize).
  destruct (negb _); [exact Hreg |].
  destruct (Nat.ltb _ 2); [exact Hreg |].
  cbn [fst].
  assert (Hkeys : JSMap.keys (Room.players
                    (Room.startGame (Room.targetColor room) room))
                  = JSMap.keys (Room.players room))
    by apply keys_map_values.
  apply registry_set; [exact Hreg | now apply startGame_ok | |].
  - intros k rest Hk. rewrite Hkeys in Hk. now apply (Hfirst k rest).
  - now rewrite size_keys, Hkeys, <- size_keys.
Qed.

(** A throw routed by the coordinator never raises, and keeps the registry
    invariant. *)
Lemma processDartThrow_registry_ok (uuid : string) (now : Z)
    (code playerId : string) (data : Room.ThrowData) (gm : GameManager.t) :
  Inv.registry_ok gm ->
  exists gm' response,
    GameManager.processDartThrow uuid now code playerId data gm
      = Room.Return (gm', response) /\
    Inv.registry_ok gm'.
Proof.
  intros Hreg. unfold GameManager.processDartThrow.
  destruct (JSMap.get code (GameManager.rooms gm)) as [room |] eqn:Hroom;
    [| now do 2 eexists].
  destruct (Hreg code room Hroom) as (Hok & Hfirst & Hsize).
  destruct (Room.gameState room); try now do 2 eexists.
  destruct (Room.getCurrentPlayer room) as [current |] eqn:Hcur;
    [| now do 2 eexists].
  destruct (String.eqb_spec current playerId) as [-> | Hne];
    [| now do 2 eexists].
  destruct (processDartThrow_ok uuid now playerId data room Hok Hcur)
    as (room' & result & -> & Hok' & Hkeys & Hhost & _ & _).
  do 2 eexists. split; [reflexivity |].
  apply registry_set; [exact Hreg | exact Hok' | |].
  - intros k rest Hk. rewrite Hkeys in Hk. rewrite Hhost.
    now apply (Hfirst k rest).
  - now rewrite size_keys, Hkeys, <- size_keys.
Qed.

Lemma updateGameSettings_ok (code requester : string)
    (settings : Settings.Patch) (gm : GameManager.t) :
  Inv.registry_ok gm ->
  Inv.registry_ok (fst (Settings.updateGameSettings code requester settings gm)).
Proof.
  intros Hreg. unfold Settings.updateGameSettings.
  destruct (JSMap.get code (GameManager.rooms gm)) as [room |] eqn:Hroom;
    [| exact Hreg].
  destruct (Hreg code room Hroom) as (Hok & Hfirst & Hsize).
  destruct (negb _); [exact Hreg |].
  cbn [fst]. apply registry_set; auto. now apply updateSettings_ok.
Qed.

Lemma handle_ok (gm : GameManager.t) (event : Server.Event) :
  Inv.registry_ok gm -> Inv.registry_ok (Server.handle gm event).
Proof.
  intros Hreg. destruct event as [op | code who | uuid now code pid data
                                 | code who settings]; cbn [Server.handle].
  - destruct op as [rnd p n | rnd p n roomCode | p]; cbn [GameManager.step].
    + now apply createRoom_ok.
    + now apply joinRoom_ok.
    + now apply removePlayer_registry_ok.
  - now apply startGame_registry_ok.
  - destruct (processDartThrow_registry_ok uuid now code pid data gm Hreg)
      as (gm' & response & -> & Hok). exact Hok.
  - now apply updateGameSettings_ok.
Qed.

Lemma serve_ok (events : list Server.Event) (gm : GameManager.t) :
  Inv.registry_ok gm -> Inv.registry_ok (Server.serve events gm).
Proof.
  revert gm. induction events as [| event rest IH]; intros gm Hreg; simpl.
  - exact Hreg.
  - apply IH. now apply handle_ok.
Qed.

Lemma new_registry_ok : Inv.registry_ok GameManager.new.
Proof. intros code room H. discriminate. Qed.

(** X17. In every state the server can reach from an empty coordinator,
    through any sequence of create, join, leave, start, throw and settings
    events, each registered room is coherent, has between 1 and 4 players,
    and is hosted by its earliest-joined remaining player, who is the only
    one to carry the host flag. *)
Theorem reachable_rooms (events : list Server.Event) (code : string)
    (room : Room.t) :
  JSMap.get code
    (GameManager.rooms (Server.serve events GameManager.new)) = Some room ->
  Inv.room_ok room /\
  (1 <= JSMap.size (Room.players room) <= 4)%nat /\
  (exists host rest,
      JSMap.keys (Room.players room) = Room.hostId room :: rest /\
      JSMap.get (Room.hostId room) (Room.players room) = Some host /\
      Room.isHost host = true) /\
  (forall k p,
      JSMap.get k (Room.players room) = Some p -> Room.isHost p = true ->
      k = Room.hostId room).
Proof.
  intros Hroom.
  destruct (serve_ok events GameManager.new new_registry_ok code room Hroom)
    as (Hok & Hfirst & Hsize).
  split; [exact Hok |]. split; [exact Hsize |]. split.
  - destruct (JSMap.keys (Room.players room)) as [| k rest] eqn:Hkeys.
    + rewrite size_keys, Hkeys in Hsize. cbn in Hsize. lia.
    + rewrite (Hfirst k rest Hkeys).
      assert (Hhas : JSMap.has k (Room.players room) = true)
        by (apply has_keys; rewrite Hkeys; now left).
      apply has_get in Hhas. destruct Hhas as (host & Hhost).
      exists host, rest. split; [reflexivity |]. split; [exact Hhost |].
      apply (Inv.ok_host_flag _ Hok k host Hhost).
      symmetry. now apply Hfirst with rest.
  - intros k p Hp Hflag. now apply (Inv.ok_host_flag _ Hok k p Hp).
Qed.

(** The hypothesis of [reachable_rooms] after Alice created a room, Bob
    joined it and Alice left. *)
Lemma reachable_rooms_witness :
  let rnd := GameManager.mkRandom 0 1 2 3 0 0 0 in
  let events :=
    [Server.Lifecycle (GameManager.CreateRoom rnd "a" "Alice");
     Server.Lifecycle (GameManager.JoinRoom rnd "b" "Bob" (Some "ABCD"%string));
     Server.Lifecycle (GameManager.RemovePlayer "a")] in
  exists room,
    JSMap.get "ABCD"
      (GameManager.rooms (Server.serve events GameManager.new)) = Some room /\
    Inv.room_ok room /\
    (1 <= JSMap.size (Room.players room) <= 4)%nat.
Proof.
  intros rnd events.
  destruct (JSMap.get "ABCD"
              (GameManager.rooms (Server.serve events GameManager.new)))
    as [room |] eqn:Hroom; [| discriminate Hroom].
  exists room. split; [reflexivity |].
  pose proof (reachable_rooms events "ABCD" room Hroom) as (Hok & Hsize & _).
  now split.
Defined.

(** X18. The coordinator's [processDartThrow] never raises in a reachable
    state: neither the [Player not found] error nor a dereference of a
    missing colour can occur, whatever room code, player id and well-formed
    throw payload are sent. In a reachable room that is playing there is
    always a current player, and that player is a member of the room. *)
Theorem reachable_throw_safe (events : list Server.Event) :
  let gm := Server.serve events GameManager.new in
  (forall uuid now code playerId data,
      exists gm' response,
        GameManager.processDartThrow uuid now code playerId data gm
          = Room.Return (gm', response)) /\
  (forall code room,
      JSMap.get code (GameManager.rooms gm) = Some room ->
      Room.gameState room = Room.playing ->
      exists current,
        Room.getCurrentPlayer room = Some current /\
        JSMap.has current (Room.players room) = true).
Proof.
  intros gm.
  pose proof (serve_ok events GameManager.new new_registry_ok) as Hreg.
  fold gm in Hreg. split.
  - intros uuid now code playerId data.
    destruct (processDartThrow_registry_ok uuid now code playerId data gm Hreg)
      as (gm' & response & Hrun & _).
    now exists gm', response.
  - intros code room Hroom Hplaying.
    destruct (Hreg code room Hroom) as (Hok & _ & Hsize).
    pose proof (Inv.ok_order _ Hok) as Hord. unfold Inv.order_ok in Hord.
    rewrite Hplaying in Hord.
    destruct (Inv.ok_turn _ Hok) as (n & Hn & Hrange).
    assert (Hlen : (1 <= List.length (Room.turnOrder room))%nat)
      by (rewrite Hord, <- size_keys; lia).
    destruct Hrange as [Hlt | [Hempty _]];
      [| rewrite Hempty in Hlen; cbn in Hlen; lia].
    destruct (List.nth_error (Room.turnOrder room) n) as [current |] eqn:Hnth.
    + exists current. split.
      * now rewrite (getCurrentPlayer_nth room n Hn).
      * apply has_keys. rewrite <- Hord. eapply List.nth_error_In. exact Hnth.
    + apply List.nth_error_None in Hnth. lia.
Qed.

End ServerFacts.

(** ** The coordinator's entry points *)

Module CoordinatorFacts.
Import ColorUtils JSFacts JSMapFacts RoomFacts.

(** X19. The coordinator rejects a throw for an unknown room, then for a
    room that is not playing, then for a player who is not the current one,
    each time returning the state untouched. An accepted throw succeeds
    and changes nothing but its own room: the other rooms and the
    player-to-room index are as before. *)
Theorem processDartThrow_routing (uuid : string) (now : Z)
    (code playerId : string) (data : Room.ThrowData) (gm : GameManager.t) :
  let outcome :=
    GameManager.processDartThrow uuid now code playerId data gm in
  (JSMap.get code (GameManager.rooms gm) = None ->
   outcome = Room.Return (gm, GameManager.Failure "Room not found")) /\
  (forall room,
      JSMap.get code (GameManager.rooms gm) = Some room ->
      (Room.gameState room <> Room.playing ->
       outcome
       = Room.Return (gm, GameManager.Failure "Game is not in progress")) /\
      (Room.gameState room = Room.playing ->
       Room.getCurrentPlayer room <> Some playerId ->
       outcome = Room.Return (gm, GameManager.Failure "Not your turn")) /\
      (Room.gameState room = Room.playing ->
       Room.getCurrentPlayer room = Some playerId ->
       forall gm' response,
         outcome = Room.Return (gm', response) ->
         (exists payload, response = GameManager.Success payload) /\
         GameManager.playerRooms gm' = GameManager.playerRooms gm /\
         forall other,
           other <> code ->
           JSMap.get other (GameManager.rooms gm')
           = JSMap.get other (GameManager.rooms gm))).
Proof.
  intros outcome. unfold outcome, GameManager.processDartThrow.
  split.
  - intros Hnone. now rewrite Hnone.
  - intros room Hroom. rewrite Hroom. split; [| split].
    + intros Hstate.
      destruct (Room.gameState room); [reflexivity | contradiction | reflexivity].
    + intros Hstate Hcur. rewrite Hstate.
      destruct (Room.getCurrentPlayer room) as [current |]; [| reflexivity].
      destruct (String.eqb_spec current playerId) as [-> | Hne];
        [contradiction | reflexivity].
    + intros Hstate Hcur gm' response. rewrite Hstate, Hcur, String.eqb_refl.
      destruct (Room.processDartThrow uuid now playerId data room)
        as [[room' result] | e]; [| discriminate].
      intros [= <- <-]. split; [eexists; reflexivity |].
      split; [reflexivity |].
      intros other Hother. cbn [GameManager.rooms]. now apply get_set_neq.
Qed.

(** The guarded parts of [processDartThrow_routing] in a started game of
    Alice and Bob: Bob throws out of turn and is turned away. *)
Lemma processDartThrow_routing_witness :
  let lobby := fst (Room.addPlayer "b" "Bob"
                      (Room.new "ABCD" "a" "Alice" 0 0 0)) in
  let room := Room.startGame (mkColor 1 2 3) lobby in
  let gm := GameManager.mkManager [("ABCD"%string, room)] [] in
  let miss := Room.mkThrowData Room.hitColor_null (Room.mkPosition 9 9 0) [] in
  GameManager.processDartThrow "u" 0 "ABCD" "b" miss gm
  = Room.Return (gm, GameManager.Failure "Not your turn").
Proof.
  intros lobby room gm miss.
  assert (Hcur : Room.getCurrentPlayer room <> Some "b"%string)
    by discriminate.
  exact (proj1 (proj2 (proj2 (processDartThrow_routing "u" 0 "ABCD" "b" miss gm)
                         room eq_refl)) eq_refl Hcur).
Defined.

(** X20. In a reachable state a successful [startGame] hands the first turn
    to the host: the requester, who is the stored host, is the current
    player of the started room. *)
Theorem host_throws_first (events : list Server.Event)
    (code requester : string) :
  let gm := Server.serve events GameManager.new in
  forall gm' payload,
    GameManager.startGame code requester gm
      = (gm', GameManager.Success payload) ->
    exists room',
      JSMap.get code (GameManager.rooms gm') = Some room' /\
      Room.hostId room' = requester /\
      Room.gameState room' = Room.playing /\
      Room.getCurrentPlayer room' = Some requester.
Proof.
  intros gm gm' payload.
  pose proof (ServerFacts.serve_ok events GameManager.new
                ServerFacts.new_registry_ok) as Hreg. fold gm in Hreg.
  unfold GameManager.startGame.
  destruct (JSMap.get code (GameManager.rooms gm)) as [room |] eqn:Hroom;
    [| discriminate].
  destruct (Hreg code room Hroom) as (Hok & Hfirst & Hsize).
  destruct (String.eqb_spec (Room.hostId room) requester) as [Hhost | Hne];
    [| discriminate].
  cbn [negb]. destruct (Nat.ltb _ 2); [discriminate |].
  intros [= <- _]. eexists. cbn [GameManager.rooms]. rewrite get_set_eq.
  split; [reflexivity |]. split; [exact Hhost |]. split; [reflexivity |].
  unfold Room.getCurrentPlayer, Room.startGame.
  cbn [Room.turnOrder Room.currentTurn Room.players Room.set_players
       Room.set_playerColors Room.set_gameState Room.set_targetColor
       Room.set_turnOrder Room.set_currentTurn Room.set_throws].
  destruct (JSMap.keys (Room.players room)) as [| k rest] eqn:Hkeys.
  - rewrite size_keys, Hkeys in Hsize. cbn in Hsize. lia.
  - cbn. now rewrite <- (Hfirst k rest Hkeys), Hhost.
Qed.

(** The hypothesis of [host_throws_first]: Alice creates a room, Bob joins
    it, and Alice starts the game. *)
Lemma host_throws_first_witness :
  let rnd := GameManager.mkRandom 0 1 2 3 0 0 0 in
  let events :=
    [Server.Lifecycle (GameManager.CreateRoom rnd "a" "Alice");
     Server.Lifecycle (GameManager.JoinRoom rnd "b" "Bob" (Some "ABCD"%string))]
  in
  let gm := Server.serve events GameManager.new in
  exists room',
    JSMap.get "ABCD"
      (GameManager.rooms (fst (GameManager.startGame "ABCD" "a" gm)))
      = Some room' /\
    Room.hostId room' = "a"%string /\
    Room.gameState room' = Room.playing /\
    Room.getCurrentPlayer room' = Some "a"%string.
Proof.
  intros rnd events gm.
  destruct (GameManager.startGame "ABCD" "a" gm) as [gm' [payload | message]]
    eqn:Hstart; [| discriminate Hstart].
  exact (host_throws_first events "ABCD" "a" gm' payload Hstart).
Defined.

Lemma find_first {A : Type} (f : A -> bool) (l : list A) (x : A) :
  List.find f l = Some x ->
  exists before after,
    l = before ++ x :: after /\ f x = true /\
    List.Forall (fun y => f y = false) before.
Proof.
  induction l as [| a l IH]; simpl; [discriminate |].
  destruct (f a) eqn:Ha.
  - intros [= ->]. exists [], l. repeat split; auto.
  - intros H. destruct (IH H) as (before & after & -> & Hx & Hbefore).
    exists (a :: before), after. repeat split; auto.
Qed.

(** X21. [findAvailableRoom] returns the code of the first room in registry
    order that is waiting and has fewer than 4 players (every earlier room
    is full or has started), and returns [null] exactly when no room is
    joinable. *)
Theorem findAvailableRoom_first (gm : GameManager.t) :
  let joinable (room : Room.t) :=
    (JSMap.size (Room.players room) < 4)%nat /\
    Room.gameState room = Room.waiting in
  (forall code,
      GameManager.findAvailableRoom gm = Some code ->
      exists before room after,
        GameManager.rooms gm = before ++ (code, room) :: after /\
        joinable room /\
        List.Forall (fun entry => ~ joinable (snd entry)) before) /\
  (GameManager.findAvailableRoom gm = None <->
   forall code room,
     In (code, room) (GameManager.rooms gm) -> ~ joinable room).
Proof.
  intros joinable.
  set (test := fun entry : string * Room.t =>
                 Nat.ltb (JSMap.size (Room.players (snd entry))) 4 &&
                 match Room.gameState (snd entry) with
                 | Room.waiting => true
                 | _ => false
                 end).
  assert (Htest : forall entry, test entry = true <-> joinable (snd entry)).
  { intros entry. unfold test, joinable.
    rewrite andb_true_iff, Nat.ltb_lt.
    destruct (Room.gameState (snd entry)); split; intros [H1 H2];
      split; auto; discriminate. }
  assert (Hfalse : forall entry, test entry = false -> ~ joinable (snd entry)).
  { intros entry H Hj. apply Htest in Hj. congruence. }
  unfold GameManager.findAvailableRoom. fold test. split.
  - intros code H.
    destruct (List.find test (GameManager.rooms gm)) as [[c room] |] eqn:Hfind;
      [| discriminate].
    cbn in H. injection H as ->.
    destruct (find_first test _ _ Hfind) as (before & after & Heq & Hx & Hb).
    exists before, room, after. split; [exact Heq |].
    split; [now apply (Htest (code, room)) |].
    eapply List.Forall_impl; [| exact Hb]. intros entry. apply Hfalse.
  - split.
    + intros H code room Hin.
      destruct (List.find test (GameManager.rooms gm)) as [entry |] eqn:Hfind;
        [discriminate |].
      apply (Hfalse (code, room)).
      now apply (List.find_none _ _ Hfind (code, room)).
    + intros H.
      destruct (List.find test (GameManager.rooms gm)) as [[c room] |] eqn:Hfind;
        [| reflexivity].
      apply List.find_some in Hfind. destruct Hfind as [Hin Hj].
      exfalso. apply (H c room Hin). now apply (Htest (c, room)).
Qed.

Lemma find_get (registry : JSMap.t Room.t) (f : string * Room.t -> bool)
    (code : string) (room : Room.t) :
  NoDup (JSMap.keys registry) ->
  List.find f registry = Some (code, room) ->
  JSMap.get code registry = Some room /\ f (code, room) = true.
Proof.
  intros Hnd Hfind. apply List.find_some in Hfind. destruct Hfind as [Hin Hf].
  split; [now apply In_get | exact Hf].
Qed.

(** X22. On a registry with distinct keys, as every [Map] is, a [joinRoom]
    call without a room code never fails: it joins the first joinable room
    or creates one, and either way the caller ends up as a player of the
    returned room, which is waiting, and indexed under its code. *)
Theorem joinRoom_any_succeeds (rnd : GameManager.Random)
    (playerId playerName : string) (gm : GameManager.t) :
  NoDup (JSMap.keys (GameManager.rooms gm)) ->
  exists gm' payload room,
    GameManager.joinRoom rnd playerId playerName None gm
      = (gm', GameManager.Success payload) /\
    JSMap.get (GameManager.j_roomCode payload) (GameManager.rooms gm')
      = Some room /\
    JSMap.has playerId (Room.players room) = true /\
    Room.gameState room = Room.waiting /\
    JSMap.get playerId (GameManager.playerRooms gm')
      = Some (GameManager.j_roomCode payload).
Proof.
  intros Hnd. unfold GameManager.joinRoom. cbn [GameManager.truthy].
  assert (Hcreate :
    exists gm' payload room,
      (let (gm0, created) :=
         GameManager.createRoom rnd playerId playerName gm in
       (gm0, GameManager.Success created))
        = (gm', GameManager.Success payload) /\
      JSMap.get (GameManager.j_roomCode payload) (GameManager.rooms gm')
        = Some room /\
      JSMap.has playerId (Room.players room) = true /\
      Room.gameState room = Room.waiting /\
      JSMap.get playerId (GameManager.playerRooms gm')
        = Some (GameManager.j_roomCode payload)).
  { cbn [GameManager.createRoom]. do 3 eexists.
    split; [reflexivity |].
    cbn [GameManager.j_roomCode GameManager.rooms GameManager.playerRooms].
    rewrite !get_set_eq. split; [reflexivity |].
    split; [| split; reflexivity].
    unfold JSMap.has; cbn. now rewrite String.eqb_refl. }
  unfold GameManager.findAvailableRoom.
  destruct (List.find _ (GameManager.rooms gm)) as [[code room] |] eqn:Hfind;
    [| exact Hcreate].
  cbn [fst]. destruct code as [| c rest]; [exact Hcreate |].
  cbn [GameManager.truthy].
  destruct (find_get _ _ _ _ Hnd Hfind) as [Hget Hjoinable].
  cbn [snd] in Hjoinable. apply andb_true_iff in Hjoinable.
  destruct Hjoinable as [Hsize Hstate]. apply Nat.ltb_lt in Hsize.
  unfold GameManager.joinExisting. rewrite Hget.
  destruct (Nat.leb_spec 4 (JSMap.size (Room.players room))); [lia |].
  destruct (Room.gameState room) eqn:Hphase; try discriminate.
  cbn [Room.addPlayer]. do 3 eexists. split; [reflexivity |].
  cbn [GameManager.j_roomCode GameManager.rooms GameManager.playerRooms].
  rewrite !get_set_eq. split; [reflexivity |].
  cbn [Room.players Room.gameState Room.set_players Room.set_playerColors].
  split; [| split; [exact Hphase | reflexivity]].
  apply has_set. now left.
Qed.

(** The hypothesis of [joinRoom_any_succeeds] on an empty coordinator. *)
Lemma joinRoom_any_succeeds_witness :
  exists gm' payload room,
    GameManager.joinRoom (GameManager.mkRandom 0 1 2 3 0 0 0) "a" "Alice" None
      GameManager.new
      = (gm', GameManager.Success payload) /\
    JSMap.get (GameManager.j_roomCode payload) (GameManager.rooms gm')
      = Some room /\
    JSMap.has "a" (Room.players room) = true /\
    Room.gameState room = Room.waiting /\
    JSMap.get "a" (GameManager.playerRooms gm')
      = Some (GameManager.j_roomCode payload).
Proof.
  apply (joinRoom_any_succeeds (GameManager.mkRandom 0 1 2 3 0 0 0)
           "a" "Alice" GameManager.new).
  constructor.
Defined.

(** X23. [GameManager.removePlayer] does nothing for a player the index
    does not know. For an indexed player whose room exists it deletes the
    index entry, removes exactly that player from the room, deletes the
    room when the player was its last, and leaves every other room as it
    was. *)
Theorem removePlayer_cleanup (playerId : string) (gm : GameManager.t) :
  (JSMap.get playerId (GameManager.playerRooms gm) = None ->
   GameManager.removePlayer playerId gm = (gm, None)) /\
  (forall code room,
      JSMap.get playerId (GameManager.playerRooms gm) = Some code ->
      code <> EmptyString ->
      JSMap.get code (GameManager.rooms gm) = Some room ->
      let gm' := fst (GameManager.removePlayer playerId gm) in
      JSMap.get playerId (GameManager.playerRooms gm') = None /\
      (JSMap.size (JSMap.delete playerId (Room.players room)) = 0%nat ->
       JSMap.get code (GameManager.rooms gm') = None) /\
      (JSMap.size (JSMap.delete playerId (Room.players room)) <> 0%nat ->
       exists room',
         JSMap.get code (GameManager.rooms gm') = Some room' /\
         forall k, JSMap.has k (Room.players room') = true <->
                   k <> playerId /\ JSMap.has k (Room.players room) = true) /\
      (forall other,
          other <> code ->
          JSMap.get other (GameManager.rooms gm')
          = JSMap.get other (GameManager.rooms gm))).
Proof.
  split.
  - intros Hnone. unfold GameManager.removePlayer. now rewrite Hnone.
  - intros code room Hindex Hcode Hroom gm'.
    unfold gm', GameManager.removePlayer. rewrite Hindex.
    rewrite (JoinFacts.truthy_code code Hcode), Hroom. cbv zeta. cbn [fst].
    assert (Hsize : JSMap.size (Room.players (Room.removePlayer playerId room))
                    = JSMap.size (JSMap.delete playerId (Room.players room)))
      by (now rewrite !size_keys, removePlayer_keys).
    rewrite Hsize. cbn [GameManager.playerRooms GameManager.rooms].
    split; [apply get_delete_eq |].
    destruct (Nat.eqb_spec
                (JSMap.size (JSMap.delete playerId (Room.players room))) 0)
      as [Hzero | Hpos].
    + split; [intros _; apply get_delete_eq |].
      split; [intros H; contradiction |].
      intros other Hother.
      now rewrite get_delete_neq, get_set_neq by assumption.
    + split; [intros H; contradiction |].
      split.
      * intros _. eexists. split; [apply get_set_eq |].
        intros k. rewrite <- has_delete. apply has_same_keys.
        apply removePlayer_keys.
      * intros other Hother. now apply get_set_neq.
Qed.

(** The hypotheses of [removePlayer_cleanup]: the creator of a room leaves
    and the room is deleted. *)
Lemma removePlayer_cleanup_witness :
  let rnd := GameManager.mkRandom 0 1 2 3 0 0 0 in
  let gm := GameManager.run [GameManager.CreateRoom rnd "a" "Alice"]
              GameManager.new in
  JSMap.get "ABCD"
    (GameManager.rooms (fst (GameManager.removePlayer "a" gm))) = None.
Proof.
  intros rnd gm.
  refine (proj1 (proj2 (proj2 (removePlayer_cleanup "a" gm)
                          "ABCD"%string (Room.new "ABCD" "a" "Alice" 0 0 0)
                          eq_refl _ eq_refl)) eq_refl).
  discriminate.
Defined.

End CoordinatorFacts.

(** ** The game settings *)

Module SettingsFacts.
Import ColorUtils JSFacts JSMapFacts.


Lemma mixColors_valid (c1 c2 : Color) (w : R) :
  0 <= w <= 1 -> valid_color c1 -> valid_color c2 ->
  valid_color (mixColors c1 c2 w).
Proof.
  intros Hw (H1r & H1g & H1b) (H2r & H2g & H2b).
  pose proof (MixFacts.mix_channel_between (r c1) (r c2) w Hw) as Hr.
  pose proof (MixFacts.mix_channel_between (g c1) (g c2) w Hw) as Hg.
  pose proof (MixFacts.mix_channel_between (b c1) (b c2) w Hw) as Hb.
  unfold valid_color, channel_ok in *. unfold mixColors; cbn [r g b].
  repeat split; lia.
Qed.



(** X25. Of the four game settings only [colorTolerance] is ever read by a
    throw: changing [maxThrows], [dartSpeed] and [difficulty] changes neither
    the result of a throw nor the room it leaves, apart from the stored
    settings themselves. In particular no throw is refused for exceeding
    [maxThrows]. *)
Theorem unused_settings (uuid : string) (now : Z) (playerId : string)
    (data : Room.ThrowData) (room : Room.t) (settings : Room.GameSettings) :
  Room.colorTolerance settings = Room.colorTolerance (Room.gameSettings room) ->
  Room.processDartThrow uuid now playerId data
    (Settings.set_gameSettings settings room)
  = match Room.processDartThrow uuid now playerId data room with
    | Room.Return (room', result) =>
        Room.Return (Settings.set_gameSettings settings room', result)
    | Room.Throw e => Room.Throw e
    end.
Proof.
  intros Htol. unfold Room.processDartThrow.
  cbn [Settings.set_gameSettings Room.players Room.playerColors].
  destruct (JSMap.get playerId (Room.players room)) as [player |];
    [| reflexivity].
  destruct (Room.resolveHitColor data) as [hit |].
  - destruct (JSMap.get playerId (Room.playerColors room)) as [current |];
      [| reflexivity].
    cbv zeta. cbn [Room.targetColor Room.gameSettings Room.set_throws
                   Room.set_players Room.set_playerColors
                   Settings.set_gameSettings].
    rewrite Htol.
    destruct (Rle_dec _ _); reflexivity.
  - reflexivity.
Qed.

(** The hypothesis of [unused_settings]: a room whose [maxThrows] is 0
    processes a throw exactly as the default room does. *)
Lemma unused_settings_witness :
  let lobby := fst (Room.addPlayer "b" "Bob"
                      (Room.new "ABCD" "a" "Alice" 0 0 0)) in
  let room := Room.startGame (mkColor 1 2 3) lobby in
  let strict := Room.mkSettings 30 0 50 "hard" in
  let miss := Room.mkThrowData Room.hitColor_null (Room.mkPosition 9 9 0) [] in
  Room.processDartThrow "u" 0 "a" miss (Settings.set_gameSettings strict room)
  = match Room.processDartThrow "u" 0 "a" miss room with
    | Room.Return (room', result) =>
        Room.Return (Settings.set_gameSettings strict room', result)
    | Room.Throw e => Room.Throw e
    end.
Proof.
  intros lobby room strict miss.
  exact (unused_settings "u" 0 "a" miss room strict eq_refl).
Defined.

(** X26. [updateGameSettings] fails for an unknown room and for a requester
    who is not the host, leaving the coordinator untouched. For the host it
    stores the merge of the old settings and the message, with no check of
    the values, and returns it; the room is otherwise unchanged and so are
    all other rooms. A message without fields changes nothing, and applying
    the same message twice is the same as applying it once. *)
Theorem updateGameSettings_contract (code requester : string)
    (settings : Settings.Patch) (gm : GameManager.t) :
  (JSMap.get code (GameManager.rooms gm) = None ->
   Settings.updateGameSettings code requester settings gm
   = (gm, GameManager.Failure "Room not found")) /\
  (forall room,
      JSMap.get code (GameManager.rooms gm) = Some room ->
      (Room.hostId room <> requester ->
       Settings.updateGameSettings code requester settings gm
       = (gm, GameManager.Failure "Only the host can update settings")) /\
      (Room.hostId room = requester ->
       let merged := Settings.spread (Room.gameSettings room) settings in
       let gm' :=
         fst (Settings.updateGameSettings code requester settings gm) in
       snd (Settings.updateGameSettings code requester settings gm)
         = GameManager.Success merged /\
       JSMap.get code (GameManager.rooms gm')
         = Some (Settings.set_gameSettings merged room) /\
       (forall v, Settings.p_colorTolerance settings = Some v ->
                  Room.colorTolerance merged = v) /\
       (Settings.p_colorTolerance settings = None ->
        Room.colorTolerance merged
        = Room.colorTolerance (Room.gameSettings room)) /\
       GameManager.playerRooms gm' = GameManager.playerRooms gm /\
       (forall other, other <> code ->
                      JSMap.get other (GameManager.rooms gm')
                      = JSMap.get other (GameManager.rooms gm)) /\
       Settings.spread merged settings = merged /\
       Settings.spread (Room.gameSettings room)
         (Settings.mkPatch None None None None) = Room.gameSettings room)).
Proof.
  unfold Settings.updateGameSettings. split.
  - intros Hnone. now rewrite Hnone.
  - intros room Hroom. rewrite Hroom. split.
    + intros Hne.
      destruct (String.eqb_spec (Room.hostId room) requester);
        [contradiction | reflexivity].
    + intros Hhost. cbv zeta. rewrite Hhost, String.eqb_refl.
      cbn [negb fst snd GameManager.rooms GameManager.playerRooms].
      unfold Settings.updateSettings.
      cbn [Settings.set_gameSettings Room.gameSettings].
      split; [reflexivity |]. split; [apply get_set_eq |].
      split; [intros v Hv; unfold Settings.spread; cbn; now rewrite Hv |].
      split; [intros Hv; unfold Settings.spread; cbn; now rewrite Hv |].
      split; [reflexivity |].
      split; [intros other Hother; now apply get_set_neq |].
      split.
      * unfold Settings.spread, Settings.override. cbn.
        destruct settings as [[t |] [m |] [d |] [f |]]; reflexivity.
      * destruct (Room.gameSettings room). reflexivity.
Qed.

(** The guarded parts of [updateGameSettings_contract]: the host of a fresh
    room sets a negative tolerance and it is stored. *)
Lemma updateGameSettings_contract_witness :
  let gm :=
    GameManager.mkManager
      [("ABCD"%string, Room.new "ABCD" "a" "Alice" 0 0 0)]
      [("a"%string, "ABCD"%string)] in
  let patch := Settings.mkPatch (Some (-1)) None None None in
  Room.colorTolerance
    (Settings.spread
       (Room.gameSettings (Room.new "ABCD" "a" "Alice" 0 0 0)) patch)
  = -1.
Proof.
  intros gm patch.
  exact (proj1 (proj2 (proj2 (proj2 (proj2
           (updateGameSettings_contract "ABCD" "a" patch gm)
           (Room.new "ABCD" "a" "Alice" 0 0 0) eq_refl) eq_refl)))
         (-1) eq_refl).
Defined.

End SettingsFacts.

(** ** The client's colour helpers *)

Module ClientColorFacts.
Import ColorUtils JSFacts.

Lemma lighten_channel (k : Z) (amount : R) :
  channel_ok k -> 0 <= amount <= 100 ->
  (k <= JS.round (IZR k + (255 - IZR k) * (amount / 100)) <= 255)%Z.
Proof.
  unfold channel_ok. intros [Hlo Hhi] Ha.
  apply IZR_le in Hlo, Hhi. apply round_range. split; nra.
Qed.

Lemma darken_channel (k : Z) (amount : R) :
  channel_ok k -> -100 <= amount <= 0 ->
  (0 <= JS.round (IZR k * (1 + amount / 100)) <= k)%Z.
Proof.
  unfold channel_ok. intros [Hlo Hhi] Ha.
  apply IZR_le in Hlo, Hhi. apply round_range. split; nra.
Qed.

(** X27. For a well-formed colour and an amount in [-100, 100],
    [adjustColorBrightness] returns a well-formed colour; a positive amount
    lowers no channel and a negative one raises none; the amounts 100, -100
    and 0 give white, black and the colour itself. *)
Theorem adjustColorBrightness_range (c : Color) (amount : R) :
  valid_color c -> -100 <= amount <= 100 ->
  let out := ClientColorUtils.adjustColorBrightness c amount in
  valid_color out /\
  (0 <= amount -> (r c <= r out)%Z /\ (g c <= g out)%Z /\ (b c <= b out)%Z) /\
  (amount <= 0 -> (r out <= r c)%Z /\ (g out <= g c)%Z /\ (b out <= b c)%Z) /\
  ClientColorUtils.adjustColorBrightness c 100 = mkColor 255 255 255 /\
  ClientColorUtils.adjustColorBrightness c (-100) = mkColor 0 0 0 /\
  ClientColorUtils.adjustColorBrightness c 0 = c.
Proof.
  intros (Hr & Hg & Hb) Ha out.
  assert (Hcase :
    (0 < amount /\
     out = {| r := JS.round (IZR (r c) + (255 - IZR (r c)) * (amount / 100));
              g := JS.round (IZR (g c) + (255 - IZR (g c)) * (amount / 100));
              b := JS.round (IZR (b c) + (255 - IZR (b c)) * (amount / 100)) |})
    \/
    (amount <= 0 /\
     out = {| r := JS.round (IZR (r c) * (1 + amount / 100));
              g := JS.round (IZR (g c) * (1 + amount / 100));
              b := JS.round (IZR (b c) * (1 + amount / 100)) |})).
  { unfold out, ClientColorUtils.adjustColorBrightness. cbv zeta.
    destruct (Rlt_dec 0 amount); [left | right]; split;
      try reflexivity; lra. }
  split; [| split; [| split; [| split; [| split]]]].
  - destruct Hcase as [[Hpos ->] | [Hneg ->]].
    + pose proof (lighten_channel _ amount Hr ltac:(lra)).
      pose proof (lighten_channel _ amount Hg ltac:(lra)).
      pose proof (lighten_channel _ amount Hb ltac:(lra)).
      unfold valid_color, channel_ok in *; cbn [r g b]. repeat split; lia.
    + pose proof (darken_channel _ amount Hr ltac:(lra)).
      pose proof (darken_channel _ amount Hg ltac:(lra)).
      pose proof (darken_channel _ amount Hb ltac:(lra)).
      unfold valid_color, channel_ok in *; cbn [r g b]. repeat split; lia.
  - intros H0. destruct Hcase as [[Hpos ->] | [Hneg ->]]; cbn [r g b].
    + repeat split; apply lighten_channel; try assumption; lra.
    + replace amount with 0 by lra.
      replace (1 + 0 / 100) with 1 by field.
      rewrite !Rmult_1_r, !round_IZR. repeat split; lia.
  - intros H0. destruct Hcase as [[Hpos ->] | [Hneg ->]]; cbn [r g b].
    + lra.
    + repeat split; apply darken_channel; try assumption; lra.
  - unfold ClientColorUtils.adjustColorBrightness. cbv zeta.
    destruct (Rlt_dec 0 100); [| lra].
    f_equal; apply round_unique; lra.
  - unfold ClientColorUtils.adjustColorBrightness. cbv zeta.
    destruct (Rlt_dec 0 (-100)); [lra |].
    f_equal; apply round_unique; lra.
  - unfold ClientColorUtils.adjustColorBrightness. cbv zeta.
    destruct (Rlt_dec 0 0); [lra |].
    replace (1 + 0 / 100) with 1 by field.
    rewrite !Rmult_1_r, !round_IZR. now destruct c.
Qed.

(** The hypotheses of [adjustColorBrightness_range] at a mid grey lightened
    by 50. *)
Lemma adjustColorBrightness_range_witness :
  valid_color
    (ClientColorUtils.adjustColorBrightness (mkColor 128 128 128) 50).
Proof.
  refine (proj1 (adjustColorBrightness_range (mkColor 128 128 128) 50 _ _)).
  - unfold valid_color, channel_ok; simpl; lia.
  - lra.
Defined.

(** X28. For a positive radius the client's [wheelPositionToColor] returns
    a well-formed colour at every position, on or off the wheel, and mid
    grey (128, 128, 128) at the centre. *)
Theorem wheelPositionToColor_valid (x z radius : R) :
  0 < radius ->
  valid_color (ClientColorUtils.wheelPositionToColor x z radius) /\
  ClientColorUtils.wheelPositionToColor 0 0 radius = mkColor 128 128 128.
Proof.
  intros Hradius. split.
  - unfold ClientColorUtils.wheelPositionToColor. cbv zeta.
    apply HslFacts.hslToRgb_valid; [apply ResolverFacts.hue_range | | lra].
    assert (Hd : 0 <= sqrt (x * x + z * z) / radius).
    { unfold Rdiv. apply Rmult_le_pos; [apply sqrt_pos |].
      left. now apply Rinv_0_lt_compat. }
    unfold Rmin. destruct (Rle_dec _ _); lra.
  - unfold ClientColorUtils.wheelPositionToColor. cbv zeta.
    replace (0 * 0 + 0 * 0) with 0 by ring. rewrite sqrt_0.
    replace (Rmin (0 / radius) 1 * 100) with 0.
    + unfold hslToRgb, hslChannels. cbv zeta.
      destruct (Req_dec_T (0 / 100) 0) as [_ | Hne]; [| lra].
      f_equal; apply round_unique; lra.
    + unfold Rmin, Rdiv. rewrite Rmult_0_l.
      destruct (Rle_dec 0 1); lra.
Qed.

(** The hypothesis of [wheelPositionToColor_valid] on the unit wheel. *)
Lemma wheelPositionToColor_valid_witness :
  valid_color (ClientColorUtils.wheelPositionToColor 3 4 1) /\
  ClientColorUtils.wheelPositionToColor 0 0 1 = mkColor 128 128 128.
Proof.
  apply (wheelPositionToColor_valid 3 4 1). lra.
Defined.

(** X29. The brightness of a well-formed colour lies in [0, 255], and
    [getContrastColor] answers ['black'] exactly when the weighted channel
    sum [299 r + 587 g + 114 b] reaches 128500, that is from a brightness of
    128.5 on: white text is chosen for a mid grey (128, 128, 128). *)
Theorem getContrastColor_threshold (c : Color) :
  valid_color c ->
  (0 <= ClientColorUtils.getColorBrightness c <= 255)%Z /\
  (ClientColorUtils.getContrastColor c = "black"%string <->
   (128500 <= 299 * r c + 587 * g c + 114 * b c)%Z) /\
  (ClientColorUtils.getContrastColor c = "white"%string <->
   (299 * r c + 587 * g c + 114 * b c < 128500)%Z).
Proof.
  intros (Hr & Hg & Hb). unfold channel_ok in *.
  set (total := (299 * r c + 587 * g c + 114 * b c)%Z).
  assert (Hsum : IZR (r c) * 299 + IZR (g c) * 587 + IZR (b c) * 114
                 = IZR total).
  { unfold total. rewrite !plus_IZR, !mult_IZR. ring. }
  assert (Htotal : (0 <= total <= 255000)%Z) by (unfold total; lia).
  assert (Hbright : ClientColorUtils.getColorBrightness c
                    = JS.round (IZR total / 1000))
    by (unfold ClientColorUtils.getColorBrightness; now rewrite Hsum).
  assert (Hrange : (0 <= ClientColorUtils.getColorBrightness c <= 255)%Z).
  { rewrite Hbright. apply round_range.
    destruct Htotal as [Hlo Hhi]. apply IZR_le in Hlo, Hhi. lra. }
  assert (Hiff : (128 < ClientColorUtils.getColorBrightness c)%Z
                 <-> (128500 <= total)%Z).
  { rewrite Hbright. split.
    - intros H.
      destruct (Z_lt_le_dec total 128500) as [Hlt | Hge]; [| exact Hge].
      exfalso. apply IZR_lt in Hlt.
      pose proof (round_mono (IZR total / 1000) (128 + 499 / 1000)
                    ltac:(assert (IZR total <= 128499)
                            by (apply IZR_le; apply lt_IZR in Hlt; lia); lra))
        as Hm.
      assert (H128 : JS.round (128 + 499 / 1000) = 128%Z)
        by (apply round_unique; lra).
      lia.
    - intros H. apply IZR_le in H.
      pose proof (round_mono (128 + 1 / 2) (IZR total / 1000) ltac:(lra))
        as Hm.
      assert (H129 : JS.round (128 + 1 / 2) = 129%Z)
        by (apply round_unique; lra).
      lia. }
  split; [exact Hrange |].
  unfold ClientColorUtils.getContrastColor.
  destruct (Z.ltb_spec 128 (ClientColorUtils.getColorBrightness c))
    as [Hgt | Hle].
  - apply Hiff in Hgt. fold total.
    split; split; intros H; first [exact Hgt | reflexivity | discriminate H | lia].
  - assert (Hlt : (total < 128500)%Z).
    { destruct (Z_lt_le_dec total 128500) as [Hlt | Hge]; [exact Hlt |].
      apply Hiff in Hge. lia. }
    fold total.
    split; split; intros H; first [exact Hlt | reflexivity | discriminate H | lia].
Qed.

(** The hypothesis of [getContrastColor_threshold] at mid grey. *)
Lemma getContrastColor_threshold_witness :
  ClientColorUtils.getContrastColor (mkColor 128 128 128) = "white"%string.
Proof.
  refine (proj2 (proj2 (proj2 (getContrastColor_threshold
                                 (mkColor 128 128 128) _))) _).
  - unfold valid_color, channel_ok; simpl; lia.
  - simpl; lia.
Defined.

(** The weight of step [i] of a gradient of at least two steps. *)
Lemma gradient_weight (steps i : nat) :
  (2 <= steps)%nat -> (i < steps)%nat ->
  0 <= INR i / (INR steps - 1) <= 1.
Proof.
  intros Hsteps Hi.
  assert (H2 : 2 <= INR steps) by (apply (le_INR 2); exact Hsteps).
  assert (H0 : 0 <= INR i) by apply pos_INR.
  assert (Hle : INR i <= INR steps - 1).
  { assert (H : INR (S i) <= INR steps) by (apply le_INR; lia).
    rewrite S_INR in H. lra. }
  apply HslRangeFacts.div_unit; lra.
Qed.

Lemma gradient_nth (c1 c2 : Color) (steps i : nat) :
  (i < steps)%nat ->
  List.nth_error (ClientColorUtils.generateColorGradient c1 c2 steps) i
  = Some (mixColors c1 c2 (INR i / (INR steps - 1))).
Proof.
  intros Hi. unfold ClientColorUtils.generateColorGradient.
  rewrite List.nth_error_map.
  rewrite (List.nth_error_nth' _ 0%nat) by (now rewrite List.length_seq).
  rewrite List.seq_nth by exact Hi. reflexivity.
Qed.

(** A larger weight brings a rounded channel no farther from the second
    colour. *)
Lemma mix_channel_monotone (k1 k2 : Z) (w w' : R) :
  0 <= w <= w' -> w' <= 1 ->
  let m := JS.round (IZR k1 * (1 - w) + IZR k2 * w) in
  let m' := JS.round (IZR k1 * (1 - w') + IZR k2 * w') in
  (IZR m' - IZR k2) * (IZR m' - IZR k2) <= (IZR m - IZR k2) * (IZR m - IZR k2).
Proof.
  intros Hw Hw' m m'.
  pose proof (MixFacts.mix_channel_between k1 k2 w ltac:(lra)) as [Hlo Hhi].
  pose proof (MixFacts.mix_channel_between k1 k2 w' ltac:(lra)) as [Hlo' Hhi'].
  fold m in Hlo, Hhi. fold m' in Hlo', Hhi'.
  destruct (Z.le_ge_cases k1 k2) as [Hle | Hle].
  - rewrite Z.max_r in Hhi, Hhi' by assumption.
    assert (Hmono : (m <= m')%Z).
    { apply round_mono. apply IZR_le in Hle. nra. }
    apply IZR_le in Hhi, Hhi', Hmono. nra.
  - rewrite Z.min_r in Hlo, Hlo' by assumption.
    assert (Hmono : (m' <= m)%Z).
    { apply round_mono. apply IZR_le in Hle. nra. }
    apply IZR_le in Hlo, Hlo', Hmono. nra.
Qed.

(** X30. A gradient of at least two steps has exactly [steps] entries,
    starts at the first colour and ends at the second; between well-formed
    colours every entry is well-formed, and along the gradient the distance
    to the second colour never grows. *)
Theorem generateColorGradient_endpoints (c1 c2 : Color) (steps : nat) :
  (2 <= steps)%nat ->
  let gradient := ClientColorUtils.generateColorGradient c1 c2 steps in
  List.length gradient = steps /\
  List.nth_error gradient 0 = Some c1 /\
  List.nth_error gradient (steps - 1) = Some c2 /\
  (valid_color c1 -> valid_color c2 -> List.Forall valid_color gradient) /\
  (forall i j mi mj,
      (i <= j)%nat ->
      List.nth_error gradient i = Some mi ->
      List.nth_error gradient j = Some mj ->
      calculateColorDistance mj c2 <= calculateColorDistance mi c2).
Proof.
  intros Hsteps gradient.
  assert (Hlen : List.length gradient = steps).
  { unfold gradient, ClientColorUtils.generateColorGradient.
    now rewrite List.length_map, List.length_seq. }
  assert (H2 : 2 <= INR steps) by (apply (le_INR 2); exact Hsteps).
  split; [exact Hlen |]. split; [| split; [| split]].
  - unfold gradient. rewrite gradient_nth by lia.
    f_equal. cbn [INR]. unfold Rdiv. rewrite Rmult_0_l.
    unfold mixColors. replace (1 - 0) with 1 by ring.
    rewrite !Rmult_1_r, !Rmult_0_r, !Rplus_0_r, !round_IZR. now destruct c1.
  - unfold gradient. rewrite gradient_nth by lia.
    f_equal.
    replace (INR (steps - 1) / (INR steps - 1)) with 1.
    + unfold mixColors. replace (1 - 1) with 0 by ring.
      rewrite !Rmult_1_r, !Rmult_0_r, !Rplus_0_l, !round_IZR. now destruct c2.
    + rewrite minus_INR by lia. cbn [INR]. field. lra.
  - intros Hv1 Hv2. apply List.Forall_forall. intros m Hin.
    apply List.In_nth_error in Hin. destruct Hin as [i Hi].
    assert (Hlt : (i < steps)%nat).
    { rewrite <- Hlen. apply List.nth_error_Some. now rewrite Hi. }
    unfold gradient in Hi. rewrite gradient_nth in Hi by exact Hlt.
    injection Hi as <-.
    apply SettingsFacts.mixColors_valid;
      [now apply gradient_weight | exact Hv1 | exact Hv2].
  - intros i j mi mj Hij Hi Hj.
    assert (Hjlt : (j < steps)%nat).
    { rewrite <- Hlen. apply List.nth_error_Some. now rewrite Hj. }
    unfold gradient in Hi, Hj.
    rewrite gradient_nth in Hi by lia. rewrite gradient_nth in Hj by exact Hjlt.
    injection Hi as <-. injection Hj as <-.
    pose proof (gradient_weight steps i Hsteps ltac:(lia)) as Hwi.
    pose proof (gradient_weight steps j Hsteps Hjlt) as Hwj.
    assert (Hmono : INR i / (INR steps - 1) <= INR j / (INR steps - 1)).
    { assert (Hinv : 0 < / (INR steps - 1))
        by (apply Rinv_0_lt_compat; lra).
      assert (Hle : INR i <= INR j) by now apply le_INR.
      unfold Rdiv. nra. }
    set (wi := INR i / (INR steps - 1)) in *.
    set (wj := INR j / (INR steps - 1)) in *.
    pose proof (mix_channel_monotone (r c1) (r c2) wi wj
                  ltac:(lra) ltac:(lra)) as Hr.
    pose proof (mix_channel_monotone (g c1) (g c2) wi wj
                  ltac:(lra) ltac:(lra)) as Hg.
    pose proof (mix_channel_monotone (b c1) (b c2) wi wj
                  ltac:(lra) ltac:(lra)) as Hb.
    cbv zeta in Hr, Hg, Hb.
    unfold calculateColorDistance, mixColors; cbn [r g b]. cbv zeta.
    apply sqrt_le_1_alt. lra.
Qed.

(** The hypothesis of [generateColorGradient_endpoints] on a three-step
    gradient from black to white. *)
Lemma generateColorGradient_endpoints_witness :
  let gradient :=
    ClientColorUtils.generateColorGradient
      (mkColor 0 0 0) (mkColor 255 255 255) 3 in
  List.length gradient = 3%nat /\
  List.nth_error gradient 0 = Some (mkColor 0 0 0) /\
  List.nth_error gradient 2 = Some (mkColor 255 255 255).
Proof.
  intros gradient.
  destruct (generateColorGradient_endpoints
              (mkColor 0 0 0) (mkColor 255 255 255) 3 ltac:(lia))
    as (Hlen & Hfirst & Hlast & _).
  repeat split; assumption.
Defined.

End ClientColorFacts.
